(** * dlaudio: the two notebooks of the audio genre-recognition pipeline

    A shallow embedding of [audio_graph.ipynb] (construction of the KNN
    graph and of its normalized Laplacian) and of the dictionary-learning
    notebook (alternating minimization, comparison with a reference
    solution), followed by the properties proved about them.

    Conventions.
    - A notebook cell is a function from the globals it reads to the globals
      it binds; a cell that can raise returns a [result].
    - float64 values are modelled by the real numbers [R]: arithmetic is
      exact, and [sqrt], [exp] are the mathematical functions. Rounding is
      left out, the range of float64 is not where a cell can leave it: the
      cell of the edge weights and the step of the solvers divide by what
      can be zero and take the exponential of what can be large, and their
      values are kept in [float64.t], with signed zeros, infinities and nan.
    - A numpy array or a scipy sparse matrix of two dimensions is its shape
      and its entries; what a sparse matrix stores and what it leaves out
      is not distinguished, except in the output cell, which reads the CSR
      attributes.
    - The arrays of the dictionary notebook are objects in a memory: a
      name, a view [a.T] and the operator a function object has captured
      refer to one buffer, which the solver of the library may update in
      place.
    - [print] and plotting statements bind nothing and are left out, but
      for what can raise in their arguments: an index, a key, the minimum
      of an empty array. The two cells of the dictionary notebook that
      print the terms of the objective return the printed values. *)

From Stdlib Require Import List Arith Lia String Ascii Bool Reals Lra Psatz.
From Equations Require Import Equations.
From stdpp Require Import gmap strings.
Import ListNotations.

(** ** Python: exceptions, identity of strings *)

Inductive exn : Type :=
| StopIteration
| AssertionError
| ValueError
| IndexError
| KeyError
| NameError
| AttributeError
| TypeError
| RuntimeError
| OSError
| IOError.

Inductive result (A : Type) : Type :=
| Ok (a : A)
| Raise (e : exn).
Arguments Ok {A} a.
Arguments Raise {A} e.

#[global] Instance result_ret : MRet result := fun A a => Ok a.
#[global] Instance result_bind : MBind result :=
  fun A B f m => match m with Ok a => f a | Raise e => Raise e end.

(** [assert b] *)
Definition assert (b : bool) : result unit :=
  if b then Ok tt else Raise AssertionError.

(** Equality of shapes, which are tuples of integers. *)
Definition shape_eqb (s t : nat * nat) : bool :=
  (fst s =? fst t) && (snd s =? snd t).

(** A [str] object. Python's [is] compares objects, not characters. CPython
    compiles each cell on its own and interns every string constant made of
    name characters only, so such constants are one object in all cells; any
    other [str] object is told apart by its address. *)
Inductive pystr : Type :=
| Interned (s : string)
| Object (addr : nat) (s : string).

Definition str_value (o : pystr) : string :=
  match o with Interned s => s | Object _ s => s end.

#[global] Instance pystr_eq_dec : EqDecision pystr.
Proof. solve_decision. Defined.

Definition py_is (a b : pystr) : bool := bool_decide (a = b).

Definition name_char (c : ascii) : bool :=
  let n := nat_of_ascii c in
  ((48 <=? n) && (n <=? 57)) || ((65 <=? n) && (n <=? 90))
  || ((97 <=? n) && (n <=? 122)) || (n =? 95).

Definition all_name_chars (s : string) : bool :=
  forallb name_char (list_ascii_of_string s).

(** The object a string constant [s] of the cell numbered [cell] denotes. *)
Definition literal (cell : nat) (s : string) : pystr :=
  if all_name_chars s then Interned s else Object cell s.

(** ** numpy arrays and scipy sparse matrices *)

Definition Rltb (x y : R) : bool := if Rlt_dec x y then true else false.
Definition Reqb (x y : R) : bool := if Req_dec_T x y then true else false.

(** [np.sum] of a sequence *)
Definition total (l : list R) : R := fold_right Rplus 0%R l.

Module np.

Record ndarray (A : Type) : Type :=
  mk_ndarray { shape : nat * nat; item : nat -> nat -> A }.
Arguments mk_ndarray {A} shape item.
Arguments shape {A} _.
Arguments item {A} _ _ _.

Definition rows {A : Type} (a : ndarray A) : nat := fst (shape a).
Definition cols {A : Type} (a : ndarray A) : nat := snd (shape a).

(** [a[i, j]] *)
Definition getitem {A : Type} (a : ndarray A) (i j : nat) : result A :=
  if (i <? rows a) && (j <? cols a) then Ok (item a i j) else Raise IndexError.

(** [a[i, :]] *)
Definition getrow {A : Type} (a : ndarray A) (i : nat) : result (list A) :=
  if i <? rows a then Ok (map (item a i) (seq 0 (cols a)))
  else Raise IndexError.

(** [a[:, 1:]] *)
Definition drop_first_column {A : Type} (a : ndarray A) : ndarray A :=
  {| shape := (rows a, cols a - 1); item := fun i j => item a i (j + 1) |}.

(** [a.flat]: the entries row after row *)
Definition flat {A : Type} (a : ndarray A) : list A :=
  flat_map (fun i => map (item a i) (seq 0 (cols a))) (seq 0 (rows a)).

(** A function applied to every entry ([np.sqrt(a)], [a / 2], ...) *)
Definition elementwise {A B : Type} (f : A -> B) (a : ndarray A) : ndarray B :=
  {| shape := shape a; item := fun i j => f (item a i j) |}.

(** [a.T] *)
Definition T {A : Type} (a : ndarray A) : ndarray A :=
  {| shape := (cols a, rows a); item := fun i j => item a j i |}.

(** [a.min()] and [a.max()] refuse an array without entries; their values
    are only printed. *)
Definition min_max {A : Type} (a : ndarray A) : result unit :=
  if (rows a =? 0) || (cols a =? 0) then Raise ValueError else Ok tt.

(** [np.mean(a)] *)
Definition mean (a : ndarray R) : R :=
  (total (flat a) / INR (rows a * cols a))%R.

(** [np.linalg.norm] of a vector *)
Definition norm (v : list R) : R := sqrt (total (map (fun x => x * x)%R v)).

(** [np.dot] of two matrices; the inner dimensions must agree. *)
Definition dot (a b : ndarray R) : result (ndarray R) :=
  if cols a =? rows b then
    Ok {| shape := (rows a, cols b);
          item := fun i j =>
            total (map (fun l => item a i l * item b l j)%R (seq 0 (cols a))) |}
  else Raise ValueError.

(** The length two axes broadcast to: they are the same, or one of them has
    length one. *)
Definition broadcast (m n : nat) : option nat :=
  if m =? n then Some m
  else if m =? 1 then Some n
  else if n =? 1 then Some m
  else None.

(** [a - b] of two arrays: an axis of length one is repeated. *)
Definition subtract (a b : ndarray R) : result (ndarray R) :=
  match broadcast (rows a) (rows b), broadcast (cols a) (cols b) with
  | Some r, Some c =>
    Ok {| shape := (r, c);
          item := fun i j =>
            (item a (if rows a =? 1 then 0 else i)
                    (if cols a =? 1 then 0 else j)
             - item b (if rows b =? 1 then 0 else i)
                      (if cols b =? 1 then 0 else j))%R |}
  | _, _ => Raise ValueError
  end.

(** What [squeeze] leaves of an array of two dimensions: every axis of
    length one is removed. *)
Inductive squeezed (A : Type) : Type :=
| Dim0 (x : A)
| Dim1 (l : list A)
| Dim2 (a : ndarray A).
Arguments Dim0 {A} x.
Arguments Dim1 {A} l.
Arguments Dim2 {A} a.

Definition squeeze {A : Type} (a : ndarray A) : squeezed A :=
  match rows a =? 1, cols a =? 1 with
  | true, true => Dim0 (item a 0 0)
  | true, false => Dim1 (map (item a 0) (seq 0 (cols a)))
  | false, true => Dim1 (map (fun i => item a i 0) (seq 0 (rows a)))
  | false, false => Dim2 a
  end.

End np.

Abbreviation matrix := (np.ndarray R).

Module sparse.

(** [coo_matrix((v, (i, j)))]: the shape is inferred from the largest
    indices, and entries given several times add up (as [tocsr] does). *)
Definition coo_term (r c : nat) (e : nat * (nat * R)) : R :=
  if (fst e =? r) && (fst (snd e) =? c) then snd (snd e) else 0%R.

Definition coo_matrix (v : list R) (i j : list nat) : result matrix :=
  match i, j with
  | [], _ | _, [] => Raise ValueError
  | _, _ =>
    if (length v =? length i) && (length v =? length j) then
      Ok {| np.shape := (S (list_max i), S (list_max j));
            np.item := fun r c =>
              total (map (coo_term r c) (combine i (combine j v))) |}
    else Raise ValueError
  end.

(** [A.diagonal()] *)
Definition diagonal (a : matrix) : list R :=
  map (fun i => np.item a i i) (seq 0 (Nat.min (np.rows a) (np.cols a))).

(** [A > B], a matrix of booleans *)
Definition gt (a b : matrix) : result (np.ndarray bool) :=
  if shape_eqb (np.shape a) (np.shape b) then
    Ok {| np.shape := np.shape a;
          np.item := fun i j => Rltb (np.item b i j) (np.item a i j) |}
  else Raise ValueError.

(** [A.multiply(B)] with [B] a matrix of booleans, read as 1 and 0 *)
Definition multiply (a : matrix) (b : np.ndarray bool) : result matrix :=
  if shape_eqb (np.shape a) (np.shape b) then
    Ok {| np.shape := np.shape a;
          np.item := fun i j =>
            (np.item a i j * (if np.item b i j then 1 else 0))%R |}
  else Raise ValueError.

Definition sub (a b : matrix) : result matrix :=
  if shape_eqb (np.shape a) (np.shape b) then
    Ok {| np.shape := np.shape a;
          np.item := fun i j => (np.item a i j - np.item b i j)%R |}
  else Raise ValueError.

Definition add (a b : matrix) : result matrix :=
  if shape_eqb (np.shape a) (np.shape b) then
    Ok {| np.shape := np.shape a;
          np.item := fun i j => (np.item a i j + np.item b i j)%R |}
  else Raise ValueError.

(** [A * B] is the matrix product for sparse matrices. *)
Definition mul (a b : matrix) : result matrix := np.dot a b.

(** [A.sum(axis=0)]: one row holding the sum of each column *)
Definition sum_axis0 (a : matrix) : matrix :=
  {| np.shape := (1, np.cols a);
     np.item := fun _ j =>
       total (map (fun i => np.item a i j) (seq 0 (np.rows a))) |}.

(** [scipy.sparse.identity(n)] *)
Definition identity (n : nat) : matrix :=
  {| np.shape := (n, n);
     np.item := fun i j => if i =? j then 1%R else 0%R |}.

(** [scipy.sparse.diags(d, 0)]: [d] must be a sequence. Indexing an array
    of dimension 0 fails, and an array of dimension 2 is taken for several
    diagonals, one more than the single offset. *)
Definition diags (d : np.squeezed R) : result matrix :=
  match d with
  | np.Dim0 _ => Raise IndexError
  | np.Dim1 l =>
    Ok {| np.shape := (length l, length l);
          np.item := fun i j => if i =? j then nth i l 0%R else 0%R |}
  | np.Dim2 _ => Raise ValueError
  end.

End sparse.

(** ** float64 where its range matters *)

Definition Rleb (x y : R) : bool := if Rle_dec x y then true else false.

Module float64.

(** A number with its sign bit, so that [-0.0] is not [0.0], an infinity, or
    nan. The magnitude of a number is not negative. The product and the
    quotient of two numbers are taken exactly, but for the division by
    zero; the exponential leaves the range on both sides. *)
Inductive t : Type :=
| number (negative : bool) (magnitude : R)
| inf (negative : bool)
| nan.

(** The float64 of a real number; zero is [0.0]. *)
Definition of_R (x : R) : t := number (Rltb x 0) (Rabs x).

(** [-a] *)
Definition neg (a : t) : t :=
  match a with
  | number s m => number (negb s) m
  | inf s => inf (negb s)
  | nan => nan
  end.

(** [a * b]: zero times an infinity is nan. *)
Definition mul (a b : t) : t :=
  match a, b with
  | number s m, number s' m' => number (xorb s s') (m * m')
  | number s m, inf s' | inf s, number s' m =>
    if Reqb m 0 then nan else inf (xorb s s')
  | inf s, inf s' => inf (xorb s s')
  | nan, _ | _, nan => nan
  end.

(** [a / b] as numpy divides: a number by zero is an infinity, zero by zero
    and an infinity by an infinity are nan, and nothing is raised. *)
Definition div (a b : t) : t :=
  match a, b with
  | number s m, number s' m' =>
    if Reqb m' 0 then (if Reqb m 0 then nan else inf (xorb s s'))
    else number (xorb s s') (m / m')
  | number s _, inf s' => number (xorb s s') 0
  | inf s, number s' _ => inf (xorb s s')
  | inf _, inf _ | nan, _ | _, nan => nan
  end.

(** Half the smallest positive float64, [2^-1075]: what is not above it
    rounds to zero. *)
Definition tiny : R := (/ 2) ^ 1075.

(** Half a unit in the last place above the largest float64,
    [(2 - 2^-53) * 2^1023]: what is not below it rounds to infinity. *)
Definition huge : R := ((2 - (/ 2) ^ 53) * 2 ^ 1023)%R.

(** [np.exp(a)]: it underflows to zero and overflows to infinity. *)
Definition exp (a : t) : t :=
  match a with
  | number s m =>
    let y := Rtrigo_def.exp (if s then - m else m) in
    if Rleb y tiny then number false 0
    else if Rleb huge y then inf false
    else number false y
  | inf true => number false 0
  | inf false => inf false
  | nan => nan
  end.

End float64.

(** ** The iterator [indices] of the graph notebook *)

Module indices.

Record t : Type := { N : nat; K : nat; n : nat; k : nat }.

Definition __init__ (N K : nat) : t := {| N := N; K := K; n := 0; k := 0 |}.

Definition __len__ (self : t) : nat := N self * K self.

Definition __iter__ (self : t) : t := self.

(** [next] updates the object and either returns a row index or raises
    [StopIteration]; the object after the call comes first. *)
Definition next (self : t) : t * result nat :=
  let k1 := k self + 1 in
  if K self <? k1 then
    let n1 := n self + 1 in
    if N self <=? n1 then
      ({| N := N self; K := K self; n := 0; k := 0 |}, Raise StopIteration)
    else
      ({| N := N self; K := K self; n := n1; k := 1 |}, Ok n1)
  else
    ({| N := N self; K := K self; n := n self; k := k1 |}, Ok (n self)).

Definition __next__ (self : t) : t * result nat := next self.

(** What decreases at every call of [next] that returns. *)
Definition remaining (self : t) : nat :=
  (N self - n self) * (K self + 1) + (K self - k self).

End indices.

Definition inspect {A : Type} (a : A) : {b : A | a = b} := exist _ a eq_refl.

(** [list(it)]: calls [next] until it raises [StopIteration]; returns the
    values and the iterator as the loop leaves it. *)
Equations? py_list (it : indices.t) : list nat * indices.t
  by wf (indices.remaining it) lt :=
  py_list it with inspect (indices.next it) := {
    | exist _ (it', Ok v) e with py_list it' => {
        | (l, it'') := (v :: l, it'') };
    | exist _ (it', Raise _) e := ([], it') }.
Proof.
  unfold indices.next in e. unfold indices.remaining.
  destruct (Nat.ltb_spec (indices.K it) (indices.k it + 1));
    [ destruct (Nat.leb_spec (indices.N it) (indices.n it + 1)) |];
    inversion e; subst; simpl; nia.
Qed.

(** Each [n] of [0..N-1] repeated [K] times, in increasing order of [n]. *)
Definition rows_repeated (N K : nat) : list nat :=
  flat_map (fun n => repeat n K) (seq 0 N).

(** ** The graph notebook, cell by cell *)

(** Numbers of the two code cells that hold string constants compared by
    identity; only that they differ matters. *)
Definition hyperparameters_cell : nat := 5.
Definition distance_cell : nat := 31.

(** [dm = 'cosine'], or any other constant set by hand in that cell *)
Definition hand_set (s : string) : pystr := literal hyperparameters_cell s.

Section graph_notebook.

Variables (K : nat) (dm : pystr) (Csigma tol : R).

(** [def asserts()] of the nearest-neighbors part *)
Definition asserts (Ngenres Nclips Nframes : nat)
    (knnidx : np.ndarray nat) (knndist : matrix) : result unit :=
  assert (shape_eqb (np.shape knnidx) (Ngenres * Nclips * Nframes * 2, K + 1));;
  assert (shape_eqb (np.shape knnidx) (np.shape knndist)).

(** Exclude self reference: [idx, dist = knnidx[:,1:], knndist[:,1:]] *)
Definition exclude_self_reference (X : matrix)
    (knnidx : np.ndarray nat) (knndist : matrix)
  : result (np.ndarray nat * matrix) :=
  let idx := np.drop_first_column knnidx in
  let dist := np.drop_first_column knndist in
  assert (shape_eqb (np.shape idx) (np.rows X, K));;
  assert (shape_eqb (np.shape idx) (np.shape dist));;
  Ok (idx, dist).

(** The [if dm is ... elif ... else] statement of the distance cell *)
Definition convert_distance (dist : matrix) : result matrix :=
  if py_is dm (literal distance_cell "euclidean") then
    Ok (np.elementwise sqrt dist)
  else if py_is dm (literal distance_cell "cosine") then
    Ok (np.elementwise (fun x => x / 2)%R dist)
  else Raise ValueError.

(** The verification that ends the distance cell, at [i, k = 14, 3].
    In the last branch [d] was never bound. *)
Definition verification (X : matrix) (idx : np.ndarray nat) (dist : matrix)
  : result unit :=
  let i := 14 in
  let k := 3 in
  j ← np.getitem idx i k;
  d ← (if py_is dm (literal distance_cell "euclidean") then
         xi ← np.getrow X i;
         xj ← np.getrow X j;
         Ok (Some (np.norm (map (fun p => fst p - snd p)%R (combine xi xj))))
       else if py_is dm (literal distance_cell "cosine") then
         xi ← np.getrow X i;
         assert (Rltb (np.norm xi - 1) tol);;
         xj ← np.getrow X j;
         assert (Rltb (np.norm xj - 1) tol);;
         Ok (Some (1 - total (map (fun p => fst p * snd p)%R (combine xi xj)))%R)
       else Ok None);
  x ← np.getitem dist i k;
  d ← (match d with Some d => Ok d | None => Raise NameError end);
  assert (Rltb (Rabs (x - d)) tol).

(** The distance cell *)
Definition distance_metric (X : matrix) (idx : np.ndarray nat) (dist : matrix)
  : result matrix :=
  dist ← convert_distance dist;
  np.min_max dist;;
  verification X idx dist;;
  Ok dist.

(** The cell of the edge weights: [sigma = Csigma * np.mean(dist)],
    [w = np.exp(-dist / sigma)], and the print of [w.min()] and [w.max()].
    The mean of an array without entries is nan. *)
Definition edge_weights (dist : matrix) : result (np.ndarray float64.t) :=
  let mean := if np.rows dist * np.cols dist =? 0 then float64.nan
              else float64.of_R (np.mean dist) in
  let sigma := float64.mul (float64.of_R Csigma) mean in
  let w := np.elementwise
             (fun x => float64.exp
                         (float64.div (float64.neg (float64.of_R x)) sigma))
             dist in
  np.min_max w;;
  Ok w.

(** Construction of the sparse weight matrix *)
Definition weight_matrix (X : matrix) (idx : np.ndarray nat) (w : matrix)
  : result matrix :=
  let i := fst (py_list (indices.__init__ (np.rows X) K)) in
  let j := np.flat idx in
  let v := np.flat w in
  let Nvertices := np.rows X in
  W ← sparse.coo_matrix v i j;
  assert (shape_eqb (np.shape W) (Nvertices, Nvertices));;
  assert (forallb (fun x => Reqb x 0) (sparse.diagonal W));;
  Ok W.

(** [bigger = W.T > W; W = W - W.multiply(bigger) + W.T.multiply(bigger)] *)
Definition symmetrize (W : matrix) : result matrix :=
  bigger ← sparse.gt (np.T W) W;
  W1 ← sparse.multiply W bigger;
  W2 ← sparse.sub W W1;
  W3 ← sparse.multiply (np.T W) bigger;
  sparse.add W2 W3.

(** The symmetrization cell, with its assertion and its print *)
Definition symmetric_weight_matrix (W : matrix) : result matrix :=
  W ← symmetrize W;
  assert (forallb (fun x => Reqb x 0) (sparse.diagonal W));;
  np.min_max W;;
  Ok W.

(** [d = 1 / np.sqrt(W.sum(axis=0)); D = scipy.sparse.diags(d.A.squeeze(), 0)] *)
Definition degree_matrix (W : matrix) : result matrix :=
  let d := np.elementwise (fun s => 1 / sqrt s)%R (sparse.sum_axis0 W) in
  sparse.diags (np.squeeze d).

(** [I = scipy.sparse.identity(Nvertices); L = I - D * W * D] *)
Definition laplacian (Nvertices : nat) (W D : matrix) : result matrix :=
  let I := sparse.identity Nvertices in
  DW ← sparse.mul D W;
  DWD ← sparse.mul DW D;
  sparse.sub I DWD.

End graph_notebook.

(** ** The output cell: CSR attributes, HDF5 files, the file system *)

Module csr.

(** What the output cell reads of a [csr_matrix] *)
Record t : Type :=
  { data : list R; indices : list nat; indptr : list nat; shape : nat * nat }.

(** [m[i, j]]: the stored entries of row [i] whose column is [j] *)
Definition getitem (m : t) (i j : nat) : result R :=
  if (i <? fst (shape m)) && (j <? snd (shape m)) then
    let start := nth i (indptr m) 0 in
    let stop := nth (S i) (indptr m) 0 in
    Ok (total (map (fun p => if nth p (indices m) 0 =? j
                             then nth p (data m) 0%R else 0%R)
                   (seq start (stop - start))))
  else Raise IndexError.

End csr.

(** A value [h5py] stores: a number, a string, or an array *)
Inductive h5value : Type :=
| h5_int (n : nat)
| h5_float (x : R)
| h5_str (s : string)
| h5_ints (l : list nat)
| h5_floats (l : list R).

(** [np.array(getattr(m, par))] *)
Definition getattr (m : csr.t) (par : string) : result h5value :=
  if String.eqb par "data" then Ok (h5_floats (csr.data m))
  else if String.eqb par "indices" then Ok (h5_ints (csr.indices m))
  else if String.eqb par "indptr" then Ok (h5_ints (csr.indptr m))
  else if String.eqb par "shape"
       then Ok (h5_ints [fst (csr.shape m); snd (csr.shape m)])
       else Raise AttributeError.

Record h5file : Type :=
  { attrs : gmap string h5value; datasets : gmap string h5value }.

(** The file system: the HDF5 file found at each path that has one. *)
Abbreviation filesystem := (gmap string h5file).

Module os.

Definition path_join (a b : string) : string := a +:+ "/" +:+ b.

(** [os.remove(path)] raises [OSError] when there is no such file. *)
Definition remove (path : string) (fs : filesystem) : filesystem * result unit :=
  match fs !! path with
  | Some _ => (delete path fs, Ok tt)
  | None => (fs, Raise OSError)
  end.

End os.

(** Statements run on an open HDF5 file: they update it, and return or
    raise. *)
Definition h5 (A : Type) : Type := h5file -> h5file * result A.

#[global] Instance h5_ret : MRet h5 := fun A a g => (g, Ok a).
#[global] Instance h5_bind : MBind h5 :=
  fun A B f m g =>
    match m g with
    | (g', Ok a) => f a g'
    | (g', Raise e) => (g', Raise e)
    end.

Definition lift {A : Type} (r : result A) : h5 A := fun g => (g, r).

(** [graph.attrs[name] = value] *)
Definition set_attr (name : string) (value : h5value) : h5 unit :=
  fun g => ({| attrs := <[name := value]> (attrs g); datasets := datasets g |},
            Ok tt).

(** [graph.create_dataset(name, data=arr)] refuses a name already taken. *)
Definition create_dataset (name : string) (arr : h5value) : h5 unit :=
  fun g =>
    match datasets g !! name with
    | Some _ => (g, Raise RuntimeError)
    | None =>
      ({| attrs := attrs g; datasets := <[name := arr]> (datasets g) |}, Ok tt)
    end.

(** [for x in l: body] *)
Fixpoint for_each {A : Type} (l : list A) (body : A -> h5 unit) : h5 unit :=
  match l with
  | [] => mret tt
  | x :: l => body x;; for_each l body
  end.

(** [globals()[name]] *)
Definition lookup_global (globals : gmap string csr.t) (name : string)
  : result csr.t :=
  match globals !! name with
  | Some m => Ok m
  | None => Raise KeyError
  end.

(** The body of [with h5py.File(filename, 'w') as graph] *)
Definition dump (K : nat) (dm : pystr) (Csigma : R)
    (globals : gmap string csr.t) : h5 unit :=
  set_attr "K" (h5_int K);;
  set_attr "dm" (h5_str (str_value dm));;
  set_attr "Csigma" (h5_float Csigma);;
  for_each ["W"; "L"] (fun mat =>
    m ← lift (lookup_global globals mat);
    _ ← lift (csr.getitem m 0 4);
    for_each ["data"; "indices"; "indptr"; "shape"] (fun par =>
      arr ← lift (getattr m par);
      create_dataset (mat +:+ "_" +:+ par) arr)).

(** The output cell. Mode ['w'] creates the file, or empties the one found;
    what was written is in the file when the [with] block is left, also by
    an exception. *)
Definition output_data (K : nat) (dm : pystr) (Csigma : R)
    (globals : gmap string csr.t) (fs : filesystem)
  : filesystem * result unit :=
  let filename := os.path_join "data" "graph.hdf5" in
  let (fs, removed) := os.remove filename fs in
  match removed with
  | Ok _ | Raise OSError =>
    let (graph, r) := dump K dm Csigma globals {| attrs := ∅; datasets := ∅ |} in
    (<[filename := graph]> fs, r)
  | Raise e => (fs, Raise e)
  end.

(** *** Names and files

    What [os.remove] adds to mode ['w'] is seen on a disk where a file can
    have several names. [os.remove] takes one name away and leaves the file
    to its other names; mode ['w'] empties the file that has the name, for
    all its names, or makes a new file when nothing has the name. *)

Module disk.

Record t : Type := { names : gmap string nat; files : gmap nat h5file }.


(** Every name names a file. *)
Definition well_formed (d : t) : Prop :=
  forall path i, names d !! path = Some i -> is_Some (files d !! i).

(** The file system as the paths show it *)
Definition view (d : t) : filesystem := omap (fun i => files d !! i) (names d).

(** [os.remove(path)] raises [OSError] when nothing has the name. *)
Definition remove (path : string) (d : t) : t * result unit :=
  match names d !! path with
  | Some _ => ({| names := delete path (names d); files := files d |}, Ok tt)
  | None => (d, Raise OSError)
  end.

(** [h5py.File(path, 'w')]: the disk, and the number of the file that is
    open and empty *)
Definition create (path : string) (d : t) : t * nat :=
  let empty := {| attrs := ∅; datasets := ∅ |} in
  match names d !! path with
  | Some i => ({| names := names d; files := <[i := empty]> (files d) |}, i)
  | None =>
    let i := fresh (dom (files d)) in
    ({| names := <[path := i]> (names d); files := <[i := empty]> (files d) |},
     i)
  end.

(** The output cell on such a disk *)
Definition output_data (K : nat) (dm : pystr) (Csigma : R)
    (globals : gmap string csr.t) (d : t) : t * result unit :=
  let filename := os.path_join "data" "graph.hdf5" in
  let (d, removed) := remove filename d in
  match removed with
  | Ok _ | Raise OSError =>
    let (d, i) := create filename d in
    let (graph, r) := dump K dm Csigma globals {| attrs := ∅; datasets := ∅ |} in
    ({| names := names d; files := <[i := graph]> (files d) |}, r)
  | Raise e => (d, Raise e)
  end.

End disk.

(** ** The dictionary-learning notebook *)

Module dictionary.

(** *** Arrays as objects

    A name, a view [a.T] and the operator a function object was given refer
    to one buffer: what is written into the buffer shows through all of
    them. *)

Record view : Type := { buffer : nat; transposed : bool }.

Abbreviation heap := (list matrix).

(** The array seen through a view *)
Definition load (h : heap) (v : view) : matrix :=
  match h !! buffer v with
  | Some a => if transposed v then np.T a else a
  | None => np.mk_ndarray (0, 0) (fun _ _ => 0%R)
  end.

(** [v[:] = a] *)
Definition store (h : heap) (v : view) (a : matrix) : heap :=
  <[buffer v := if transposed v then np.T a else a]> h.

(** A new array *)
Definition allocate (h : heap) (a : matrix) : heap * view :=
  (h ++ [a], {| buffer := length h; transposed := false |}).

(** [v.T] *)
Definition T (v : view) : view :=
  {| buffer := buffer v; transposed := negb (transposed v) |}.

(** *** The library

    The function objects of [pyunlocbox.functions] the notebook makes, by
    the arguments they are made with, and [functions.func()] with the two
    methods the notebook sets. A norm keeps the arrays it is given as
    operator [A] and target [y], not copies. *)
Inductive func : Type :=
| norm_l1
| norm_l2 (lambda_ : R) (A y : view) (tight : bool)
| proj_b2 (epsilon : R)
| func_with (_eval : matrix -> R) (_prox : matrix -> R -> matrix).

(** [f.eval(x)], after the documentation of each function: [norm_l1] is the
    sum of the absolute values, [norm_l2] is [lambda_ * ||A x - y||_2^2]
    with [A x] the matrix product, and the indicator function of the ball
    is taken to be 0. *)
Definition eval (f : func) (h : heap) (x : matrix) : result R :=
  match f with
  | norm_l1 => Ok (total (map Rabs (np.flat x)))
  | norm_l2 lambda_ A y _ =>
    Ax ← np.dot (load h A) x;
    r ← np.subtract Ax (load h y);
    Ok (lambda_ * total (map (fun v => v * v) (np.flat r)))%R
  | proj_b2 _ => Ok 0%R
  | func_with _eval _ => Ok (_eval x)
  end.

(** [functions.norm_l2(lambda_, A, y).grad(x)], which the forward-backward
    solver takes of its smooth function: [2 lambda_ A^T (A x - y)] *)
Definition norm_l2_grad (lambda_ : R) (A y x : matrix) : result matrix :=
  Ax ← np.dot A x;
  r ← np.subtract Ax y;
  g ← np.dot (np.T A) r;
  Ok (np.elementwise (fun v => 2 * lambda_ * v)%R g).

(** [functions.proj_b2(epsilon)._prox(x, T)] with the identity for operator
    and no target, for a positive [epsilon]: every column of [x] is scaled by
    [min(1, epsilon / norm)], a column of zeros by 1. *)
Definition proj_b2_prox (epsilon : R) (x : matrix) (T : R) : matrix :=
  {| np.shape := np.shape x;
     np.item := fun i j =>
       let nrm := sqrt (total (map (fun l => np.item x l j * np.item x l j)%R
                                   (seq 0 (np.rows x)))) in
       (np.item x i j
        * (if Reqb nrm 0 then 1 else Rmin 1 (epsilon / nrm)))%R |}.

(** [solvers.forward_backward(step=..., method=...)] *)
Record solver : Type := { step : float64.t; method : string }.

(** What [solvers.solve] returns: [ret['sol']] and [ret['objective']] *)
Record solution : Type := { sol : matrix; objective : list (list R) }.

(** *** The notebook *)

(** The globals of the algorithm cell. [f_z] and [f_d] are bound inside the
    loop only. *)
Record vars : Type :=
  { memory : heap;
    Z : view; D : view;
    objective_z : list (list R); objective_d : list (list R);
    objective_g : list R;
    f_z : option func; f_d : option func }.

(** [np.linalg.norm] of a matrix: the Frobenius norm *)
Definition la_norm (a : matrix) : R := np.norm (np.flat a).

(** [np.zeros(np.shape(o))], as rows, for a list [o] of rows of the same
    length *)
Definition zeros_like (o : list (list R)) : list (list R) :=
  map (map (fun _ => 0%R)) o.

(** [for k in l: body], on the globals [s] *)
Fixpoint for_range {S : Type} (l : list nat) (body : nat -> S -> result S)
    (s : S) : result S :=
  match l with
  | [] => Ok s
  | k :: l => s ← body k s; for_range l body s
  end.

(** A global that may not be bound yet *)
Definition bound {A : Type} (x : option A) : result A :=
  match x with Some a => Ok a | None => Raise NameError end.

(** [l[-1]] *)
Definition last_item (l : list R) : result R :=
  match rev l with x :: _ => Ok x | [] => Raise IndexError end.

(** [np.array(o)[:, c]] for a list of rows [o]: the array has two
    dimensions when there are rows and they all have the same length. *)
Definition column (o : list (list R)) (c : nat) : result (list R) :=
  match o with
  | [] => Raise IndexError
  | r0 :: _ =>
    if forallb (fun r => length r =? length r0) o && (c <? length r0)
    then Ok (map (fun r => nth c r 0%R) o)
    else Raise IndexError
  end.

(** The data [X] is the first array of the notebook. *)
Definition X : view := {| buffer := 0; transposed := false |}.

(** The arrays behind the names [X], [Z] and [D] of a state *)
Definition X_of (s : vars) : matrix := load (memory s) X.
Definition Z_of (s : vars) : matrix := load (memory s) (Z s).
Definition D_of (s : vars) : matrix := load (memory s) (D s).

(** [X], [Z] and [D] are three arrays in memory. *)
Definition well_formed (s : vars) : Prop :=
  0 < buffer (Z s) < length (memory s)
  /\ 0 < buffer (D s) < length (memory s)
  /\ buffer (Z s) <> buffer (D s).

Definition N_outer : nat := 15.
Definition N_inner : nat := 100.
Definition xtol : R := (1 / 1000000)%R.

Definition g_z : func := norm_l1.
Definition g_d1 : func := proj_b2 1.

(** [g_d = functions.func()] with [_eval] and [_prox] set by the notebook:
    the constraints are on the lines of [D^T]. *)
Definition g_d : func :=
  func_with (fun Dt => 0%R) (fun Dt _ => np.T (proj_b2_prox 1 (np.T Dt) 0)).

Section notebook.

(** What the library computes, [solvers.solve(functions, x0, solver, rtol,
    xtol, maxit)] for the functions as the arrays in memory make them and
    the starting point [x0], and where it leaves the solution: pyunlocbox
    writes it into the array given as [x0] from the version on that works in
    place, and into a new array before. *)
Variable solve :
  list func -> heap -> matrix -> solver -> option R -> R -> nat
  -> result solution.
Variable inplace : bool.

(** The call of [solvers.solve]: the memory after it, [ret['sol']] and
    [ret['objective']] *)
Definition solvers_solve (functions : list func) (x0 : view) (sv : solver)
    (rtol : option R) (xtol : R) (maxit : nat) (h : heap)
  : result (heap * view * list (list R)) :=
  ret ← solve functions h (load h x0) sv rtol xtol maxit;
  if inplace then Ok (store h x0 (sol ret), x0, objective ret)
  else let (h, v) := allocate h (sol ret) in Ok (h, v, objective ret).

(** What [solvers.solve] records: the objective of the starting point and
    of every iterate, each a row with one value per function. *)
Definition records_objective : Prop :=
  forall fs h x0 sv rtol xtol maxit ret,
    solve fs h x0 sv rtol xtol maxit = Ok ret ->
    objective ret <> []
    /\ List.Forall (fun row => length row = length fs) (objective ret).

(** The solution has the shape of the starting point. *)
Definition keeps_shape : Prop :=
  forall fs h x0 sv rtol xtol maxit ret,
    solve fs h x0 sv rtol xtol maxit = Ok ret ->
    np.shape (sol ret) = np.shape x0.

(** The hyper-parameter [l_d] *)
Variable l_d : R.

(** [solvers.forward_backward(step=1./L, method='FISTA')] *)
Definition forward_backward (L : R) : solver :=
  {| step := float64.div (float64.of_R 1) (float64.of_R L);
     method := "FISTA" |}.

(** One turn of the outer loop *)
Definition outer_iteration (k : nat) (s : vars) : result vars :=
  let h := memory s in
  (* Convex minimization for Z. *)
  let f_z := norm_l2 (l_d / 2) (D s) X false in
  DtD ← np.dot (load h (T (D s))) (load h (D s));
  let L := (l_d * la_norm DtD)%R in
  let solver := forward_backward L in
  '(h, Z, objective) ←
    solvers_solve [f_z; g_z] (Z s) solver None xtol N_inner h;
  let objective_z := objective_z s ++ objective in
  let objective_d := objective_d s ++ zeros_like objective in
  (* Convex minimization for D. *)
  let f_d := norm_l2 (l_d / 2) (T Z) (T X) false in
  ZZt ← np.dot (load h Z) (load h (T Z));
  let L := (l_d * la_norm ZZt)%R in
  let solver := forward_backward L in
  '(h, Dt, objective) ←
    solvers_solve [f_d; g_d] (T (D s)) solver None xtol N_inner h;
  let D := T Dt in
  let objective_d := objective_d ++ objective in
  let objective_z := objective_z ++ zeros_like objective in
  (* Global objective (the indicators are 0). *)
  v_z ← eval g_z h (load h Z);
  v_d ← eval f_d h (load h (T D));
  let objective_g := objective_g s ++ [(v_z + v_d)%R] in
  Ok {| memory := h; Z := Z; D := D;
        objective_z := objective_z; objective_d := objective_d;
        objective_g := objective_g;
        f_z := Some f_z; f_d := Some f_d |}.

(** The data and the initial conditions, each loaded into an array of its
    own, and the initialization of the algorithm cell: [Z = Zinit] and
    [D = Dinit] are these arrays. *)
Definition initialization (data Zinit Dinit : matrix) : vars :=
  {| memory := [data; Zinit; Dinit];
     Z := {| buffer := 1; transposed := false |};
     D := {| buffer := 2; transposed := false |};
     objective_z := []; objective_d := []; objective_g := [];
     f_z := None; f_d := None |}.

(** The loop, for a number of turns *)
Definition outer_loop (turns : nat) (data Zinit Dinit : matrix)
  : result vars :=
  for_range (seq 0 turns) outer_iteration (initialization data Zinit Dinit).

(** The algorithm cell *)
Definition algorithm (data Zinit Dinit : matrix) : result vars :=
  outer_loop N_outer data Zinit Dinit.

(** The convergence cell: the columns of the recorded objectives that it
    plots, then the four values it prints of the notebook's own solution,
    [g_z(Z)], [f_z(Z,D)], [f_d(D,Z)] and their recorded sum *)
Definition convergence (s : vars) : result (list R) :=
  let h := memory s in
  _ ← column (objective_z s) 0;
  _ ← column (objective_z s) 1;
  _ ← column (objective_d s) 0;
  v1 ← eval g_z h (load h (Z s));
  f_z ← bound (f_z s);
  v2 ← eval f_z h (load h (Z s));
  f_d ← bound (f_d s);
  v3 ← eval f_d h (load h (T (D s)));
  v4 ← last_item (objective_g s);
  Ok [v1; v2; v3; v4].

(** [scipy.io.loadmat(path)], and [mat[key]] *)
Definition loadmat (files : gmap string (gmap string matrix)) (path : string)
  : result (gmap string matrix) :=
  match files !! path with Some mat => Ok mat | None => Raise IOError end.

Definition getkey (mat : gmap string matrix) (key : string) : result matrix :=
  match mat !! key with Some a => Ok a | None => Raise KeyError end.

(** ['%d' % a] takes an array of one entry only. *)
Definition assert_scalar (a : matrix) : result unit :=
  if np.rows a * np.cols a =? 1 then Ok tt else Raise TypeError.

(** The cell "Solution from Xavier": the reference solution, loaded into
    two new arrays, and the four values printed of it *)
Definition solution_from_xavier (files : gmap string (gmap string matrix))
    (h : heap) : result (matrix * matrix * list R) :=
  mat ← loadmat files "data/xavier_ZD.mat";
  Zxavier ← getkey mat "Z";
  let (h, Zxavier) := allocate h Zxavier in
  Dxavier ← getkey mat "D";
  let (h, Dxavier) := allocate h Dxavier in
  exectime ← getkey mat "exectime";
  assert_scalar exectime;;
  let g_z := norm_l1 in
  let f_z := norm_l2 (l_d / 2) Dxavier X false in
  let f_d := norm_l2 (l_d / 2) (T Zxavier) (T X) false in
  v1 ← eval g_z h (load h Zxavier);
  v2 ← eval f_z h (load h Zxavier);
  v3 ← eval f_d h (load h (T Dxavier));
  v4 ← eval g_z h (load h Zxavier);
  v5 ← eval f_d h (load h (T Dxavier));
  Ok (load h Zxavier, load h Dxavier, [v1; v2; v3; (v4 + v5)%R]).

End notebook.

(** *** After the specification *)

(** The L1 norm of [Z] *)
Definition l1_norm (Z : matrix) : R :=
  total (map (fun i => total (map (fun j => Rabs (np.item Z i j))
                                  (seq 0 (np.cols Z))))
             (seq 0 (np.rows Z))).

(** The L2 data term weighted by [lambda_ = l_d/2],
    [l_d/2 ||X - D Z||_F^2], for [X] of [n] rows and [N] columns and [D] of
    [m] columns *)
Definition data_term (l_d : R) (data Z D : matrix) : R :=
  (l_d / 2
   * total (map (fun i =>
       total (map (fun j =>
         let DZ := total (map (fun l => np.item D i l * np.item Z l j)
                              (seq 0 (np.cols D))) in
         (np.item data i j - DZ) * (np.item data i j - DZ))
         (seq 0 (np.cols data))))
       (seq 0 (np.rows data))))%R.

(** The objective of the problem, without the constraint *)
Definition objective_spec (l_d : R) (data Z D : matrix) : R :=
  (l1_norm Z + data_term l_d data Z D)%R.

(** The distance of two matrices of one shape, [||a - b||_F] *)
Definition frobenius_distance (a b : matrix) : R :=
  sqrt (total (map (fun i =>
          total (map (fun j => (np.item a i j - np.item b i j)
                               * (np.item a i j - np.item b i j))
                     (seq 0 (np.cols a))))
          (seq 0 (np.rows a))))%R.

(** [L] is a Lipschitz constant of [grad] on the matrices of a shape. *)
Definition lipschitz (L : R) (grad : matrix -> result matrix)
    (shape : nat * nat) : Prop :=
  forall x x' : matrix,
    np.shape x = shape -> np.shape x' = shape ->
    exists g g' : matrix,
      grad x = Ok g /\ grad x' = Ok g'
      /\ np.shape g = shape /\ np.shape g' = shape
      /\ (frobenius_distance g g' <= L * frobenius_distance x x')%R.

(** The L2 norm of column [j] *)
Definition column_norm (a : matrix) (j : nat) : R :=
  sqrt (total (map (fun i => np.item a i j * np.item a i j)
                   (seq 0 (np.rows a))))%R.

End dictionary.

(** ** The input cell of the graph notebook, after the data is loaded *)

(** [np.min(X, axis=0)] and [np.max(X, axis=0)], for [op] the minimum or
    the maximum of two numbers: one value per column. An axis of length
    zero cannot be reduced. *)
Definition reduce_axis0 (op : R -> R -> R) (X : matrix) : result (list R) :=
  if np.rows X =? 0 then Raise ValueError
  else Ok (map (fun c => fold_right (fun i acc => op (np.item X i c) acc)
                           (np.item X 0 c) (seq 1 (np.rows X - 1)))
               (seq 0 (np.cols X))).

(** [X op v] with the vector [v] broadcast to every row of [X] *)
Definition each_column (op : R -> R -> R) (X : matrix) (v : list R) : matrix :=
  {| np.shape := np.shape X;
     np.item := fun i j => op (np.item X i j) (nth j v 0%R) |}.

(** [X op v[:, np.newaxis]]: [v] broadcast to every column of [X] *)
Definition each_row (op : R -> R -> R) (X : matrix) (v : list R) : matrix :=
  {| np.shape := np.shape X;
     np.item := fun i j => op (np.item X i j) (nth i v 0%R) |}.

(** [X -= np.min(X, axis=0); X /= np.max(X, axis=0)] *)
Definition rescale (X : matrix) : result matrix :=
  lo ← reduce_axis0 Rmin X;
  let X := each_column Rminus X lo in
  hi ← reduce_axis0 Rmax X;
  Ok (each_column Rdiv X hi).

Definition input_cell : nat := 9.

(** Normalize: put each sample on the unit sphere, when [dm is 'cosine']. *)
Definition unit_sphere (dm : pystr) (tol : R) (X : matrix) : result matrix :=
  if py_is dm (literal input_cell "cosine") then
    let X := np.elementwise (fun x => x + 1 / 100000000000000000000)%R X in
    let norms :=
      map (fun i => sqrt (total (map (fun c => np.item X i c * np.item X i c)%R
                                     (seq 0 (np.cols X)))))
          (seq 0 (np.rows X)) in
    let X := each_row Rdiv X norms in
    x0 ← np.getrow X 0;
    assert (Rltb (np.norm x0 - 1) tol);;
    Ok X
  else Ok X.

(** The input cell from [X -= ...] on *)
Definition input_data (dm : pystr) (tol : R) (X : matrix) : result matrix :=
  X ← rescale X;
  unit_sphere dm tol X.

(** ** [sparse_code] of the dictionary notebook *)

(** The exception [100.*nnz/Z.size] raises for an array without entries *)
Inductive arithmetic_error : Type := ZeroDivisionError.

(** [np.count_nonzero(Z)] *)
Definition count_nonzero (Z : matrix) : nat :=
  length (List.filter (fun x => negb (Reqb x 0)) (np.flat Z)).

(** [sparse_code(Z)]: the three values it prints, the number of non-zero
    entries, the number of entries and the percentage of the former. *)
Definition sparse_code (Z : matrix) : arithmetic_error + nat * nat * R :=
  let nnz := count_nonzero Z in
  let size := np.rows Z * np.cols Z in
  if size =? 0 then inl ZeroDivisionError
  else inr (nnz, size, (100 * INR nnz / INR size)%R).

(** ** Reference definitions, after the specification *)

(** The degree of vertex [i]: the sum of column [i] of [W]. *)
Definition degree (W : matrix) (i : nat) : R :=
  total (map (fun r => np.item W r i) (seq 0 (np.rows W))).

(** The weight that joins [r] to [c] in the KNN graph: the weights [w[r, k]]
    of those of the [K] neighbors [idx[r, k]] of [r] that are [c]. *)
Definition joined_weight (idx : np.ndarray nat) (w : matrix) (K r c : nat) : R :=
  total (map (fun k => if np.item idx r k =? c then np.item w r k else 0%R)
             (seq 0 K)).

(** Entry [(i, j)] of the symmetric normalized Laplacian
    [I - D^{-1/2} W D^{-1/2}] of [W], [D] being the diagonal matrix of the
    degrees. *)
Definition normalized_laplacian_spec (W : matrix) (i j : nat) : R :=
  ((if i =? j then 1 else 0)
   - np.item W i j / sqrt (degree W i * degree W j))%R.

(** The file the next stage of the pipeline reads: the hyper-parameters as
    attributes, and a dataset for each CSR component of [W] and of [L]. *)
Definition graph_file_spec (K : nat) (dm : pystr) (Csigma : R) (W L : csr.t)
  : h5file :=
  {| attrs :=
       {[ "K" := h5_int K; "dm" := h5_str (str_value dm);
          "Csigma" := h5_float Csigma ]};
     datasets :=
       {[ "W_data" := h5_floats (csr.data W);
          "W_indices" := h5_ints (csr.indices W);
          "W_indptr" := h5_ints (csr.indptr W);
          "W_shape" := h5_ints [fst (csr.shape W); snd (csr.shape W)];
          "L_data" := h5_floats (csr.data L);
          "L_indices" := h5_ints (csr.indices L);
          "L_indptr" := h5_ints (csr.indptr L);
          "L_shape" := h5_ints [fst (csr.shape L); snd (csr.shape L)] ]} |}.

(* ================================================================= *)
(** * Properties *)

(** ** The iterator *)

Lemma py_list_step (it : indices.t) :
  py_list it =
  match indices.next it with
  | (it', Ok v) => let (l, it'') := py_list it' in (v :: l, it'')
  | (it', Raise _) => ([], it')
  end.
Proof.
  funelim (py_list it); rewrite e; simpl;
    try match goal with Hq : py_list _ = (_, _) |- _ => rewrite Hq end;
    reflexivity.
Qed.

(** From a state inside row [n], the rest of row [n] and then all later
    rows are produced, and the iterator comes back to its initial state. *)
Lemma py_list_from (N K : nat) :
  1 <= K ->
  forall m n k,
    indices.remaining {| indices.N := N; indices.K := K;
                         indices.n := n; indices.k := k |} = m ->
    n < N -> k <= K ->
    py_list {| indices.N := N; indices.K := K; indices.n := n; indices.k := k |}
    = (repeat n (K - k) ++ flat_map (fun i => repeat i K) (seq (S n) (N - S n)),
       indices.__init__ N K).
Proof.
  intros HK m. induction m as [m IH] using lt_wf_ind.
  intros n k Hm Hn Hk. unfold indices.remaining in Hm. simpl in Hm.
  rewrite py_list_step. unfold indices.next. simpl.
  destruct (Nat.ltb_spec K (k + 1)) as [Hlt | Hge].
  - assert (k = K) by lia. subst k.
    destruct (Nat.leb_spec N (n + 1)) as [Hlast | Hmore].
    + replace (N - S n) with 0 by lia. rewrite Nat.sub_diag. reflexivity.
    + rewrite (IH ((N - (n + 1)) * (K + 1) + (K - 1))); try lia.
      * rewrite Nat.sub_diag. simpl.
        replace (N - S n) with (S (N - S (n + 1))) by lia.
        simpl. replace K with (S (K - 1)) at 3 by lia.
        rewrite Nat.add_1_r. reflexivity.
      * reflexivity.
  - rewrite (IH ((N - n) * (K + 1) + (K - (k + 1)))); try lia.
    + replace (K - k) with (S (K - (k + 1))) by lia. reflexivity.
    + reflexivity.
Qed.

Lemma rows_from_length (K a N : nat) :
  length (flat_map (fun i => repeat i K) (seq a N)) = N * K.
Proof.
  revert a. induction N as [| N IH]; intros a; simpl; [reflexivity |].
  rewrite length_app, repeat_length, IH. reflexivity.
Qed.

Lemma count_occ_repeat (i n K : nat) :
  count_occ Nat.eq_dec (repeat i K) n = if Nat.eq_dec i n then K else 0.
Proof.
  induction K as [| K IH]; simpl.
  - destruct (Nat.eq_dec i n); reflexivity.
  - rewrite IH. destruct (Nat.eq_dec i n); reflexivity.
Qed.

Lemma rows_from_count (K a N n : nat) :
  count_occ Nat.eq_dec (flat_map (fun i => repeat i K) (seq a N)) n
  = if (a <=? n) && (n <? a + N) then K else 0.
Proof.
  revert a. induction N as [| N IH]; intros a; simpl.
  - destruct (Nat.leb_spec a n), (Nat.ltb_spec n (a + 0)); simpl; lia.
  - rewrite count_occ_app, count_occ_repeat, IH.
    destruct (Nat.eq_dec a n), (Nat.leb_spec a n), (Nat.leb_spec (S a) n),
      (Nat.ltb_spec n (S a + N)), (Nat.ltb_spec n (a + S N)); simpl; lia.
Qed.

Lemma py_list_indices (N K : nat) :
  1 <= N -> 1 <= K ->
  py_list (indices.__init__ N K) = (rows_repeated N K, indices.__init__ N K).
Proof.
  intros HN HK. unfold indices.__init__ at 1.
  rewrite (py_list_from N K HK _ 0 0 eq_refl) by lia.
  unfold rows_repeated. rewrite Nat.sub_0_r.
  replace N with (S (N - 1)) at 3 by lia. reflexivity.
Qed.

(** C10. For [N >= 1] and [K >= 1], exhausting [indices(N, K)] yields each
    row index of [0..N-1] exactly [K] times, in increasing order, that is
    [N*K = __len__] values; the iterator is left in its initial state
    ([n = 0], [k = 0]), and exhausting it again yields the same values. *)
Theorem indices_exhaustion (N K : nat) :
  1 <= N -> 1 <= K ->
  let it := indices.__init__ N K in
  py_list it = (rows_repeated N K, it)
  /\ length (fst (py_list it)) = indices.__len__ it
  /\ (forall n, n < N -> count_occ Nat.eq_dec (fst (py_list it)) n = K)
  /\ (forall n, N <= n -> count_occ Nat.eq_dec (fst (py_list it)) n = 0)
  /\ indices.n (snd (py_list it)) = 0
  /\ indices.k (snd (py_list it)) = 0
  /\ py_list (snd (py_list it)) = (rows_repeated N K, it).
Proof.
  intros HN HK it.
  pose proof (py_list_indices N K HN HK) as Hrun. fold it in Hrun.
  rewrite Hrun. simpl. repeat split; trivial.
  - unfold rows_repeated. apply rows_from_length.
  - intros n Hn. unfold rows_repeated. rewrite rows_from_count.
    destruct (Nat.ltb_spec n (0 + N)); simpl; lia.
  - intros n Hn. unfold rows_repeated. rewrite rows_from_count.
    destruct (Nat.ltb_spec n (0 + N)); simpl; lia.
Qed.

Lemma indices_exhaustion_witness :
  py_list (indices.__init__ 3 2)
  = ([0; 0; 1; 1; 2; 2], indices.__init__ 3 2).
Proof.
  exact (proj1 (indices_exhaustion 3 2 ltac:(lia) ltac:(lia))).
Defined.

(** Outside [N >= 1] and [K >= 1] the values and [__len__] disagree. *)
Example indices_3_2 :
  py_list (indices.__init__ 3 2) = ([0; 0; 1; 1; 2; 2], indices.__init__ 3 2).
Proof. reflexivity. Qed.

Example indices_K_zero :
  fst (py_list (indices.__init__ 3 0)) = [1; 2]
  /\ indices.__len__ (indices.__init__ 3 0) = 0.
Proof. split; reflexivity. Qed.

Example indices_N_zero :
  fst (py_list (indices.__init__ 0 2)) = [0; 0]
  /\ indices.__len__ (indices.__init__ 0 2) = 0.
Proof. split; reflexivity. Qed.

(** ** Assertions and exceptions *)

Lemma shape_eqb_eq (s t : nat * nat) : shape_eqb s t = true <-> s = t.
Proof.
  destruct s as [a b], t as [c d]. unfold shape_eqb. simpl.
  rewrite andb_true_iff, !Nat.eqb_eq. split.
  - intros [-> ->]. reflexivity.
  - intros [= -> ->]. split; reflexivity.
Qed.

Lemma shape_eqb_refl (s : nat * nat) : shape_eqb s s = true.
Proof. apply shape_eqb_eq. reflexivity. Qed.

Lemma Reqb_true (x y : R) : Reqb x y = true <-> x = y.
Proof. unfold Reqb. destruct (Req_dec_T x y); split; congruence. Qed.

Lemma assert_Ok (b : bool) : assert b = Ok tt <-> b = true.
Proof. destruct b; simpl; split; congruence. Qed.

Lemma bind_Ok {A B : Type} (m : result A) (f : A -> result B) (b : B) :
  m ≫= f = Ok b <-> exists a, m = Ok a /\ f a = Ok b.
Proof.
  destruct m as [a | e]; simpl; split.
  - intros H. exists a. split; [reflexivity | exact H].
  - intros (a' & [= <-] & H). exact H.
  - discriminate.
  - intros (a' & [=] & _).
Qed.

Lemma assert_then_Ok {B : Type} (c : bool) (m : result B) (b : B) :
  (assert c;; m) = Ok b <-> c = true /\ m = Ok b.
Proof.
  destruct c; simpl; split; try tauto; try discriminate.
  intros [[=] _].
Qed.

(** C8. With [X] of [Ngenres*Nclips*Nframes*2] rows, when the assertions of
    [asserts()] hold after the search, the assertions made after dropping
    the first column hold too: [idx] has shape [(X.shape[0], K)], which is
    also the shape of [dist]. *)
Theorem asserted_shapes_consistent (K Ngenres Nclips Nframes : nat)
    (X : matrix) (knnidx : np.ndarray nat) (knndist : matrix) :
  np.rows X = Ngenres * Nclips * Nframes * 2 ->
  asserts K Ngenres Nclips Nframes knnidx knndist = Ok tt ->
  let idx := np.drop_first_column knnidx in
  let dist := np.drop_first_column knndist in
  exclude_self_reference K X knnidx knndist = Ok (idx, dist)
  /\ np.shape idx = (np.rows X, K)
  /\ np.shape idx = np.shape dist.
Proof.
  intros HX Hasserts idx dist.
  unfold asserts in Hasserts.
  apply assert_then_Ok in Hasserts as [H1 H2].
  apply assert_Ok in H2.
  apply shape_eqb_eq in H1, H2.
  assert (Hidx : np.shape idx = (np.rows X, K)).
  { rewrite HX. unfold idx, np.drop_first_column, np.rows, np.cols.
    rewrite H1. simpl. f_equal. lia. }
  assert (Hdist : np.shape idx = np.shape dist).
  { unfold idx, dist, np.drop_first_column, np.rows, np.cols.
    rewrite <- H2. reflexivity. }
  split; [| split; assumption].
  unfold exclude_self_reference. fold idx dist.
  apply assert_then_Ok. split; [apply shape_eqb_eq; exact Hidx |].
  apply assert_then_Ok. split; [apply shape_eqb_eq; exact Hdist |].
  reflexivity.
Qed.

Lemma asserted_shapes_consistent_witness :
  let X := np.mk_ndarray (4, 3) (fun _ _ => 0%R) in
  let knnidx := np.mk_ndarray (4, 3) (fun i j => (i + j) mod 4) in
  let knndist := np.mk_ndarray (4, 3) (fun _ j => INR j) in
  np.shape (np.drop_first_column knnidx) = (4, 2)
  /\ np.shape (np.drop_first_column knnidx)
     = np.shape (np.drop_first_column knndist).
Proof.
  intros X knnidx knndist.
  exact (proj2 (asserted_shapes_consistent 2 1 1 2 X knnidx knndist
                  eq_refl eq_refl)).
Defined.

(** ** The distance metric *)

Lemma py_is_true (a b : pystr) : py_is a b = true <-> a = b.
Proof. unfold py_is. apply bool_decide_eq_true. Qed.

Lemma py_is_false (a b : pystr) : py_is a b = false <-> a <> b.
Proof. unfold py_is. apply bool_decide_eq_false. Qed.

(** A constant set by hand is the object of a constant made of name
    characters exactly when it has the same characters. *)
Lemma hand_set_is (s t : string) :
  all_name_chars t = true ->
  py_is (hand_set s) (literal distance_cell t) = String.eqb s t.
Proof.
  intros Ht. unfold hand_set, literal. rewrite Ht.
  destruct (String.eqb_spec s t) as [-> | Hne].
  - rewrite Ht. apply py_is_true. reflexivity.
  - apply py_is_false. destruct (all_name_chars s); congruence.
Qed.

(** C7. With [dm] set by hand to the constant [s], the conversion computes
    [sqrt(dist)] when [s] is 'euclidean' and [dist / 2] when [s] is
    'cosine'; for every other [s] it raises [ValueError], and so does the
    cell as a whole. *)
Theorem convert_distance_cases (s : string) (dist : matrix) :
  convert_distance (hand_set s) dist
  = (if String.eqb s "euclidean" then Ok (np.elementwise sqrt dist)
     else if String.eqb s "cosine"
          then Ok (np.elementwise (fun x => (x / 2)%R) dist)
          else Raise ValueError)
  /\ forall (tol : R) (X : matrix) (idx : np.ndarray nat),
       (if String.eqb s "euclidean" || String.eqb s "cosine" then True
        else distance_metric (hand_set s) tol X idx dist = Raise ValueError).
Proof.
  assert (Hconv : convert_distance (hand_set s) dist
    = (if String.eqb s "euclidean" then Ok (np.elementwise sqrt dist)
       else if String.eqb s "cosine"
            then Ok (np.elementwise (fun x => (x / 2)%R) dist)
            else Raise ValueError)).
  { unfold convert_distance. rewrite !hand_set_is by reflexivity. reflexivity. }
  split; [exact Hconv |].
  intros tol X idx. unfold distance_metric. rewrite Hconv.
  destruct (String.eqb s "euclidean"), (String.eqb s "cosine"); simpl; trivial.
Qed.

Example convert_cosine (dist : matrix) :
  convert_distance (hand_set "cosine") dist
  = Ok (np.elementwise (fun x => (x / 2)%R) dist).
Proof. reflexivity. Qed.

Example convert_manhattan (dist : matrix) :
  convert_distance (hand_set "manhattan") dist = Raise ValueError.
Proof. reflexivity. Qed.

(** [is] is not [==]: a string with the characters of 'cosine' that is not
    the interned constant takes the last branch. *)
Example convert_other_object (dist : matrix) :
  convert_distance (Object 7 "cosine") dist = Raise ValueError.
Proof. reflexivity. Qed.

(** ** Symmetrization *)

(** The selection [x - x*b + y*b] with [b = (x < y)] is the maximum. *)
Lemma select_bigger (x y : R) :
  (x - x * (if Rltb x y then 1 else 0) + y * (if Rltb x y then 1 else 0))%R
  = Rmax x y.
Proof.
  unfold Rltb, Rmax. destruct (Rlt_dec x y), (Rle_dec x y); lra.
Qed.

Lemma symmetrize_square (N : nat) (W : matrix) :
  np.shape W = (N, N) ->
  exists W' : matrix,
    symmetrize W = Ok W'
    /\ np.shape W' = (N, N)
    /\ forall i j, np.item W' i j = Rmax (np.item W i j) (np.item W j i).
Proof.
  intros HW.
  unfold symmetrize, sparse.gt, sparse.multiply, sparse.sub, sparse.add.
  unfold np.T, np.rows, np.cols. simpl. rewrite HW. simpl.
  repeat (rewrite shape_eqb_refl; simpl).
  eexists. split; [reflexivity |]. simpl.
  split; [reflexivity |]. intros i j. apply select_bigger.
Qed.

(** X25. The shapes of [W.T] and [W] differ unless [W] is square: the
    symmetrization of a matrix that is not square raises [ValueError]. *)
Lemma symmetrize_not_square (W : matrix) :
  np.rows W <> np.cols W -> symmetrize W = Raise ValueError.
Proof.
  intros Hne. unfold symmetrize, sparse.gt.
  destruct (shape_eqb (np.shape (np.T W)) (np.shape W)) eqn:Heq;
    [| reflexivity].
  apply shape_eqb_eq in Heq. unfold np.T, np.rows, np.cols in *.
  simpl in Heq. destruct (np.shape W) as [r c]. simpl in *. congruence.
Qed.

(** The assertion that ends the symmetrization cell holds when the
    diagonal was zero before. *)
Lemma symmetric_weight_matrix_passes (N : nat) (W : matrix) :
  np.shape W = (N, N) ->
  1 <= N ->
  (forall i, i < N -> np.item W i i = 0%R) ->
  exists W' : matrix,
    symmetric_weight_matrix W = Ok W' /\ symmetrize W = Ok W'.
Proof.
  intros HW HN Hdiag.
  destruct (symmetrize_square N W HW) as (W' & Hsym & Hshape & Hitem).
  exists W'. split; [| exact Hsym].
  unfold symmetric_weight_matrix. rewrite Hsym. simpl.
  apply assert_then_Ok. split.
  2:{ unfold np.min_max, np.rows, np.cols. rewrite Hshape. simpl.
      destruct N; [lia | reflexivity]. }
  apply forallb_forall. intros x Hx. apply Reqb_true.
  unfold sparse.diagonal, np.rows, np.cols in Hx. rewrite Hshape in Hx.
  simpl in Hx. rewrite Nat.min_id in Hx.
  apply in_map_iff in Hx as (i & <- & Hi). apply in_seq in Hi.
  rewrite Hitem, Hdiag by lia. apply Rmax_left. lra.
Qed.

(** C4. For a square [W], the symmetrization yields the elementwise maximum
    of [W] and [W.T]: the result is symmetric, entries where [W] was already
    at least [W.T] are unchanged, and a zero on the diagonal stays zero. *)
Theorem symmetrize_is_maximum (N : nat) (W : matrix) :
  np.shape W = (N, N) ->
  exists W' : matrix,
    symmetrize W = Ok W'
    /\ np.shape W' = (N, N)
    /\ (forall i j, i < N -> j < N ->
          np.item W' i j = Rmax (np.item W i j) (np.item W j i))
    /\ (forall i j, i < N -> j < N -> np.item W' i j = np.item W' j i)
    /\ (forall i j, i < N -> j < N ->
          (np.item W j i <= np.item W i j)%R -> np.item W' i j = np.item W i j)
    /\ (forall i, i < N -> np.item W i i = 0%R -> np.item W' i i = 0%R).
Proof.
  intros HW.
  destruct (symmetrize_square N W HW) as (W' & Hsym & Hshape & Hitem).
  exists W'.
  split; [exact Hsym |].
  split; [exact Hshape |].
  split; [intros i j _ _; apply Hitem |].
  split; [intros i j _ _; rewrite !Hitem; apply Rmax_comm |].
  split.
  - intros i j _ _ Hle. rewrite Hitem. apply Rmax_left. exact Hle.
  - intros i _ Hz. rewrite Hitem, Hz. apply Rmax_left. lra.
Qed.

Lemma symmetrize_is_maximum_witness :
  exists W' : matrix,
    symmetrize (np.mk_ndarray (2, 2) (fun i j => INR (i + 2 * j))) = Ok W'
    /\ np.shape W' = (2, 2).
Proof.
  destruct (symmetrize_is_maximum 2
              (np.mk_ndarray (2, 2) (fun i j => INR (i + 2 * j))) eq_refl)
    as (W' & H1 & H2 & _).
  exists W'. split; assumption.
Defined.

(** ** The normalized Laplacian *)

Lemma total_zero {A : Type} (g : A -> R) (l : list A) :
  (forall x, In x l -> g x = 0%R) -> total (map g l) = 0%R.
Proof.
  induction l as [| a l IH]; intros Hg; simpl; [reflexivity |].
  rewrite Hg by (left; reflexivity).
  rewrite IH by (intros x Hx; apply Hg; right; exact Hx). lra.
Qed.

(** A sum over [a..a+n-1] with a single nonzero term *)
Lemma total_single (g : nat -> R) (i a n : nat) :
  a <= i < a + n ->
  (forall l, l <> i -> g l = 0%R) ->
  total (map g (seq a n)) = g i.
Proof.
  revert a. induction n as [| n IH]; intros a Hi Hg; [lia |].
  simpl. destruct (Nat.eq_dec a i) as [-> | Hne].
  - rewrite total_zero; [lra |].
    intros x Hx. apply in_seq in Hx. apply Hg. lia.
  - rewrite (Hg a Hne), IH; [lra | lia | exact Hg].
Qed.

Lemma nth_map_seq {A : Type} (f : nat -> A) (d : A) (n i : nat) :
  i < n -> nth i (map f (seq 0 n)) d = f i.
Proof.
  intros Hi. rewrite (nth_indep _ d (f 0)) by (rewrite length_map, length_seq; lia).
  rewrite (map_nth f (seq 0 n) 0 i), seq_nth by lia. reflexivity.
Qed.

(** A product with a diagonal matrix on the left, and on the right *)
Lemma total_diag_l (d f : nat -> R) (i n : nat) :
  i < n ->
  total (map (fun l => (if i =? l then d i else 0) * f l)%R (seq 0 n))
  = (d i * f i)%R.
Proof.
  intros Hi.
  rewrite (total_single _ i).
  - rewrite Nat.eqb_refl. reflexivity.
  - lia.
  - intros l Hl. destruct (Nat.eqb_spec i l); [congruence | lra].
Qed.

Lemma total_diag_r (d f : nat -> R) (j n : nat) :
  j < n ->
  total (map (fun l => f l * (if l =? j then d l else 0))%R (seq 0 n))
  = (f j * d j)%R.
Proof.
  intros Hj.
  rewrite (total_single _ j).
  - rewrite Nat.eqb_refl. reflexivity.
  - lia.
  - intros l Hl. destruct (Nat.eqb_spec l j); [congruence | lra].
Qed.

Lemma total_ext_in {A : Type} (f g : A -> R) (l : list A) :
  (forall x, In x l -> f x = g x) -> total (map f l) = total (map g l).
Proof. intros H. rewrite (map_ext_in f g l H). reflexivity. Qed.

(** [I - D * W * D] for a diagonal [D] with diagonal [d] *)
Lemma laplacian_entries (n : nat) (d : nat -> R) (W D : matrix) :
  np.shape W = (n, n) ->
  np.shape D = (n, n) ->
  (forall i j, i < n -> j < n ->
     np.item D i j = if i =? j then d i else 0%R) ->
  exists L : matrix,
    laplacian n W D = Ok L
    /\ np.shape L = (n, n)
    /\ forall i j, i < n -> j < n ->
         np.item L i j
         = ((if i =? j then 1 else 0) - d i * np.item W i j * d j)%R.
Proof.
  intros HW HD Hitem.
  unfold laplacian, sparse.mul, np.dot, sparse.sub, sparse.identity.
  unfold np.rows, np.cols. simpl. rewrite HW, HD. simpl.
  rewrite Nat.eqb_refl. simpl. rewrite Nat.eqb_refl. simpl.
  rewrite shape_eqb_refl.
  eexists. split; [reflexivity |]. simpl. split; [reflexivity |].
  intros i j Hi Hj. f_equal.
  transitivity
    (total (map (fun l => (d i * np.item W i l)
                          * (if l =? j then d l else 0))%R (seq 0 n))).
  - apply total_ext_in. intros l Hl. apply in_seq in Hl.
    rewrite (Hitem l j) by lia. f_equal.
    rewrite <- (total_diag_l d (fun l0 => np.item W l0 l) i n Hi).
    apply total_ext_in. intros l0 Hl0. apply in_seq in Hl0.
    rewrite (Hitem i l0) by lia. reflexivity.
  - apply (total_diag_r d (fun l => (d i * np.item W i l)%R) j n Hj).
Qed.

(** C1. For a square [W] with a zero diagonal (as the symmetrization cell
    asserts) whose vertices all have a positive degree, the degree being
    the column sum, the two Laplacian cells succeed; [D] is the diagonal
    matrix of the [1 / sqrt(degree)], hence the positive inverse square
    root of the degree matrix, and [L] is the symmetric normalized
    Laplacian [I - D^{-1/2} W D^{-1/2}]. *)
Theorem laplacian_is_normalized (n : nat) (W : matrix) :
  np.shape W = (n, n) ->
  (forall i, i < n -> np.item W i i = 0%R) ->
  (forall i, i < n -> (0 < degree W i)%R) ->
  exists D L : matrix,
    degree_matrix W = Ok D
    /\ laplacian n W D = Ok L
    /\ np.shape D = (n, n)
    /\ np.shape L = (n, n)
    /\ (forall i j, i < n -> j < n ->
          np.item D i j = if i =? j then (1 / sqrt (degree W i))%R else 0%R)
    /\ (forall i, i < n ->
          (0 < np.item D i i)%R
          /\ (np.item D i i * np.item D i i * degree W i = 1)%R)
    /\ (forall i j, i < n -> j < n ->
          np.item L i j = normalized_laplacian_spec W i j).
Proof.
  intros HW Hdiag Hdeg.
  assert (Hrows : np.rows W = n) by (unfold np.rows; rewrite HW; reflexivity).
  assert (Hcols : np.cols W = n) by (unfold np.cols; rewrite HW; reflexivity).
  assert (Hn : n <> 1).
  { intros ->. specialize (Hdeg 0 ltac:(lia)). unfold degree in Hdeg.
    rewrite Hrows in Hdeg. simpl in Hdeg. rewrite Hdiag in Hdeg by lia. lra. }
  assert (Hsqrt : forall i, i < n -> (0 < sqrt (degree W i))%R).
  { intros i Hi. apply sqrt_lt_R0, Hdeg, Hi. }
  unfold degree_matrix, np.squeeze.
  replace (np.rows _ =? 1) with true by reflexivity.
  replace (np.cols _) with n by (symmetry; exact Hcols).
  destruct (Nat.eqb_spec n 1) as [| _]; [contradiction |].
  unfold sparse.diags. rewrite length_map, length_seq.
  match goal with |- exists D L, Ok ?D0 = Ok D /\ _ => set (D := D0) end.
  assert (HD : forall i j, i < n -> j < n ->
            np.item D i j = if i =? j then (1 / sqrt (degree W i))%R else 0%R).
  { intros i j Hi Hj. unfold D. simpl.
    rewrite nth_map_seq by exact Hi. reflexivity. }
  destruct (laplacian_entries n (fun i => 1 / sqrt (degree W i))%R W D
              HW eq_refl HD) as (L & HL & HLshape & HLitem).
  exists D, L.
  split; [reflexivity |].
  split; [exact HL |].
  split; [reflexivity |].
  split; [exact HLshape |].
  split; [exact HD |].
  split.
  - intros i Hi. rewrite (HD i i Hi Hi), Nat.eqb_refl.
    pose proof (Hsqrt i Hi) as Hs. split.
    + apply Rdiv_lt_0_compat; [lra | exact Hs].
    + rewrite <- (sqrt_sqrt (degree W i)) at 3 by (left; apply Hdeg, Hi).
      field. lra.
  - intros i j Hi Hj. rewrite (HLitem i j Hi Hj).
    unfold normalized_laplacian_spec.
    rewrite sqrt_mult by (left; apply Hdeg; assumption).
    pose proof (Hsqrt i Hi). pose proof (Hsqrt j Hj).
    field. split; lra.
Qed.

Lemma laplacian_is_normalized_witness :
  let W := np.mk_ndarray (2, 2) (fun i j => if i =? j then 0%R else 1%R) in
  exists D L : matrix,
    degree_matrix W = Ok D /\ laplacian 2 W D = Ok L
    /\ np.item L 0 1 = normalized_laplacian_spec W 0 1.
Proof.
  intros W.
  assert (Hdiag : forall i, i < 2 -> np.item W i i = 0%R).
  { intros i _. simpl. rewrite Nat.eqb_refl. reflexivity. }
  assert (Hdeg : forall i, i < 2 -> (0 < degree W i)%R).
  { intros i Hi. unfold degree. simpl.
    destruct i as [| [| i]]; simpl; [lra | lra | lia]. }
  destruct (laplacian_is_normalized 2 W eq_refl Hdiag Hdeg)
    as (D & L & HD & HL & _ & _ & _ & _ & Hitem).
  exists D, L. split; [exact HD |]. split; [exact HL |].
  apply Hitem; lia.
Defined.

(** ** The weight matrix of the KNN graph *)

Lemma total_app (l1 l2 : list R) : total (l1 ++ l2) = (total l1 + total l2)%R.
Proof. induction l1 as [| x l1 IH]; simpl; [lra | rewrite IH; lra]. Qed.

Lemma combine_app_eq {A B : Type} (l1 l2 : list A) (m1 m2 : list B) :
  length l1 = length m1 ->
  combine (l1 ++ l2) (m1 ++ m2) = combine l1 m1 ++ combine l2 m2.
Proof.
  revert m1. induction l1 as [| a l1 IH]; intros [| b m1] Hlen;
    simpl in *; try discriminate; [reflexivity |].
  rewrite IH by lia. reflexivity.
Qed.

Section coo_rows.

Variables (K : nat) (idx : np.ndarray nat) (w : matrix) (r c : nat).

Lemma coo_one_row (i b n : nat) :
  total (map (sparse.coo_term r c)
             (combine (repeat i n)
                (combine (map (np.item idx i) (seq b n))
                         (map (np.item w i) (seq b n)))))
  = if i =? r
    then total (map (fun k => if np.item idx r k =? c
                              then np.item w r k else 0%R) (seq b n))
    else 0%R.
Proof.
  revert b. induction n as [| n IH]; intros b; simpl.
  - destruct (i =? r); reflexivity.
  - rewrite IH. unfold sparse.coo_term. simpl.
    destruct (Nat.eqb_spec i r) as [-> | _]; simpl; [reflexivity | lra].
Qed.

Lemma coo_all_rows (a N : nat) :
  total (map (sparse.coo_term r c)
           (combine (flat_map (fun i => repeat i K) (seq a N))
              (combine
                 (flat_map (fun i => map (np.item idx i) (seq 0 K)) (seq a N))
                 (flat_map (fun i => map (np.item w i) (seq 0 K)) (seq a N)))))
  = if (a <=? r) && (r <? a + N) then joined_weight idx w K r c else 0%R.
Proof.
  unfold joined_weight.
  revert a. induction N as [| N IH]; intros a; simpl.
  - destruct (Nat.leb_spec a r), (Nat.ltb_spec r (a + 0)); simpl;
      try reflexivity; lia.
  - rewrite (combine_app_eq (map _ _)) by (rewrite !length_map; reflexivity).
    rewrite combine_app_eq
      by (rewrite repeat_length, length_combine, !length_map, length_seq; lia).
    rewrite map_app, total_app, coo_one_row, IH.
    destruct (Nat.eqb_spec a r), (Nat.leb_spec a r), (Nat.leb_spec (S a) r),
      (Nat.ltb_spec r (S a + N)), (Nat.ltb_spec r (a + S N)); simpl;
      try lra; lia.
Qed.

End coo_rows.

Lemma coo_matrix_Ok (v : list R) (i j : list nat) (M : matrix) :
  sparse.coo_matrix v i j = Ok M ->
  j <> []
  /\ M = {| np.shape := (S (list_max i), S (list_max j));
            np.item := fun r c =>
              total (map (sparse.coo_term r c) (combine i (combine j v))) |}.
Proof.
  unfold sparse.coo_matrix.
  destruct i as [| i0 i], j as [| j0 j]; try discriminate.
  destruct (_ && _); [| discriminate].
  intros [= <-]. split; [discriminate | reflexivity].
Qed.

Lemma flat_nil {A : Type} (a : np.ndarray A) :
  np.rows a = 0 \/ np.cols a = 0 -> np.flat a = [].
Proof.
  unfold np.flat. intros [-> | ->]; [reflexivity |].
  induction (seq 0 (np.rows a)) as [| x l IH]; simpl; [reflexivity | exact IH].
Qed.

Lemma in_flat {A : Type} (a : np.ndarray A) (i j : nat) :
  i < np.rows a -> j < np.cols a -> In (np.item a i j) (np.flat a).
Proof.
  intros Hi Hj. unfold np.flat. apply in_flat_map. exists i.
  split; [apply in_seq; lia |]. apply in_map, in_seq. lia.
Qed.

Lemma diagonal_zero (M : matrix) (N : nat) :
  np.shape M = (N, N) ->
  forallb (fun x => Reqb x 0) (sparse.diagonal M) = true ->
  forall r, r < N -> np.item M r r = 0%R.
Proof.
  intros HM Hall r Hr. rewrite forallb_forall in Hall.
  apply Reqb_true, Hall. unfold sparse.diagonal, np.rows, np.cols.
  rewrite HM. simpl. rewrite Nat.min_id.
  apply (in_map (fun i => np.item M i i)), in_seq. lia.
Qed.

Lemma total_term_le {A : Type} (g : A -> R) (l : list A) (a : A) :
  (forall x, In x l -> (0 <= g x)%R) -> In a l -> (g a <= total (map g l))%R.
Proof.
  induction l as [| x l IH]; intros Hg Ha; [contradiction |].
  simpl. assert (0 <= total (map g l))%R.
  { clear IH Ha. induction l as [| y l IHl]; simpl; [lra |].
    pose proof (Hg y (or_intror (or_introl eq_refl))).
    assert (0 <= total (map g l))%R; [| lra].
    apply IHl. intros z [-> | Hz]; apply Hg; [left | right; right]; trivial. }
  pose proof (Hg x (or_introl eq_refl)).
  destruct Ha as [-> | Ha]; [lra |].
  assert (g a <= total (map g l))%R; [| lra].
  apply IH; [| exact Ha]. intros z Hz. apply Hg. right. exact Hz.
Qed.

Lemma total_nonzero {A : Type} (g : A -> R) (l : list A) :
  total (map g l) <> 0%R -> exists x, In x l /\ g x <> 0%R.
Proof.
  induction l as [| a l IH]; simpl; intros Hne; [lra |].
  destruct (Req_dec_T (g a) 0) as [Hz | Hnz].
  - rewrite Hz, Rplus_0_l in Hne. destruct (IH Hne) as (x & Hx & Hgx).
    exists x. split; [right; exact Hx | exact Hgx].
  - exists a. split; [left; reflexivity | exact Hnz].
Qed.

Lemma convert_distance_shape (dm : pystr) (dist dist' : matrix) :
  convert_distance dm dist = Ok dist' -> np.shape dist' = np.shape dist.
Proof.
  unfold convert_distance.
  destruct (py_is dm _); [intros [= <-]; reflexivity |].
  destruct (py_is dm _); [intros [= <-]; reflexivity | discriminate].
Qed.

(** ** The output cell *)

(** A run that gets past the verification of the distance cell has at
    least 15 samples and 4 neighbors per sample, so that [m[0, 4]] of the
    output cell is within the [N] by [N] matrices [W] and [L]. *)
Lemma verification_bounds (dm : pystr) (tol : R) (X : matrix)
    (idx : np.ndarray nat) (dist : matrix) :
  verification dm tol X idx dist = Ok tt ->
  15 <= np.rows idx /\ 4 <= np.cols idx.
Proof.
  unfold verification. intros H.
  apply bind_Ok in H as (j & Hj & _).
  unfold np.getitem in Hj.
  destruct (Nat.ltb_spec 14 (np.rows idx)), (Nat.ltb_spec 3 (np.cols idx));
    simpl in Hj; try discriminate. lia.
Qed.

Section output.

Variables (K : nat) (dm : pystr) (Csigma : R).
Variables (globals : gmap string csr.t) (W L : csr.t) (N : nat).
Hypothesis HW : globals !! "W" = Some W.
Hypothesis HL : globals !! "L" = Some L.
Hypothesis HWshape : csr.shape W = (N, N).
Hypothesis HLshape : csr.shape L = (N, N).
Hypothesis HN : 5 <= N.

Lemma dump_runs :
  dump K dm Csigma globals {| attrs := ∅; datasets := ∅ |}
  = (graph_file_spec K dm Csigma W L, Ok tt).
Proof.
  assert (H4 : (0 <? N) && (4 <? N) = true).
  { destruct (Nat.ltb_spec 0 N), (Nat.ltb_spec 4 N); simpl; lia. }
  unfold dump, for_each, mbind, h5_bind, lift, lookup_global, csr.getitem.
  unfold set_attr. rewrite HW, HL, HWshape, HLshape. simpl fst. simpl snd.
  rewrite H4.
  vm_compute. reflexivity.
Qed.

Lemma output_data_runs (fs : filesystem) :
  output_data K dm Csigma globals fs
  = (<["data/graph.hdf5" := graph_file_spec K dm Csigma W L]> fs, Ok tt).
Proof.
  unfold output_data, os.remove.
  replace (os.path_join "data" "graph.hdf5") with "data/graph.hdf5"
    by reflexivity.
  destruct (fs !! "data/graph.hdf5") as [old |] eqn:Hold;
    rewrite dump_runs; [rewrite insert_delete_eq |]; reflexivity.
Qed.

End output.

(** C6. The output cell, reached with [W] and [L] of [N >= 5] rows and
    columns, leaves in data/graph.hdf5 the hyper-parameters [K], [dm] and
    [Csigma] as attributes and, for each of [W] and [L], the components
    data, indices, indptr and shape as datasets named after the matrix and
    the component; nothing else is in the file. *)
Theorem output_data_writes_graph (K : nat) (dm : pystr) (Csigma : R)
    (globals : gmap string csr.t) (W L : csr.t) (N : nat) (fs : filesystem) :
  globals !! "W" = Some W ->
  globals !! "L" = Some L ->
  csr.shape W = (N, N) ->
  csr.shape L = (N, N) ->
  5 <= N ->
  exists graph : h5file,
    snd (output_data K dm Csigma globals fs) = Ok tt
    /\ fst (output_data K dm Csigma globals fs) !! "data/graph.hdf5" = Some graph
    /\ graph = graph_file_spec K dm Csigma W L
    /\ attrs graph !! "K" = Some (h5_int K)
    /\ attrs graph !! "dm" = Some (h5_str (str_value dm))
    /\ attrs graph !! "Csigma" = Some (h5_float Csigma)
    /\ (forall (mat : string) (m : csr.t) (par : string),
          (mat, m) ∈ [("W", W); ("L", L)] ->
          par ∈ ["data"; "indices"; "indptr"; "shape"] ->
          exists arr : h5value,
            getattr m par = Ok arr
            /\ datasets graph !! (mat +:+ "_" +:+ par) = Some arr)
    /\ size (datasets graph) = 8
    /\ size (attrs graph) = 3.
Proof.
  intros HW HL HWs HLs HN.
  exists (graph_file_spec K dm Csigma W L).
  rewrite (output_data_runs K dm Csigma globals W L N HW HL HWs HLs HN).
  simpl fst. simpl snd.
  split; [reflexivity |].
  split; [apply lookup_insert_eq |].
  split; [reflexivity |].
  split; [reflexivity |].
  split; [reflexivity |].
  split; [reflexivity |].
  split; [| split; reflexivity].
  intros mat m par Hmat Hpar.
  repeat (apply elem_of_cons in Hmat as [[= -> ->] | Hmat]);
    [| | apply elem_of_nil in Hmat; contradiction];
    repeat (apply elem_of_cons in Hpar as [-> | Hpar]);
    try (apply elem_of_nil in Hpar; contradiction);
    (eexists; split; [reflexivity | reflexivity]).
Qed.

Lemma output_data_writes_graph_witness :
  let W := {| csr.data := [1%R]; csr.indices := [4];
              csr.indptr := [0; 1; 1; 1; 1; 1]; csr.shape := (5, 5) |} in
  let L := {| csr.data := []; csr.indices := [];
              csr.indptr := [0; 0; 0; 0; 0; 0]; csr.shape := (5, 5) |} in
  let globals : gmap string csr.t := {[ "W" := W; "L" := L ]} in
  exists graph : h5file,
    fst (output_data 10 (hand_set "cosine") 1 globals ∅) !! "data/graph.hdf5"
    = Some graph
    /\ datasets graph !! "W_indices" = Some (h5_ints [4]).
Proof.
  intros W L globals.
  assert (HW : globals !! "W" = Some W) by (vm_compute; reflexivity).
  assert (HL : globals !! "L" = Some L) by (vm_compute; reflexivity).
  destruct (output_data_writes_graph 10 (hand_set "cosine") 1 globals W L 5 ∅
              HW HL eq_refl eq_refl ltac:(lia))
    as (graph & _ & Hfile & Hspec & _).
  exists graph. split; [exact Hfile |]. rewrite Hspec. reflexivity.
Defined.







(** ** The dictionary-learning notebook *)

Lemma T_involutive {A : Type} (a : np.ndarray A) : np.T (np.T a) = a.
Proof. destruct a as [[r c] f]. reflexivity. Qed.

(** The products [A.T A] and [A A.T] are always defined. *)
Lemma dot_T_l (a : matrix) : exists m, np.dot (np.T a) a = Ok m.
Proof.
  unfold np.dot. replace (np.cols (np.T a)) with (np.rows a) by reflexivity.
  rewrite Nat.eqb_refl. eexists. reflexivity.
Qed.

Lemma dot_T_r (a : matrix) : exists m, np.dot a (np.T a) = Ok m.
Proof.
  unfold np.dot. replace (np.rows (np.T a)) with (np.cols a) by reflexivity.
  rewrite Nat.eqb_refl. eexists. reflexivity.
Qed.

Lemma for_range_snoc {S : Type} (l : list nat) (k : nat)
    (body : nat -> S -> result S) (s : S) :
  dictionary.for_range (l ++ [k]) body s
  = dictionary.for_range l body s ≫= body k.
Proof.
  revert s. induction l as [| x l IH]; intros s; simpl.
  - destruct (body k s); reflexivity.
  - destruct (body x s) as [s' | e]; simpl; [apply IH | reflexivity].
Qed.

(** ** Examples at the edges of the hypotheses *)

(** On its own, the output cell stops at [print m[0,4]] for matrices of
    fewer than 5 columns, leaving a file with the attributes only. *)
Example output_data_small :
  let W := {| csr.data := []; csr.indices := []; csr.indptr := [0; 0; 0];
              csr.shape := (2, 2) |} in
  let globals : gmap string csr.t := {[ "W" := W; "L" := W ]} in
  snd (output_data 1 (hand_set "cosine") 1 globals ∅) = Raise IndexError
  /\ datasets <$> fst (output_data 1 (hand_set "cosine") 1 globals ∅)
                    !! "data/graph.hdf5"
     = Some ∅.
Proof. intros W globals. split; vm_compute; reflexivity. Qed.

(** When a sample is kept among its own neighbors, the weight-matrix cell
    stops at its assertion on the diagonal. *)
Example weight_matrix_self_neighbor :
  let knnidx := np.mk_ndarray (2, 2) (fun i j => if j =? 0 then 1 - i else i) in
  let X : matrix := np.mk_ndarray (2, 3) (fun _ _ => 0%R) in
  let w : matrix := np.mk_ndarray (2, 1) (fun _ _ => 1%R) in
  weight_matrix 1 X (np.drop_first_column knnidx) w = Raise AssertionError.
Proof.
  intros knnidx X w. unfold weight_matrix.
  replace (np.rows X) with 2 by reflexivity.
  rewrite (py_list_indices 2 1) by lia.
  cbn -[total]. unfold sparse.diagonal. cbn.
  unfold sparse.coo_term. cbn.
  match goal with |- context [Reqb ?x 0] =>
    assert (Hx : Reqb x 0 = false)
  end.
  { unfold Reqb. destruct (Req_dec_T _ _) as [Heq | _]; [lra | reflexivity]. }
  rewrite Hx. reflexivity.
Qed.

(* ================================================================= *)
(** * Further properties of the code *)

(** ** The iterator outside [N >= 1], [K >= 1] *)

Lemma next_decreases (it it' : indices.t) (v : nat) :
  indices.next it = (it', Ok v) ->
  indices.remaining it' < indices.remaining it
  /\ indices.N it' = indices.N it /\ indices.K it' = indices.K it.
Proof.
  unfold indices.next, indices.remaining.
  destruct (Nat.ltb_spec (indices.K it) (indices.k it + 1));
    [destruct (Nat.leb_spec (indices.N it) (indices.n it + 1)) |];
    intros [= <- <-]; simpl; repeat split; nia.
Qed.

Lemma next_stops (it it' : indices.t) (e : exn) :
  indices.next it = (it', Raise e) ->
  it' = indices.__init__ (indices.N it) (indices.K it).
Proof.
  unfold indices.next.
  destruct (Nat.ltb_spec (indices.K it) (indices.k it + 1));
    [destruct (Nat.leb_spec (indices.N it) (indices.n it + 1)) |];
    intros [= <- <-]; reflexivity.
Qed.

(** X1. Whatever the state of the iterator, and whatever [N] and [K],
    exhausting it leaves it in its initial state [n = 0], [k = 0]. *)
Theorem py_list_resets (it : indices.t) :
  snd (py_list it) = indices.__init__ (indices.N it) (indices.K it).
Proof.
  remember (indices.remaining it) as m eqn:Hm. revert it Hm.
  induction m as [m IH] using lt_wf_ind. intros it Hm.
  rewrite py_list_step.
  destruct (indices.next it) as [it' [v | e]] eqn:Hnext.
  - destruct (next_decreases it it' v Hnext) as (Hlt & HN & HK).
    specialize (IH (indices.remaining it') ltac:(lia) it' eq_refl).
    destruct (py_list it') as [l it'']. simpl in *. congruence.
  - simpl. exact (next_stops it it' e Hnext).
Qed.

(** With [K = 0] every call moves to the next row. *)
Lemma py_list_K_zero (N : nat) :
  forall d n k, N - S n = d ->
    fst (py_list {| indices.N := N; indices.K := 0;
                    indices.n := n; indices.k := k |})
    = seq (S n) (N - S n).
Proof.
  induction d as [| d IH]; intros n k Hd; rewrite py_list_step;
    unfold indices.next; simpl;
    destruct (Nat.ltb_spec 0 (k + 1)); try lia;
    replace (n + 1) with (S n) by lia;
    destruct (Nat.leb_spec N (S n)) as [Hle | Hgt]; try lia.
  - rewrite Hd. reflexivity.
  - specialize (IH (S n) 1 ltac:(lia)).
    destruct (py_list _) as [l it'']. simpl in *. rewrite IH.
    replace (N - S n) with (S (N - S (S n))) by lia. reflexivity.
Qed.

(** In the last row, or past it, the current row index is repeated. *)
Lemma py_list_last_row (N K : nat) :
  forall d n k, K - k = d -> k <= K -> N <= S n ->
    fst (py_list {| indices.N := N; indices.K := K;
                    indices.n := n; indices.k := k |})
    = repeat n (K - k).
Proof.
  induction d as [| d IH]; intros n k Hd Hk Hn; rewrite py_list_step;
    unfold indices.next; simpl;
    destruct (Nat.ltb_spec K (k + 1)) as [Hlt | Hge]; try lia.
  - replace (n + 1) with (S n) by lia.
    destruct (Nat.leb_spec N (S n)); [| lia]. rewrite Hd. reflexivity.
  - specialize (IH n (k + 1) ltac:(lia) ltac:(lia) Hn).
    destruct (py_list _) as [l it'']. simpl in *. rewrite IH.
    replace (K - k) with (S (K - (k + 1))) by lia. reflexivity.
Qed.

(** X2. Without neighbors ([K = 0]) the iterator yields [1, ..., N-1], and
    without rows ([N = 0]) it yields [K] times the index 0, although
    [__len__] is 0 in both cases. *)
Theorem indices_degenerate (N K : nat) :
  fst (py_list (indices.__init__ N 0)) = seq 1 (N - 1)
  /\ indices.__len__ (indices.__init__ N 0) = 0
  /\ fst (py_list (indices.__init__ 0 K)) = repeat 0 K
  /\ indices.__len__ (indices.__init__ 0 K) = 0.
Proof.
  split; [| split; [| split]].
  - unfold indices.__init__. rewrite (py_list_K_zero N _ 0 0 eq_refl).
    reflexivity.
  - unfold indices.__len__. simpl. lia.
  - unfold indices.__init__.
    rewrite (py_list_last_row 0 K _ 0 0 eq_refl) by lia.
    rewrite Nat.sub_0_r. reflexivity.
  - reflexivity.
Qed.

(** ** When the weight-matrix cell succeeds, and how it fails *)

Lemma flat_length {A : Type} (a : np.ndarray A) :
  length (np.flat a) = np.rows a * np.cols a.
Proof.
  unfold np.flat.
  assert (H : forall r b,
    length (flat_map (fun i => map (np.item a i) (seq 0 (np.cols a)))
                     (seq b r)) = r * np.cols a).
  { induction r as [| r IH]; intros b; simpl; [reflexivity |].
    rewrite length_app, length_map, length_seq, IH. reflexivity. }
  apply H.
Qed.

Lemma in_flat_inv {A : Type} (a : np.ndarray A) (x : A) :
  In x (np.flat a) ->
  exists i j, i < np.rows a /\ j < np.cols a /\ x = np.item a i j.
Proof.
  unfold np.flat. intros H. apply in_flat_map in H as (i & Hi & H).
  apply in_map_iff in H as (j & <- & Hj). apply in_seq in Hi, Hj.
  exists i, j. repeat split; lia.
Qed.

Lemma list_max_In (l : list nat) (x : nat) : In x l -> x <= list_max l.
Proof.
  intros H. assert (Hle : list_max l <= list_max l) by lia.
  rewrite list_max_le, List.Forall_forall in Hle. exact (Hle x H).
Qed.

Lemma list_max_rows_repeated (N K : nat) :
  1 <= N -> 1 <= K -> list_max (rows_repeated N K) = N - 1.
Proof.
  intros HN HK. apply Nat.le_antisymm.
  - apply list_max_le, List.Forall_forall. intros x Hx.
    unfold rows_repeated in Hx. apply in_flat_map in Hx as (i & Hi & Hx).
    apply repeat_spec in Hx. apply in_seq in Hi. lia.
  - apply list_max_In. unfold rows_repeated. apply in_flat_map.
    exists (N - 1). split; [apply in_seq; lia |].
    destruct K; [lia | left; reflexivity].
Qed.

(** The cell on arrays of [N >= 1] rows and [K >= 1] columns: the matrix
    [coo_matrix] builds, followed by the two assertions. *)
Lemma weight_matrix_run (K N : nat) (X : matrix) (idx : np.ndarray nat)
    (w : matrix) :
  np.rows X = N -> np.shape idx = (N, K) -> np.shape w = (N, K) ->
  1 <= N -> 1 <= K ->
  exists W0 : matrix,
    np.shape W0 = (N, S (list_max (np.flat idx)))
    /\ (forall r c, r < N -> np.item W0 r c = joined_weight idx w K r c)
    /\ weight_matrix K X idx w
       = (assert (shape_eqb (np.shape W0) (N, N));;
          assert (forallb (fun x => Reqb x 0) (sparse.diagonal W0));;
          Ok W0).
Proof.
  intros HX Hidx Hw HN HK.
  assert (Hlen_i : length (rows_repeated N K) = N * K)
    by apply rows_from_length.
  assert (Hlen_j : length (np.flat idx) = N * K).
  { rewrite flat_length. unfold np.rows, np.cols. rewrite Hidx. reflexivity. }
  assert (Hlen_v : length (np.flat w) = N * K).
  { rewrite flat_length. unfold np.rows, np.cols. rewrite Hw. reflexivity. }
  assert (Hpos : 1 <= N * K) by nia.
  unfold weight_matrix. rewrite HX, (py_list_indices N K HN HK).
  cbn [fst]. unfold sparse.coo_matrix.
  destruct (rows_repeated N K) as [| i0 i] eqn:Hi; [simpl in Hlen_i; lia |].
  destruct (np.flat idx) as [| j0 j] eqn:Hj; [simpl in Hlen_j; lia |].
  rewrite Hlen_v, Hlen_i, Hlen_j, Nat.eqb_refl. cbn [andb].
  rewrite <- Hi, <- Hj.
  eexists. split; [| split; [| reflexivity]].
  - cbn [np.shape]. rewrite list_max_rows_repeated by assumption.
    f_equal. lia.
  - intros r c Hr. cbn [np.item]. unfold rows_repeated, np.flat.
    unfold np.rows, np.cols. rewrite Hidx, Hw.
    etransitivity; [exact (coo_all_rows K idx w r c 0 N) |]. simpl.
    destruct (Nat.ltb_spec r N); [reflexivity | lia].
Qed.

(** X3. The weight-matrix cell succeeds as soon as every neighbor index is
    below [N], the last sample [N-1] is a neighbor of some sample, and no
    sample is among its own neighbors. *)
Theorem weight_matrix_succeeds (K N : nat) (X : matrix)
    (idx : np.ndarray nat) (w : matrix) :
  np.rows X = N -> np.shape idx = (N, K) -> np.shape w = (N, K) ->
  (forall r k, r < N -> k < K -> np.item idx r k < N) ->
  (exists r k, r < N /\ k < K /\ np.item idx r k = N - 1) ->
  (forall r k, r < N -> k < K -> np.item idx r k <> r) ->
  exists W : matrix,
    weight_matrix K X idx w = Ok W
    /\ np.shape W = (N, N)
    /\ forall r c, r < N -> np.item W r c = joined_weight idx w K r c.
Proof.
  intros HX Hidx Hw Hlt (r0 & k0 & Hr0 & Hk0 & Hlast) Hself.
  destruct (weight_matrix_run K N X idx w HX Hidx Hw ltac:(lia) ltac:(lia))
    as (W0 & Hshape & Hitem & Hrun).
  assert (Hmax : list_max (np.flat idx) = N - 1).
  { apply Nat.le_antisymm.
    - apply list_max_le, List.Forall_forall. intros x Hx.
      apply in_flat_inv in Hx as (i & j & Hi & Hj & ->).
      unfold np.rows, np.cols in Hi, Hj. rewrite Hidx in Hi, Hj. simpl in Hi, Hj.
      specialize (Hlt i j Hi Hj). lia.
    - rewrite <- Hlast. apply list_max_In, in_flat;
        unfold np.rows, np.cols; rewrite Hidx; assumption. }
  assert (HW0 : np.shape W0 = (N, N)).
  { rewrite Hshape, Hmax. f_equal. lia. }
  exists W0. split; [| split; assumption].
  rewrite Hrun. apply assert_then_Ok.
  split; [apply shape_eqb_eq; exact HW0 |].
  apply assert_then_Ok. split; [| reflexivity].
  apply forallb_forall. intros x Hx. apply Reqb_true.
  unfold sparse.diagonal, np.rows, np.cols in Hx. rewrite HW0 in Hx.
  simpl in Hx. rewrite Nat.min_id in Hx.
  apply in_map_iff in Hx as (r & <- & Hr). apply in_seq in Hr.
  rewrite Hitem by lia. unfold joined_weight. apply total_zero.
  intros k Hk. apply in_seq in Hk.
  destruct (Nat.eqb_spec (np.item idx r k) r) as [Heq | _]; [| reflexivity].
  exfalso. apply (Hself r k); [lia | lia | exact Heq].
Qed.

Lemma weight_matrix_succeeds_witness :
  let X : matrix := np.mk_ndarray (2, 3) (fun _ _ => 0%R) in
  let idx := np.mk_ndarray (2, 1) (fun i _ => 1 - i) in
  let w : matrix := np.mk_ndarray (2, 1) (fun _ _ => 1%R) in
  exists W : matrix, weight_matrix 1 X idx w = Ok W /\ np.shape W = (2, 2).
Proof.
  intros X idx w.
  assert (Hlt : forall r k, r < 2 -> k < 1 -> np.item idx r k < 2)
    by (intros r k Hr Hk; simpl; lia).
  assert (Hlast : exists r k, r < 2 /\ k < 1 /\ np.item idx r k = 2 - 1)
    by (exists 0, 0; simpl; lia).
  assert (Hself : forall r k, r < 2 -> k < 1 -> np.item idx r k <> r)
    by (intros r k Hr Hk; simpl; lia).
  destruct (weight_matrix_succeeds 1 2 X idx w eq_refl eq_refl eq_refl
              Hlt Hlast Hself) as (W & HW & Hshape & _).
  exists W. split; assumption.
Defined.

(** X4. Without samples or without neighbors there is no index to infer
    the shape from: the cell raises [ValueError]. *)
Theorem weight_matrix_empty (K : nat) (X : matrix) (idx : np.ndarray nat)
    (w : matrix) :
  np.rows idx = 0 \/ np.cols idx = 0 ->
  weight_matrix K X idx w = Raise ValueError.
Proof.
  intros Hempty. unfold weight_matrix, sparse.coo_matrix.
  rewrite (flat_nil idx Hempty).
  destruct (fst (py_list _)); reflexivity.
Qed.

Lemma weight_matrix_empty_witness :
  weight_matrix 0 (np.mk_ndarray (3, 2) (fun _ _ => 0%R))
    (np.mk_ndarray (3, 0) (fun _ _ => 0)) (np.mk_ndarray (3, 0) (fun _ _ => 0%R))
  = Raise ValueError.
Proof.
  apply weight_matrix_empty. right. reflexivity.
Defined.

(** X5. The shape is inferred from the largest indices: when the largest
    neighbor index is not [N-1], for want of a sample that has the last
    one as a neighbor, or by an index out of range, the assertion on the
    shape fails. *)
Theorem weight_matrix_largest_index (K N : nat) (X : matrix)
    (idx : np.ndarray nat) (w : matrix) :
  np.rows X = N -> np.shape idx = (N, K) -> np.shape w = (N, K) ->
  1 <= N -> 1 <= K ->
  list_max (np.flat idx) <> N - 1 ->
  weight_matrix K X idx w = Raise AssertionError.
Proof.
  intros HX Hidx Hw HN HK Hmax.
  destruct (weight_matrix_run K N X idx w HX Hidx Hw HN HK)
    as (W0 & Hshape & _ & Hrun).
  rewrite Hrun.
  destruct (shape_eqb (np.shape W0) (N, N)) eqn:Heq; [| reflexivity].
  apply shape_eqb_eq in Heq. rewrite Hshape in Heq.
  injection Heq as Heq. lia.
Qed.

Lemma weight_matrix_largest_index_witness :
  weight_matrix 1 (np.mk_ndarray (3, 2) (fun _ _ => 0%R))
    (np.mk_ndarray (3, 1) (fun i _ => if i =? 0 then 1 else 0))
    (np.mk_ndarray (3, 1) (fun _ _ => 1%R))
  = Raise AssertionError.
Proof.
  apply (weight_matrix_largest_index 1 3); try reflexivity; try lia.
  vm_compute. lia.
Defined.

(** X6. When the shape is right but some sample is among its own
    neighbors, with positive weights, the assertion on the diagonal
    fails. *)
Theorem weight_matrix_self_loop (K N : nat) (X : matrix)
    (idx : np.ndarray nat) (w : matrix) :
  np.rows X = N -> np.shape idx = (N, K) -> np.shape w = (N, K) ->
  list_max (np.flat idx) = N - 1 ->
  (forall r k, r < N -> k < K -> (0 < np.item w r k)%R) ->
  (exists r k, r < N /\ k < K /\ np.item idx r k = r) ->
  weight_matrix K X idx w = Raise AssertionError.
Proof.
  intros HX Hidx Hw Hmax Hpos (r & k & Hr & Hk & Hself).
  destruct (weight_matrix_run K N X idx w HX Hidx Hw ltac:(lia) ltac:(lia))
    as (W0 & Hshape & Hitem & Hrun).
  assert (HW0 : np.shape W0 = (N, N)).
  { rewrite Hshape, Hmax. f_equal. lia. }
  rewrite Hrun, HW0, shape_eqb_refl. cbn [assert mbind result_bind].
  destruct (forallb _ _) eqn:Hall; [| reflexivity]. exfalso.
  pose proof (diagonal_zero W0 N HW0 Hall r Hr) as Hzero.
  rewrite Hitem in Hzero by exact Hr. unfold joined_weight in Hzero.
  pose proof (total_term_le
    (fun k0 => if np.item idx r k0 =? r then np.item w r k0 else 0%R)
    (seq 0 K) k) as Hle.
  simpl in Hle. rewrite Hself, Nat.eqb_refl in Hle.
  pose proof (Hpos r k Hr Hk) as Hrk.
  assert (np.item w r k <= 0)%R; [| lra].
  rewrite <- Hzero. apply Hle.
  - intros x Hx. apply in_seq in Hx.
    destruct (_ =? _); [left; apply Hpos; lia | lra].
  - apply in_seq. lia.
Qed.

Lemma weight_matrix_self_loop_witness :
  weight_matrix 1 (np.mk_ndarray (2, 3) (fun _ _ => 0%R))
    (np.mk_ndarray (2, 1) (fun i _ => i))
    (np.mk_ndarray (2, 1) (fun _ _ => 1%R))
  = Raise AssertionError.
Proof.
  apply (weight_matrix_self_loop 1 2); try reflexivity.
  - intros r k _ _. simpl. lra.
  - exists 0, 0. simpl. lia.
Defined.

(** ** Symmetrization as an operation on graphs *)

(** X7. Symmetrizing leaves a symmetric matrix as it is, and symmetrizing
    twice is symmetrizing once. *)
Theorem symmetrize_idempotent (N : nat) (W : matrix) :
  np.shape W = (N, N) ->
  exists W' W'' : matrix,
    symmetrize W = Ok W'
    /\ symmetrize W' = Ok W''
    /\ (forall i j, i < N -> j < N -> np.item W'' i j = np.item W' i j)
    /\ ((forall i j, i < N -> j < N -> np.item W i j = np.item W j i) ->
        forall i j, i < N -> j < N -> np.item W' i j = np.item W i j).
Proof.
  intros HW.
  destruct (symmetrize_square N W HW) as (W' & Hsym & Hshape & Hitem).
  destruct (symmetrize_square N W' Hshape) as (W'' & Hsym' & _ & Hitem').
  exists W', W''. split; [exact Hsym |]. split; [exact Hsym' |]. split.
  - intros i j _ _. rewrite Hitem', !Hitem.
    rewrite (Rmax_comm (np.item W j i)). apply Rmax_left. lra.
  - intros Hs i j Hi Hj. rewrite Hitem, <- (Hs i j Hi Hj).
    apply Rmax_left. lra.
Qed.

Lemma symmetrize_idempotent_witness :
  exists W' W'' : matrix,
    symmetrize (np.mk_ndarray (2, 2) (fun i j => INR (i + 2 * j))) = Ok W'
    /\ symmetrize W' = Ok W''.
Proof.
  destruct (symmetrize_idempotent 2
              (np.mk_ndarray (2, 2) (fun i j => INR (i + 2 * j))) eq_refl)
    as (W' & W'' & H1 & H2 & _).
  exists W', W''. split; assumption.
Defined.

(** X8. On weights that are not negative, symmetrizing never lowers a
    weight, and the result joins [i] and [j] exactly when [W] joined [i]
    to [j] or [j] to [i]. *)
Theorem symmetrize_edges (N : nat) (W : matrix) :
  np.shape W = (N, N) ->
  (forall i j, i < N -> j < N -> (0 <= np.item W i j)%R) ->
  exists W' : matrix,
    symmetrize W = Ok W'
    /\ forall i j, i < N -> j < N ->
         (np.item W i j <= np.item W' i j)%R
         /\ ((0 < np.item W' i j)%R
             <-> (0 < np.item W i j)%R \/ (0 < np.item W j i)%R)
         /\ (np.item W' i j = 0%R
             <-> np.item W i j = 0%R /\ np.item W j i = 0%R).
Proof.
  intros HW Hpos.
  destruct (symmetrize_square N W HW) as (W' & Hsym & _ & Hitem).
  exists W'. split; [exact Hsym |].
  intros i j Hi Hj. rewrite Hitem.
  pose proof (Hpos i j Hi Hj). pose proof (Hpos j i Hj Hi).
  unfold Rmax. destruct (Rle_dec (np.item W i j) (np.item W j i));
    repeat split; intros; try lra;
    match goal with Hor : _ \/ _ |- _ => destruct Hor; lra end.
Qed.

Lemma symmetrize_edges_witness :
  exists W' : matrix,
    symmetrize (np.mk_ndarray (2, 2) (fun i j => INR (i + 2 * j))) = Ok W'
    /\ (np.item W' 0 1 = 0%R <-> INR (0 + 2 * 1) = 0%R /\ INR (1 + 2 * 0) = 0%R).
Proof.
  destruct (symmetrize_edges 2
              (np.mk_ndarray (2, 2) (fun i j => INR (i + 2 * j))) eq_refl
              (fun i j _ _ => pos_INR (i + 2 * j)))
    as (W' & H1 & H2).
  exists W'. split; [exact H1 |].
  exact (proj2 (proj2 (H2 0 1 ltac:(lia) ltac:(lia)))).
Defined.

Lemma symmetrize_not_square_witness :
  symmetrize (np.mk_ndarray (2, 3) (fun _ _ => 0%R)) = Raise ValueError.
Proof.
  apply symmetrize_not_square. unfold np.rows, np.cols. simpl. lia.
Defined.

(** ** The Laplacian of an undirected graph *)

Lemma degree_matrix_diag (n : nat) (W : matrix) :
  np.shape W = (n, n) -> n <> 1 ->
  exists D : matrix,
    degree_matrix W = Ok D
    /\ np.shape D = (n, n)
    /\ forall i j, i < n -> j < n ->
         np.item D i j = if i =? j then (1 / sqrt (degree W i))%R else 0%R.
Proof.
  intros HW Hn.
  assert (Hcols : np.cols W = n) by (unfold np.cols; rewrite HW; reflexivity).
  unfold degree_matrix, np.squeeze.
  replace (np.rows _ =? 1) with true by reflexivity.
  replace (np.cols _) with n by (symmetry; exact Hcols).
  destruct (Nat.eqb_spec n 1) as [| _]; [contradiction |].
  unfold sparse.diags. rewrite length_map, length_seq.
  eexists. split; [reflexivity |]. split; [reflexivity |].
  intros i j Hi Hj. simpl. rewrite nth_map_seq by exact Hi. reflexivity.
Qed.

Lemma total_minus {A : Type} (f g : A -> R) (l : list A) :
  total (map (fun x => f x - g x)%R l)
  = (total (map f l) - total (map g l))%R.
Proof. induction l as [| a l IH]; simpl; [lra | rewrite IH; lra]. Qed.

Lemma total_scale {A : Type} (c : R) (f : A -> R) (l : list A) :
  total (map (fun x => c * f x)%R l) = (c * total (map f l))%R.
Proof. induction l as [| a l IH]; simpl; [lra | rewrite IH; lra]. Qed.

(** The two Laplacian cells on a graph with no isolated vertex *)
Lemma laplacian_cells (n : nat) (W : matrix) :
  np.shape W = (n, n) ->
  (forall i, i < n -> np.item W i i = 0%R) ->
  (forall i, i < n -> (0 < degree W i)%R) ->
  exists D L : matrix,
    degree_matrix W = Ok D
    /\ laplacian n W D = Ok L
    /\ forall i j, i < n -> j < n ->
         np.item L i j
         = ((if i =? j then 1 else 0)
            - 1 / sqrt (degree W i) * np.item W i j * (1 / sqrt (degree W j)))%R.
Proof.
  intros HW Hdiag Hdeg.
  assert (Hn : n <> 1).
  { intros ->. specialize (Hdeg 0 ltac:(lia)). unfold degree in Hdeg.
    unfold np.rows in Hdeg. rewrite HW in Hdeg. simpl in Hdeg.
    rewrite Hdiag in Hdeg by lia. lra. }
  destruct (degree_matrix_diag n W HW Hn) as (D & HD & HDshape & HDitem).
  destruct (laplacian_entries n (fun i => 1 / sqrt (degree W i))%R W D
              HW HDshape HDitem) as (L & HL & _ & HLitem).
  exists D, L. split; [exact HD |]. split; [exact HL | exact HLitem].
Qed.

(** X9. For an undirected graph (symmetric weights that are not negative,
    zero diagonal, no isolated vertex) the matrix [L] is symmetric, has
    ones on its diagonal, and its other entries lie between -1 and 0. *)
Theorem laplacian_symmetric_bounded (n : nat) (W : matrix) :
  np.shape W = (n, n) ->
  (forall i, i < n -> np.item W i i = 0%R) ->
  (forall i, i < n -> (0 < degree W i)%R) ->
  (forall i j, i < n -> j < n -> np.item W i j = np.item W j i) ->
  (forall i j, i < n -> j < n -> (0 <= np.item W i j)%R) ->
  exists D L : matrix,
    degree_matrix W = Ok D
    /\ laplacian n W D = Ok L
    /\ forall i j, i < n -> j < n ->
         np.item L i j = np.item L j i
         /\ np.item L i i = 1%R
         /\ (i <> j -> (-1 <= np.item L i j <= 0)%R).
Proof.
  intros HW Hdiag Hdeg Hsym Hpos.
  destruct (laplacian_cells n W HW Hdiag Hdeg) as (D & L & HD & HL & Hitem).
  exists D, L. split; [exact HD |]. split; [exact HL |].
  intros i j Hi Hj.
  assert (Hsi : (0 < sqrt (degree W i))%R) by (apply sqrt_lt_R0, Hdeg, Hi).
  assert (Hsj : (0 < sqrt (degree W j))%R) by (apply sqrt_lt_R0, Hdeg, Hj).
  split; [| split].
  - rewrite (Hitem i j Hi Hj), (Hitem j i Hj Hi), (Hsym i j Hi Hj).
    rewrite (Nat.eqb_sym j i). lra.
  - rewrite (Hitem i i Hi Hi), Nat.eqb_refl, (Hdiag i Hi). lra.
  - intros Hne. rewrite (Hitem i j Hi Hj).
    destruct (Nat.eqb_spec i j) as [| _]; [contradiction |].
    pose proof (Hpos i j Hi Hj) as Hw.
    assert (Hcol : forall a b, a < n -> b < n ->
              (np.item W a b <= degree W b)%R).
    { intros a b Ha Hb. unfold degree, np.rows. rewrite HW. simpl.
      apply (total_term_le (fun r => np.item W r b) (seq 0 n) a).
      - intros x Hx. apply in_seq in Hx. apply Hpos; lia.
      - apply in_seq. lia. }
    assert (Hle : (np.item W i j <= sqrt (degree W i) * sqrt (degree W j))%R).
    { rewrite <- sqrt_mult by (left; apply Hdeg; assumption).
      rewrite <- (sqrt_square (np.item W i j)) at 1 by exact Hw.
      apply sqrt_le_1_alt.
      pose proof (Hcol i j Hi Hj). pose proof (Hcol j i Hj Hi) as Hji.
      rewrite <- (Hsym i j Hi Hj) in Hji.
      apply Rmult_le_compat; assumption. }
    assert (Hq : (1 / sqrt (degree W i) * np.item W i j
                  * (1 / sqrt (degree W j))
                  = np.item W i j
                    / (sqrt (degree W i) * sqrt (degree W j)))%R)
      by (field; split; lra).
    rewrite Hq.
    assert (Hprod : (0 < sqrt (degree W i) * sqrt (degree W j))%R)
      by (apply Rmult_lt_0_compat; assumption).
    split.
    + assert (np.item W i j / (sqrt (degree W i) * sqrt (degree W j)) <= 1)%R;
        [| lra].
      apply (Rmult_le_reg_r (sqrt (degree W i) * sqrt (degree W j)));
        [exact Hprod |].
      unfold Rdiv. rewrite Rmult_assoc, Rinv_l by lra. lra.
    + assert (0 <= np.item W i j / (sqrt (degree W i) * sqrt (degree W j)))%R;
        [| lra].
      apply Rmult_le_pos; [exact Hw |]. left. apply Rinv_0_lt_compat, Hprod.
Qed.

(** X10. For such a graph the vector of the square roots of the degrees
    is in the kernel of [L]: row by row,
    [sum_j L[i,j] * sqrt(degree j) = 0]. *)
Theorem laplacian_kernel (n : nat) (W : matrix) :
  np.shape W = (n, n) ->
  (forall i, i < n -> np.item W i i = 0%R) ->
  (forall i, i < n -> (0 < degree W i)%R) ->
  (forall i j, i < n -> j < n -> np.item W i j = np.item W j i) ->
  exists D L : matrix,
    degree_matrix W = Ok D
    /\ laplacian n W D = Ok L
    /\ forall i, i < n ->
         total (map (fun j => np.item L i j * sqrt (degree W j))%R (seq 0 n))
         = 0%R.
Proof.
  intros HW Hdiag Hdeg Hsym.
  destruct (laplacian_cells n W HW Hdiag Hdeg) as (D & L & HD & HL & Hitem).
  exists D, L. split; [exact HD |]. split; [exact HL |].
  intros i Hi.
  assert (Hsi : (0 < sqrt (degree W i))%R) by (apply sqrt_lt_R0, Hdeg, Hi).
  transitivity
    (total (map (fun j => (if i =? j then 1 else 0) * sqrt (degree W j)
                          - 1 / sqrt (degree W i) * np.item W i j)%R
                (seq 0 n))).
  { apply total_ext_in. intros j Hj. apply in_seq in Hj.
    rewrite (Hitem i j Hi) by lia.
    assert (0 < sqrt (degree W j))%R by (apply sqrt_lt_R0, Hdeg; lia).
    field. split; lra. }
  rewrite total_minus, total_scale.
  rewrite (total_diag_l (fun _ => 1%R) (fun j => sqrt (degree W j)) i n Hi).
  assert (Hrow : total (map (np.item W i) (seq 0 n)) = degree W i).
  { unfold degree, np.rows. rewrite HW. simpl. apply total_ext_in.
    intros j Hj. apply in_seq in Hj. apply Hsym; lia. }
  rewrite Hrow.
  rewrite <- (sqrt_sqrt (degree W i)) at 3 by (left; apply Hdeg, Hi).
  field. lra.
Qed.

Lemma laplacian_symmetric_bounded_witness :
  let W := np.mk_ndarray (2, 2) (fun i j => if i =? j then 0%R else 1%R) in
  exists D L : matrix,
    degree_matrix W = Ok D /\ laplacian 2 W D = Ok L
    /\ (-1 <= np.item L 0 1 <= 0)%R.
Proof.
  intros W.
  assert (Hdiag : forall i, i < 2 -> np.item W i i = 0%R).
  { intros i _. simpl. rewrite Nat.eqb_refl. reflexivity. }
  assert (Hdeg : forall i, i < 2 -> (0 < degree W i)%R).
  { intros i Hi. unfold degree. simpl.
    destruct i as [| [| i]]; simpl; [lra | lra | lia]. }
  assert (Hsym : forall i j, i < 2 -> j < 2 -> np.item W i j = np.item W j i).
  { intros i j _ _. simpl. rewrite (Nat.eqb_sym j i). reflexivity. }
  assert (Hpos : forall i j, i < 2 -> j < 2 -> (0 <= np.item W i j)%R).
  { intros i j _ _. simpl. destruct (i =? j); lra. }
  destruct (laplacian_symmetric_bounded 2 W eq_refl Hdiag Hdeg Hsym Hpos)
    as (D & L & HD & HL & Hitem).
  exists D, L. split; [exact HD |]. split; [exact HL |].
  apply (Hitem 0 1); lia.
Defined.

Lemma laplacian_kernel_witness :
  let W := np.mk_ndarray (2, 2) (fun i j => if i =? j then 0%R else 1%R) in
  exists D L : matrix,
    degree_matrix W = Ok D /\ laplacian 2 W D = Ok L
    /\ total (map (fun j => np.item L 0 j * sqrt (degree W j))%R (seq 0 2))
       = 0%R.
Proof.
  intros W.
  assert (Hdiag : forall i, i < 2 -> np.item W i i = 0%R).
  { intros i _. simpl. rewrite Nat.eqb_refl. reflexivity. }
  assert (Hdeg : forall i, i < 2 -> (0 < degree W i)%R).
  { intros i Hi. unfold degree. simpl.
    destruct i as [| [| i]]; simpl; [lra | lra | lia]. }
  assert (Hsym : forall i j, i < 2 -> j < 2 -> np.item W i j = np.item W j i).
  { intros i j _ _. simpl. rewrite (Nat.eqb_sym j i). reflexivity. }
  destruct (laplacian_kernel 2 W eq_refl Hdiag Hdeg Hsym)
    as (D & L & HD & HL & Hker).
  exists D, L. split; [exact HD |]. split; [exact HL |].
  apply Hker. lia.
Defined.

(** ** Edge weights *)

Lemma Rleb_true (x y : R) : (x <= y)%R -> Rleb x y = true.
Proof. intros H. unfold Rleb. destruct (Rle_dec x y); [reflexivity | lra]. Qed.

Lemma Rleb_false (x y : R) : (y < x)%R -> Rleb x y = false.
Proof. intros H. unfold Rleb. destruct (Rle_dec x y); [lra | reflexivity]. Qed.

Lemma Rltb_false (x y : R) : (y <= x)%R -> Rltb x y = false.
Proof. intros H. unfold Rltb. destruct (Rlt_dec x y); [lra | reflexivity]. Qed.

Lemma Reqb_false (x y : R) : x <> y -> Reqb x y = false.
Proof.
  intros H. unfold Reqb. destruct (Req_dec_T x y); [contradiction | reflexivity].
Qed.

Lemma Reqb_refl (x : R) : Reqb x x = true.
Proof. apply Reqb_true. reflexivity. Qed.

Lemma one_below_huge : (1 < float64.huge)%R.
Proof.
  unfold float64.huge.
  assert (H : forall n, (1 <= 2 ^ n)%R).
  { induction n as [| n IH]; simpl; lra. }
  assert (H53 : (0 < (/ 2) ^ 53 <= / 2)%R).
  { replace 53 with (S 52) by reflexivity. 
    assert (Hn : forall n, (0 < (/ 2) ^ n <= 1)%R).
    { induction n as [| n [IH1 IH2]]; simpl; [lra |]. split; nra. }
    simpl. destruct (Hn 52). split; nra. }
  pose proof (H 1023). nra.
Qed.

(** The exponential of what is not positive, as float64 *)
Lemma exp_nonpositive (m : R) :
  (0 <= m)%R ->
  float64.exp (float64.number true m)
  = float64.number false
      (if Rleb (exp (- m)) float64.tiny then 0 else exp (- m)).
Proof.
  intros Hm. unfold float64.exp.
  destruct (Rleb (exp (- m)) float64.tiny); [reflexivity |].
  rewrite Rleb_false; [reflexivity |].
  apply Rle_lt_trans with 1%R; [| apply one_below_huge].
  rewrite <- exp_0. destruct Hm as [Hm | <-].
  - left. apply exp_increasing. lra.
  - rewrite Ropp_0. lra.
Qed.

Lemma of_R_positive (x : R) :
  (0 <= x)%R -> float64.of_R x = float64.number false x.
Proof.
  intros Hx. unfold float64.of_R.
  rewrite Rltb_false by exact Hx. rewrite Rabs_pos_eq by exact Hx. reflexivity.
Qed.

Lemma of_R_mul (a b : R) :
  (0 < a * b)%R ->
  float64.mul (float64.of_R a) (float64.of_R b) = float64.of_R (a * b).
Proof.
  intros Hab. unfold float64.mul, float64.of_R. rewrite Rabs_mult.
  f_equal. unfold Rltb.
  destruct (Rlt_dec a 0), (Rlt_dec b 0), (Rlt_dec (a * b) 0);
    simpl; try reflexivity; nra.
Qed.

(** [2^-1075 = exp(-1075 ln 2)] *)
Lemma tiny_exp : float64.tiny = exp (- (1075 * ln 2)).
Proof.
  unfold float64.tiny.
  replace 1075%R with (INR 1075) by (rewrite INR_IZR_INZ; reflexivity).
  rewrite exp_Ropp. fold (Rpower 2 (INR 1075)).
  rewrite Rpower_pow by lra. rewrite pow_inv. reflexivity.
Qed.

Lemma underflow_threshold (t : R) :
  (exp (- t) <= float64.tiny)%R <-> (1075 * ln 2 <= t)%R.
Proof.
  rewrite tiny_exp. split; intros H.
  - destruct (Rle_dec (1075 * ln 2) t) as [Hle | Hgt]; [exact Hle |].
    assert (exp (- (1075 * ln 2)) < exp (- t))%R by (apply exp_increasing; lra).
    lra.
  - destruct H as [H | <-]; [| lra]. left. apply exp_increasing. lra.
Qed.

Lemma min_max_Ok {A : Type} (a : np.ndarray A) :
  np.rows a * np.cols a <> 0 -> np.min_max a = Ok tt.
Proof.
  intros H. unfold np.min_max.
  destruct (Nat.eqb_spec (np.rows a) 0) as [Hr | _]; [rewrite Hr in H; lia |].
  destruct (Nat.eqb_spec (np.cols a) 0) as [Hc | _]; [rewrite Hc in H; lia |].
  reflexivity.
Qed.

(** The cell raises for an array without entries only. *)
Lemma edge_weights_runs (Csigma : R) (dist : matrix) :
  (np.rows dist * np.cols dist <> 0 ->
   edge_weights Csigma dist
   = Ok (np.elementwise
           (fun x => float64.exp
              (float64.div (float64.neg (float64.of_R x))
                 (float64.mul (float64.of_R Csigma)
                    (float64.of_R (np.mean dist)))))
           dist))
  /\ (np.rows dist * np.cols dist = 0 ->
      edge_weights Csigma dist = Raise ValueError).
Proof.
  unfold edge_weights. split; intros H.
  - destruct (Nat.eqb_spec (np.rows dist * np.cols dist) 0) as [| _];
      [contradiction |].
    rewrite min_max_Ok by exact H. reflexivity.
  - match goal with |- np.min_max ?a ≫= _ = _ =>
      assert (Hw : np.min_max a = Raise ValueError); [| rewrite Hw; reflexivity]
    end.
    unfold np.min_max.
    match goal with |- context [np.rows ?a =? 0] =>
      change (np.rows a) with (np.rows dist);
      change (np.cols a) with (np.cols dist)
    end.
    apply Nat.eq_mul_0 in H as [-> | ->]; [reflexivity |].
    rewrite orb_true_r. reflexivity.
Qed.

(** X11. With a positive [sigma], the weight of a distance that is not
    negative is a number of [0, 1]. It is zero, by underflow, exactly when
    the distance is at least [1075 ln 2], about 745, times [sigma], and it
    is [exp(-d/sigma)] otherwise; a larger distance never gets the larger
    weight. *)
Theorem edge_weights_range (Csigma : R) (dist : matrix) :
  np.rows dist * np.cols dist <> 0 ->
  (0 < Csigma * np.mean dist)%R ->
  let sigma := (Csigma * np.mean dist)%R in
  exists w : np.ndarray float64.t,
    edge_weights Csigma dist = Ok w
    /\ np.shape w = np.shape dist
    /\ (forall i j, (0 <= np.item dist i j)%R ->
          exists x : R,
            np.item w i j = float64.number false x
            /\ (0 <= x <= 1)%R
            /\ (x = 0%R <-> (1075 * ln 2 <= np.item dist i j / sigma)%R)
            /\ (x <> 0%R -> x = exp (- (np.item dist i j / sigma))))
    /\ (forall i j i' j' x x',
          (0 <= np.item dist i j <= np.item dist i' j')%R ->
          np.item w i j = float64.number false x ->
          np.item w i' j' = float64.number false x' ->
          (x' <= x)%R).
Proof.
  intros Hsize Hsigma sigma.
  assert (Hs : (0 < sigma)%R) by exact Hsigma.
  assert (Hinv : (0 < / sigma)%R) by (apply Rinv_0_lt_compat; exact Hsigma).
  assert (Hitem : forall d : R, (0 <= d)%R ->
    float64.exp
      (float64.div (float64.neg (float64.of_R d))
         (float64.mul (float64.of_R Csigma) (float64.of_R (np.mean dist))))
    = float64.number false
        (if Rleb (exp (- (d / sigma))) float64.tiny then 0
         else exp (- (d / sigma)))).
  { intros d Hd. rewrite of_R_mul by exact Hsigma. fold sigma.
    rewrite (of_R_positive d Hd), (of_R_positive sigma) by lra.
    unfold float64.neg, float64.div. simpl negb.
    rewrite Reqb_false by lra. simpl xorb.
    apply exp_nonpositive. unfold Rdiv. nra. }
  assert (Hquot : forall d : R, (0 <= d)%R -> (0 <= d / sigma)%R).
  { intros d Hd. unfold Rdiv. nra. }
  eexists. split; [exact (proj1 (edge_weights_runs Csigma dist) Hsize) |].
  split; [reflexivity |].
  cbn [np.item np.elementwise]. split.
  -
    intros i j Hd. eexists. split; [apply Hitem; exact Hd |].
      pose proof (exp_pos (- (np.item dist i j / sigma))) as Hpos.
      assert (Hle : (exp (- (np.item dist i j / sigma)) <= 1)%R).
      { rewrite <- exp_0. pose proof (Hquot _ Hd) as [Hq | Hq].
        - left. apply exp_increasing. lra.
        - rewrite <- Hq, Ropp_0. lra. }
      rewrite <- underflow_threshold. unfold Rleb.
      destruct (Rle_dec _ float64.tiny) as [Hu | Hu].
      * split; [lra |]. split; [tauto |]. intros Hx. contradiction Hx.
        reflexivity.
      * split; [lra |]. split; [| reflexivity]. split; [lra | tauto].
  - intros i j i' j' x x' [Hd Hdd] Hx Hx'.
      rewrite Hitem in Hx, Hx' by lra.
      injection Hx as <-. injection Hx' as <-.
      assert (Hmono : (exp (- (np.item dist i' j' / sigma))
                       <= exp (- (np.item dist i j / sigma)))%R).
      { destruct Hdd as [Hlt | ->]; [| lra]. left. apply exp_increasing.
        unfold Rdiv. nra. }
      pose proof (exp_pos (- (np.item dist i j / sigma))).
      unfold Rleb.
      destruct (Rle_dec (exp (- (np.item dist i' j' / sigma))) float64.tiny),
        (Rle_dec (exp (- (np.item dist i j / sigma))) float64.tiny); lra.
Qed.

Lemma edge_weights_range_witness :
  let dist : matrix := np.mk_ndarray (1, 1) (fun _ _ => 1%R) in
  exists w : np.ndarray float64.t,
    edge_weights 1 dist = Ok w /\ np.shape w = (1, 1).
Proof.
  intros dist.
  assert (Hsigma : (0 < 1 * np.mean dist)%R).
  { unfold np.mean, np.flat. simpl. lra. }
  destruct (edge_weights_range 1 dist ltac:(simpl; lia) Hsigma)
    as (w & Hw & Hshape & _).
  exists w. split; [exact Hw | exact Hshape].
Defined.

(** X26. Without a spread the cell gives no weights: when every distance is
    zero, [sigma] is zero and every weight is nan, and when [Csigma] is zero
    the weight of a positive distance is zero. Nothing is raised. *)
Theorem edge_weights_zero_sigma (Csigma : R) (dist : matrix) :
  np.rows dist * np.cols dist <> 0 ->
  (Csigma * np.mean dist = 0)%R ->
  exists w : np.ndarray float64.t,
    edge_weights Csigma dist = Ok w
    /\ (forall i j, np.item dist i j = 0%R -> np.item w i j = float64.nan)
    /\ (forall i j, Csigma = 0%R -> (0 <= np.mean dist)%R ->
          (0 < np.item dist i j)%R ->
          np.item w i j = float64.number false 0).
Proof.
  intros Hsize Hsigma.
  eexists. split; [exact (proj1 (edge_weights_runs Csigma dist) Hsize) |].
  split.
  - intros i j Hd. simpl. rewrite Hd.
    unfold float64.of_R, float64.mul, float64.neg, float64.div.
    rewrite <- Rabs_mult, Hsigma, !Rabs_R0, !Reqb_refl. reflexivity.
  - intros i j HC Hmean Hd. simpl. subst Csigma.
    unfold float64.of_R, float64.mul, float64.neg, float64.div.
    rewrite Rabs_R0, Rmult_0_l, Reqb_refl.
    rewrite (Reqb_false (Rabs (np.item dist i j))) by (rewrite Rabs_pos_eq; lra).
    rewrite !Rltb_false by lra. reflexivity.
Qed.

Lemma edge_weights_zero_sigma_witness :
  let dist : matrix := np.mk_ndarray (1, 1) (fun _ _ => 0%R) in
  exists w : np.ndarray float64.t,
    edge_weights 1 dist = Ok w /\ np.item w 0 0 = float64.nan.
Proof.
  intros dist.
  assert (Hsigma : (1 * np.mean dist = 0)%R).
  { unfold np.mean, np.flat. simpl. lra. }
  destruct (edge_weights_zero_sigma 1 dist ltac:(simpl; lia) Hsigma)
    as (w & Hw & Hnan & _).
  exists w. split; [exact Hw | apply Hnan; reflexivity].
Defined.

(** ** The verification of the distance cell *)

Lemma getitem_Ok {A : Type} (a : np.ndarray A) (i j : nat) :
  i < np.rows a -> j < np.cols a -> np.getitem a i j = Ok (np.item a i j).
Proof.
  intros Hi Hj. unfold np.getitem.
  destruct (Nat.ltb_spec i (np.rows a)), (Nat.ltb_spec j (np.cols a));
    try lia. reflexivity.
Qed.

Lemma getrow_Ok {A : Type} (a : np.ndarray A) (i : nat) :
  i < np.rows a ->
  np.getrow a i = Ok (map (np.item a i) (seq 0 (np.cols a))).
Proof.
  intros Hi. unfold np.getrow.
  destruct (Nat.ltb_spec i (np.rows a)); [reflexivity | lia].
Qed.

Lemma Rltb_true (x y : R) : (x < y)%R -> Rltb x y = true.
Proof. intros H. unfold Rltb. destruct (Rlt_dec x y); [reflexivity | lra]. Qed.

Lemma combine_map_same {A B C : Type} (f : A -> B) (g : A -> C) (l : list A) :
  combine (map f l) (map g l) = map (fun x => (f x, g x)) l.
Proof. induction l as [| a l IH]; simpl; [| rewrite IH]; reflexivity. Qed.

(** [sum (a - b)^2 = sum a^2 + sum b^2 - 2 sum a b] *)
Lemma total_square_difference {A : Type} (a b : A -> R) (l : list A) :
  total (map (fun c => (a c - b c) * (a c - b c))%R l)
  = (total (map (fun c => a c * a c)%R l)
     + total (map (fun c => b c * b c)%R l)
     - 2 * total (map (fun c => a c * b c)%R l))%R.
Proof. induction l as [| c l IH]; simpl; [| rewrite IH]; ring. Qed.

Lemma norm_one (v : list R) :
  np.norm v = 1%R -> total (map (fun x => x * x)%R v) = 1%R.
Proof.
  unfold np.norm. intros H.
  destruct (Rle_dec 0 (total (map (fun x => (x * x)%R) v))) as [Hpos | Hneg].
  - rewrite <- (sqrt_sqrt _ Hpos), H. lra.
  - rewrite sqrt_neg_0 in H by lra. lra.
Qed.

Section verification_passes.

Variables (tol : R) (X : matrix) (idx : np.ndarray nat) (dist : matrix).

(** The entry the cell checks: sample 14 and its neighbor of column 3 *)
Let j := np.item idx 14 3.

Hypothesis Htol : (0 < tol)%R.
Hypothesis Hrows : 14 < np.rows idx.
Hypothesis Hcols : 3 < np.cols idx.
Hypothesis Hshape : np.shape dist = np.shape idx.
Hypothesis HXi : 14 < np.rows X.
Hypothesis HXj : j < np.rows X.
(** The search returned the squared Euclidean distance of the two samples. *)
Hypothesis Hsquared :
  np.item dist 14 3
  = total (map (fun c => (np.item X 14 c - np.item X j c)
                         * (np.item X 14 c - np.item X j c))%R
               (seq 0 (np.cols X))).

(** X12. With [dm = 'euclidean'], the verification accepts the square
    root of the squared Euclidean distance the search returned. *)
Theorem verification_euclidean :
  distance_metric (hand_set "euclidean") tol X idx dist
  = Ok (np.elementwise sqrt dist).
Proof.
  assert (Hr : 14 < np.rows dist) by (unfold np.rows; rewrite Hshape; exact Hrows).
  assert (Hc : 3 < np.cols dist) by (unfold np.cols; rewrite Hshape; exact Hcols).
  unfold distance_metric.
  replace (convert_distance (hand_set "euclidean") dist)
    with (Ok (np.elementwise sqrt dist)) by reflexivity.
  cbn [mbind result_bind].
  replace (np.min_max (np.elementwise sqrt dist)) with (Ok tt).
  2:{ unfold np.min_max.
      replace (np.rows (np.elementwise sqrt dist)) with (np.rows dist)
        by reflexivity.
      replace (np.cols (np.elementwise sqrt dist)) with (np.cols dist)
        by reflexivity.
      destruct (np.rows dist); [lia |]. destruct (np.cols dist); [lia |].
      reflexivity. }
  cbn [mbind result_bind].
  replace (verification (hand_set "euclidean") tol X idx
             (np.elementwise sqrt dist)) with (Ok tt); [reflexivity |].
  unfold verification.
  replace (py_is (hand_set "euclidean") (literal distance_cell "euclidean"))
    with true by reflexivity.
  rewrite (getitem_Ok idx 14 3 Hrows Hcols). cbn [mbind result_bind].
  fold j. rewrite (getrow_Ok X 14 HXi). cbn [mbind result_bind].
  rewrite (getrow_Ok X j HXj). cbn [mbind result_bind].
  rewrite (getitem_Ok (np.elementwise sqrt dist) 14 3 Hr Hc).
  cbn [mbind result_bind].
  symmetry. apply assert_Ok, Rltb_true.
  unfold np.norm. rewrite combine_map_same, !map_map. cbn [fst snd np.item
    np.elementwise]. rewrite Hsquared, Rminus_diag, Rabs_R0. exact Htol.
Qed.

(** On the unit sphere *)
Hypothesis Hnorm_i : np.norm (map (np.item X 14) (seq 0 (np.cols X))) = 1%R.
Hypothesis Hnorm_j : np.norm (map (np.item X j) (seq 0 (np.cols X))) = 1%R.

(** X13. With [dm = 'cosine'] and the two samples on the unit sphere, the
    verification accepts half the squared Euclidean distance: it is the
    cosine distance [1 - <x_i, x_j>]. *)
Theorem verification_cosine :
  distance_metric (hand_set "cosine") tol X idx dist
  = Ok (np.elementwise (fun x => x / 2)%R dist)
  /\ (np.item dist 14 3 / 2
      = 1 - total (map (fun c => np.item X 14 c * np.item X j c)
                       (seq 0 (np.cols X))))%R.
Proof.
  assert (Hr : 14 < np.rows dist) by (unfold np.rows; rewrite Hshape; exact Hrows).
  assert (Hc : 3 < np.cols dist) by (unfold np.cols; rewrite Hshape; exact Hcols).
  pose proof (norm_one _ Hnorm_i) as Hi1. pose proof (norm_one _ Hnorm_j) as Hj1.
  rewrite map_map in Hi1, Hj1.
  assert (Hcos : (np.item dist 14 3 / 2
      = 1 - total (map (fun c => np.item X 14 c * np.item X j c)
                       (seq 0 (np.cols X))))%R).
  { rewrite Hsquared, total_square_difference, Hi1, Hj1. lra. }
  split; [| exact Hcos].
  unfold distance_metric.
  replace (convert_distance (hand_set "cosine") dist)
    with (Ok (np.elementwise (fun x => x / 2)%R dist)) by reflexivity.
  cbn [mbind result_bind].
  set (dist' := np.elementwise (fun x => (x / 2)%R) dist).
  replace (np.min_max dist') with (Ok tt).
  2:{ unfold np.min_max.
      replace (np.rows dist') with (np.rows dist) by reflexivity.
      replace (np.cols dist') with (np.cols dist) by reflexivity.
      destruct (np.rows dist); [lia |]. destruct (np.cols dist); [lia |].
      reflexivity. }
  cbn [mbind result_bind].
  replace (verification (hand_set "cosine") tol X idx dist') with (Ok tt);
    [reflexivity |].
  unfold verification.
  replace (py_is (hand_set "cosine") (literal distance_cell "euclidean"))
    with false by reflexivity.
  replace (py_is (hand_set "cosine") (literal distance_cell "cosine"))
    with true by reflexivity.
  rewrite (getitem_Ok idx 14 3 Hrows Hcols). cbn [mbind result_bind].
  fold j. rewrite (getrow_Ok X 14 HXi). cbn [mbind result_bind].
  rewrite Hnorm_i, Rminus_diag, (Rltb_true 0 tol Htol).
  cbn [mbind result_bind assert].
  rewrite (getrow_Ok X j HXj). cbn [mbind result_bind].
  rewrite Hnorm_j, Rminus_diag, (Rltb_true 0 tol Htol).
  cbn [mbind result_bind assert].
  rewrite (getitem_Ok dist' 14 3 Hr Hc). cbn [mbind result_bind].
  symmetry. apply assert_Ok, Rltb_true.
  rewrite combine_map_same, map_map. cbn [fst snd]. unfold dist'.
  cbn [np.item np.elementwise]. rewrite Hcos, Rminus_diag, Rabs_R0.
  exact Htol.
Qed.

End verification_passes.

Lemma verification_euclidean_witness :
  let X : matrix := np.mk_ndarray (15, 1) (fun _ _ => 0%R) in
  let idx := np.mk_ndarray (15, 4) (fun _ _ => 0) in
  let dist : matrix := np.mk_ndarray (15, 4) (fun _ _ => 0%R) in
  distance_metric (hand_set "euclidean") 1 X idx dist
  = Ok (np.elementwise sqrt dist).
Proof.
  intros X idx dist.
  apply (verification_euclidean 1 X idx dist);
    try reflexivity; try (unfold np.rows, np.cols; simpl; lia); try lra.
  simpl. ring.
Defined.

Lemma verification_cosine_witness :
  let X : matrix := np.mk_ndarray (15, 1) (fun _ _ => 1%R) in
  let idx := np.mk_ndarray (15, 4) (fun _ _ => 0) in
  let dist : matrix := np.mk_ndarray (15, 4) (fun _ _ => 0%R) in
  distance_metric (hand_set "cosine") 1 X idx dist
  = Ok (np.elementwise (fun x => x / 2)%R dist).
Proof.
  intros X idx dist.
  assert (Hnorm : np.norm (map (np.item X 14) (seq 0 (np.cols X))) = 1%R).
  { unfold np.norm. simpl. replace (1 * 1 + 0)%R with 1%R by ring.
    apply sqrt_1. }
  refine (proj1 (verification_cosine 1 X idx dist _ _ _ _ _ _ _ Hnorm Hnorm));
    try reflexivity; try (unfold np.rows, np.cols; simpl; lia); try lra.
  simpl. ring.
Defined.

(** ** The input cell *)

Lemma fold_min_spec (g : nat -> R) (init : R) (l : list nat) :
  let m := fold_right (fun i acc => Rmin (g i) acc) init l in
  (m <= init)%R /\ (forall i, In i l -> (m <= g i)%R)
  /\ (m = init \/ exists i, In i l /\ m = g i).
Proof.
  induction l as [| a l (Hinit & Hall & Hatt)]; simpl.
  - split; [lra |]. split; [contradiction | left; reflexivity].
  - set (m := fold_right (fun i acc => Rmin (g i) acc) init l) in *.
    pose proof (Rmin_l (g a) m). pose proof (Rmin_r (g a) m).
    split; [lra |]. split.
    + intros i [<- | Hi]; [assumption |]. specialize (Hall i Hi). lra.
    + unfold Rmin. destruct (Rle_dec (g a) m).
      * right. exists a. split; [left |]; reflexivity.
      * destruct Hatt as [-> | (i & Hi & ->)]; [left; reflexivity |].
        right. exists i. split; [right; exact Hi | reflexivity].
Qed.

Lemma fold_max_spec (g : nat -> R) (init : R) (l : list nat) :
  let m := fold_right (fun i acc => Rmax (g i) acc) init l in
  (init <= m)%R /\ (forall i, In i l -> (g i <= m)%R)
  /\ (m = init \/ exists i, In i l /\ m = g i).
Proof.
  induction l as [| a l (Hinit & Hall & Hatt)]; simpl.
  - split; [lra |]. split; [contradiction | left; reflexivity].
  - set (m := fold_right (fun i acc => Rmax (g i) acc) init l) in *.
    pose proof (Rmax_l (g a) m). pose proof (Rmax_r (g a) m).
    split; [lra |]. split.
    + intros i [<- | Hi]; [assumption |]. specialize (Hall i Hi). lra.
    + unfold Rmax. destruct (Rle_dec (g a) m).
      * destruct Hatt as [-> | (i & Hi & ->)]; [left; reflexivity |].
        right. exists i. split; [right; exact Hi | reflexivity].
      * right. exists a. split; [left |]; reflexivity.
Qed.

(** The minimum and the maximum of [g 0, ..., g (r-1)] *)
Lemma column_min_spec (g : nat -> R) (r : nat) :
  1 <= r ->
  let m := fold_right (fun i acc => Rmin (g i) acc) (g 0) (seq 1 (r - 1)) in
  (forall i, i < r -> (m <= g i)%R) /\ (exists i, i < r /\ m = g i).
Proof.
  intros Hr m. destruct (fold_min_spec g (g 0) (seq 1 (r - 1)))
    as (Hinit & Hall & Hatt). fold m in Hinit, Hall, Hatt. split.
  - intros [| i] Hi; [exact Hinit |]. apply Hall, in_seq. lia.
  - destruct Hatt as [-> | (i & Hi & ->)].
    + exists 0. split; [lia | reflexivity].
    + apply in_seq in Hi. exists i. split; [lia | reflexivity].
Qed.

Lemma column_max_spec (g : nat -> R) (r : nat) :
  1 <= r ->
  let m := fold_right (fun i acc => Rmax (g i) acc) (g 0) (seq 1 (r - 1)) in
  (forall i, i < r -> (g i <= m)%R) /\ (exists i, i < r /\ m = g i).
Proof.
  intros Hr m. destruct (fold_max_spec g (g 0) (seq 1 (r - 1)))
    as (Hinit & Hall & Hatt). fold m in Hinit, Hall, Hatt. split.
  - intros [| i] Hi; [exact Hinit |]. apply Hall, in_seq. lia.
  - destruct Hatt as [-> | (i & Hi & ->)].
    + exists 0. split; [lia | reflexivity].
    + apply in_seq in Hi. exists i. split; [lia | reflexivity].
Qed.

Lemma each_column_rows (op : R -> R -> R) (X : matrix) (v : list R) :
  np.rows (each_column op X v) = np.rows X
  /\ np.cols (each_column op X v) = np.cols X.
Proof. split; reflexivity. Qed.

Lemma rescale_columns (X : matrix) :
  (np.rows X = 0 -> rescale X = Raise ValueError)
  /\ (1 <= np.rows X ->
      (forall c, c < np.cols X ->
         exists i i', i < np.rows X /\ i' < np.rows X
                      /\ (np.item X i c < np.item X i' c)%R) ->
      exists X' : matrix,
        rescale X = Ok X'
        /\ np.shape X' = np.shape X
        /\ forall c, c < np.cols X ->
             (forall i, i < np.rows X -> (0 <= np.item X' i c <= 1)%R)
             /\ (exists i, i < np.rows X /\ np.item X' i c = 0%R)
             /\ (exists i, i < np.rows X /\ np.item X' i c = 1%R)).
Proof.
  split.
  - intros Hr. unfold rescale, reduce_axis0. rewrite Hr. reflexivity.
  - intros Hr Hvar. unfold rescale, reduce_axis0.
    destruct (Nat.eqb_spec (np.rows X) 0) as [| _]; [lia |].
    cbn [mbind result_bind].
    rewrite (proj1 (each_column_rows _ _ _)), (proj2 (each_column_rows _ _ _)).
    destruct (Nat.eqb_spec (np.rows X) 0) as [| _]; [lia |].
    cbn [mbind result_bind].
    eexists. split; [reflexivity |]. split; [reflexivity |].
    intros c Hc. cbn [np.item each_column].
    repeat (rewrite nth_map_seq by exact Hc; cbn beta).
    set (lo := fold_right (fun i acc => Rmin (np.item X i c) acc)
                 (np.item X 0 c) (seq 1 (np.rows X - 1))).
    destruct (column_min_spec (fun i => np.item X i c) (np.rows X) Hr)
      as (Hlo & ilo & Hilo & Hloatt). fold lo in Hlo, Hloatt.
    match goal with |- context [Rdiv _ ?h] => set (hi := h) end.
    destruct (column_max_spec (fun i => (np.item X i c - lo)%R) (np.rows X) Hr)
      as (Hhi & ihi & Hihi & Hhiatt).
    change (fold_right _ _ _) with hi in Hhi, Hhiatt.
    assert (Hpos : (0 < hi)%R).
    { destruct (Hvar c Hc) as (i & i' & Hi & Hi' & Hlt).
      pose proof (Hlo i Hi). pose proof (Hhi i' Hi'). simpl in *. lra. }
    split; [| split].
    + intros i Hi. pose proof (Hlo i Hi). pose proof (Hhi i Hi). simpl in *.
      split.
      * apply Rmult_le_pos; [lra |]. left. apply Rinv_0_lt_compat, Hpos.
      * apply (Rmult_le_reg_r hi); [exact Hpos |].
        unfold Rdiv. rewrite Rmult_assoc, Rinv_l by lra. lra.
    + exists ilo. split; [exact Hilo |]. rewrite <- Hloatt.
      unfold Rdiv. ring.
    + exists ihi. split; [exact Hihi |]. simpl in Hhiatt. rewrite <- Hhiatt.
      field. lra.
Qed.

(** X14. Without rows the rescaling raises [ValueError]. With rows, and no
    constant column, it brings every column onto [0, 1], with the values 0
    and 1 both taken. *)
Theorem rescale_range (X : matrix) :
  (np.rows X = 0 -> rescale X = Raise ValueError)
  /\ (1 <= np.rows X ->
      (forall c, c < np.cols X ->
         exists i i', i < np.rows X /\ i' < np.rows X
                      /\ (np.item X i c < np.item X i' c)%R) ->
      exists X' : matrix,
        rescale X = Ok X'
        /\ np.shape X' = np.shape X
        /\ forall c, c < np.cols X ->
             (forall i, i < np.rows X -> (0 <= np.item X' i c <= 1)%R)
             /\ (exists i, i < np.rows X /\ np.item X' i c = 0%R)
             /\ (exists i, i < np.rows X /\ np.item X' i c = 1%R)).
Proof. exact (rescale_columns X). Qed.

Lemma rescale_range_witness :
  let X : matrix := np.mk_ndarray (2, 1) (fun i _ => INR (3 + i)) in
  exists X' : matrix,
    rescale X = Ok X'
    /\ (forall i, i < 2 -> (0 <= np.item X' i 0 <= 1)%R).
Proof.
  intros X.
  assert (Hvar : forall c, c < np.cols X ->
            exists i i', i < np.rows X /\ i' < np.rows X
                         /\ (np.item X i c < np.item X i' c)%R).
  { intros c _. exists 0, 1. unfold np.rows. simpl. repeat split; try lia. lra. }
  destruct (proj2 (rescale_range X) ltac:(unfold np.rows; simpl; lia) Hvar)
    as (X' & HX' & _ & Hcol).
  exists X'. split; [exact HX' |].
  exact (proj1 (Hcol 0 ltac:(unfold np.cols; simpl; lia))).
Defined.

Lemma total_nonneg {A : Type} (g : A -> R) (l : list A) :
  (forall x, In x l -> (0 <= g x)%R) -> (0 <= total (map g l))%R.
Proof.
  induction l as [| a l IH]; intros Hg; simpl; [lra |].
  pose proof (Hg a (or_introl eq_refl)).
  assert (0 <= total (map g l))%R; [| lra].
  apply IH. intros x Hx. apply Hg. right. exact Hx.
Qed.

(** A row divided by its Euclidean norm has norm 1, and entries that are
    at most 1 when they are positive. *)
Lemma normalized_row (y : nat -> R) (n : nat) :
  1 <= n -> (forall c, c < n -> (0 < y c)%R) ->
  let s := sqrt (total (map (fun c => y c * y c)%R (seq 0 n))) in
  (0 < s)%R
  /\ np.norm (map (fun c => y c / s)%R (seq 0 n)) = 1%R
  /\ forall c, c < n -> (0 < y c / s <= 1)%R.
Proof.
  intros Hn Hy s.
  set (S := total (map (fun c => (y c * y c)%R) (seq 0 n))) in *.
  assert (Hterm : forall c, c < n -> (y c * y c <= S)%R).
  { intros c Hc. apply (total_term_le (fun c => (y c * y c)%R) (seq 0 n) c).
    - intros x _. apply Rle_0_sqr.
    - apply in_seq. lia. }
  assert (HS : (0 < S)%R).
  { pose proof (Hterm 0 ltac:(lia)). pose proof (Hy 0 ltac:(lia)). nra. }
  assert (Hs : (0 < s)%R) by (apply sqrt_lt_R0, HS).
  assert (Hss : (s * s = S)%R) by (apply sqrt_sqrt; lra).
  split; [exact Hs |]. split.
  - unfold np.norm. rewrite map_map.
    replace (total (map (fun c => (y c / s * (y c / s))%R) (seq 0 n)))
      with (/ (s * s) * S)%R.
    + rewrite Hss, Rinv_l by lra. apply sqrt_1.
    + unfold S. rewrite <- total_scale. apply total_ext_in.
      intros c _. field. lra.
  - intros c Hc. pose proof (Hy c Hc). pose proof (Hterm c Hc). split.
    + apply Rdiv_lt_0_compat; assumption.
    + apply (Rmult_le_reg_r s); [exact Hs |].
      unfold Rdiv. rewrite Rmult_assoc, Rinv_l by lra. nra.
Qed.

Lemma unit_sphere_rows (tol : R) (X : matrix) :
  (0 < tol)%R ->
  1 <= np.rows X -> 1 <= np.cols X ->
  (forall i c, i < np.rows X -> c < np.cols X -> (0 <= np.item X i c)%R) ->
  (exists X' : matrix,
     unit_sphere (hand_set "cosine") tol X = Ok X'
     /\ np.shape X' = np.shape X
     /\ forall i, i < np.rows X ->
          np.norm (map (np.item X' i) (seq 0 (np.cols X'))) = 1%R
          /\ forall c, c < np.cols X -> (0 < np.item X' i c <= 1)%R)
  /\ forall s, String.eqb s "cosine" = false ->
       unit_sphere (hand_set s) tol X = Ok X.
Proof.
  intros Htol Hr Hc Hpos. split.
  - unfold unit_sphere.
    replace (py_is (hand_set "cosine") (literal input_cell "cosine"))
      with true by reflexivity.
    set (Y := np.elementwise (fun x => (x + 1 / 100000000000000000000)%R) X).
    set (norms := map _ (seq 0 (np.rows Y))).
    set (X' := each_row Rdiv Y norms).
    assert (HY : forall i c, i < np.rows X -> c < np.cols X ->
              (0 < np.item Y i c)%R).
    { intros i c Hi Hc'. unfold Y. simpl. specialize (Hpos i c Hi Hc'). lra. }
    assert (Hrow : forall i, i < np.rows X ->
      map (np.item X' i) (seq 0 (np.cols X'))
      = map (fun c => np.item Y i c
                      / sqrt (total (map (fun c => np.item Y i c * np.item Y i c)
                                         (seq 0 (np.cols X)))))%R
            (seq 0 (np.cols X))).
    { intros i Hi. apply map_ext. intros c. unfold X', norms. simpl.
      rewrite nth_map_seq by exact Hi. reflexivity. }
    assert (Hsphere : forall i, i < np.rows X ->
      np.norm (map (np.item X' i) (seq 0 (np.cols X'))) = 1%R
      /\ forall c, c < np.cols X -> (0 < np.item X' i c <= 1)%R).
    { intros i Hi.
      destruct (normalized_row (fun c => np.item Y i c) (np.cols X) Hc
                  (fun c Hc' => HY i c Hi Hc')) as (_ & Hnorm & Hent).
      split; [rewrite (Hrow i Hi); exact Hnorm |].
      intros c Hc'. unfold X', norms. simpl.
      rewrite nth_map_seq by exact Hi. apply (Hent c Hc'). }
    rewrite (getrow_Ok X' 0) by exact Hr. cbn [mbind result_bind].
    rewrite (proj1 (Hsphere 0 ltac:(lia))), Rminus_diag, (Rltb_true 0 tol Htol).
    cbn [mbind result_bind assert].
    exists X'. split; [reflexivity |]. split; [reflexivity | exact Hsphere].
  - intros s Hs. unfold unit_sphere.
    change (literal input_cell "cosine") with (literal distance_cell "cosine").
    rewrite hand_set_is by reflexivity. rewrite Hs. reflexivity.
Qed.

(** X15. With [dm = 'cosine'], samples without negative entries and with
    at least one column are put on the unit sphere: every row of the
    result has norm 1 and entries in (0, 1], and the assertion of the cell
    holds. With another [dm] the samples are left as they are. *)
Theorem unit_sphere_norm (tol : R) (X : matrix) :
  (0 < tol)%R ->
  1 <= np.rows X -> 1 <= np.cols X ->
  (forall i c, i < np.rows X -> c < np.cols X -> (0 <= np.item X i c)%R) ->
  (exists X' : matrix,
     unit_sphere (hand_set "cosine") tol X = Ok X'
     /\ np.shape X' = np.shape X
     /\ forall i, i < np.rows X ->
          np.norm (map (np.item X' i) (seq 0 (np.cols X'))) = 1%R
          /\ forall c, c < np.cols X -> (0 < np.item X' i c <= 1)%R)
  /\ forall s, String.eqb s "cosine" = false ->
       unit_sphere (hand_set s) tol X = Ok X.
Proof. exact (unit_sphere_rows tol X). Qed.

(** X16. The input cell with [dm = 'cosine'], on samples with at least one
    column and no constant column: the rescaling and the normalization
    succeed one after the other, and every sample ends on the unit
    sphere, with entries in (0, 1]. *)
Theorem input_data_cosine (tol : R) (X : matrix) :
  (0 < tol)%R ->
  1 <= np.rows X -> 1 <= np.cols X ->
  (forall c, c < np.cols X ->
     exists i i', i < np.rows X /\ i' < np.rows X
                  /\ (np.item X i c < np.item X i' c)%R) ->
  exists X' : matrix,
    input_data (hand_set "cosine") tol X = Ok X'
    /\ np.shape X' = np.shape X
    /\ forall i, i < np.rows X ->
         np.norm (map (np.item X' i) (seq 0 (np.cols X'))) = 1%R
         /\ forall c, c < np.cols X -> (0 < np.item X' i c <= 1)%R.
Proof.
  intros Htol Hr Hc Hvar.
  destruct (proj2 (rescale_columns X) Hr Hvar) as (X1 & HX1 & Hshape & Hcol).
  assert (Hrows : np.rows X1 = np.rows X)
    by (unfold np.rows; rewrite Hshape; reflexivity).
  assert (Hcols : np.cols X1 = np.cols X)
    by (unfold np.cols; rewrite Hshape; reflexivity).
  destruct (proj1 (unit_sphere_rows tol X1 Htol ltac:(lia) ltac:(lia)
      (fun i c Hi Hc' =>
         proj1 (proj1 (Hcol c ltac:(lia)) i ltac:(lia)))))
    as (X' & HX' & Hshape' & Hsphere).
  exists X'. unfold input_data. rewrite HX1. cbn [mbind result_bind].
  split; [exact HX' |]. split; [congruence |].
  intros i Hi. destruct (Hsphere i ltac:(lia)) as [Hnorm Hent].
  split; [exact Hnorm |]. intros c Hc'. apply Hent. lia.
Qed.

Lemma input_data_cosine_witness :
  let X : matrix := np.mk_ndarray (2, 1) (fun i _ => INR (3 + i)) in
  exists X' : matrix,
    input_data (hand_set "cosine") 1 X = Ok X'
    /\ np.norm (map (np.item X' 1) (seq 0 (np.cols X'))) = 1%R.
Proof.
  intros X.
  assert (Hvar : forall c, c < np.cols X ->
            exists i i', i < np.rows X /\ i' < np.rows X
                         /\ (np.item X i c < np.item X i' c)%R).
  { intros c _. exists 0, 1. unfold np.rows. simpl. repeat split; try lia. lra. }
  destruct (input_data_cosine 1 X ltac:(lra)
              ltac:(unfold np.rows; simpl; lia)
              ltac:(unfold np.cols; simpl; lia) Hvar)
    as (X' & HX' & _ & Hsphere).
  exists X'. split; [exact HX' |].
  exact (proj1 (Hsphere 1 ltac:(unfold np.rows; simpl; lia))).
Defined.

Lemma unit_sphere_norm_witness :
  let X : matrix := np.mk_ndarray (1, 2) (fun _ c => INR c) in
  exists X' : matrix,
    unit_sphere (hand_set "cosine") 1 X = Ok X'
    /\ np.norm (map (np.item X' 0) (seq 0 (np.cols X'))) = 1%R.
Proof.
  intros X.
  destruct (proj1 (unit_sphere_norm 1 X ltac:(lra)
                     ltac:(unfold np.rows; simpl; lia)
                     ltac:(unfold np.cols; simpl; lia)
                     (fun i c _ _ => pos_INR c)))
    as (X' & HX' & _ & Hsphere).
  exists X'. split; [exact HX' |].
  exact (proj1 (Hsphere 0 ltac:(unfold np.rows; simpl; lia))).
Defined.

(** ** The output cell, run again, and stopped half-way *)

(** X17. Running the output cell a second time changes nothing: the file
    system after two runs is the file system after one. *)
Theorem output_data_idempotent (K : nat) (dm : pystr) (Csigma : R)
    (globals : gmap string csr.t) (W L : csr.t) (N : nat) (fs : filesystem) :
  globals !! "W" = Some W ->
  globals !! "L" = Some L ->
  csr.shape W = (N, N) ->
  csr.shape L = (N, N) ->
  5 <= N ->
  let once := fst (output_data K dm Csigma globals fs) in
  output_data K dm Csigma globals once = (once, Ok tt).
Proof.
  intros HW HL HWs HLs HN once. unfold once.
  rewrite !(output_data_runs K dm Csigma globals W L N HW HL HWs HLs HN).
  cbn [fst]. rewrite insert_insert_eq. reflexivity.
Qed.

Lemma output_data_idempotent_witness :
  let W := {| csr.data := []; csr.indices := [];
              csr.indptr := [0; 0; 0; 0; 0; 0]; csr.shape := (5, 5) |} in
  let globals : gmap string csr.t := {[ "W" := W; "L" := W ]} in
  let once := fst (output_data 10 (hand_set "cosine") 1 globals ∅) in
  output_data 10 (hand_set "cosine") 1 globals once = (once, Ok tt).
Proof.
  intros W globals.
  assert (HW : globals !! "W" = Some W) by (vm_compute; reflexivity).
  assert (HL : globals !! "L" = Some W) by (vm_compute; reflexivity).
  exact (output_data_idempotent 10 (hand_set "cosine") 1 globals W W 5 ∅
           HW HL eq_refl eq_refl ltac:(lia)).
Defined.

Lemma dump_stops_at_first_matrix (K : nat) (dm : pystr) (Csigma : R)
    (globals : gmap string csr.t) :
  globals !! "W" = None
  \/ (exists W, globals !! "W" = Some W
                /\ (fst (csr.shape W) = 0 \/ snd (csr.shape W) <= 4)) ->
  exists e : exn,
    dump K dm Csigma globals {| attrs := ∅; datasets := ∅ |}
    = ({| attrs := {[ "K" := h5_int K; "dm" := h5_str (str_value dm);
                      "Csigma" := h5_float Csigma ]};
          datasets := ∅ |}, Raise e)
    /\ (globals !! "W" = None -> e = KeyError)
    /\ (is_Some (globals !! "W") -> e = IndexError).
Proof.
  intros [Hnone | (W & HW & Hshape)].
  - exists KeyError.
    split; [| split; [reflexivity | intros [x Hx]; congruence]].
    unfold dump, for_each, mbind, h5_bind, lift, lookup_global, set_attr.
    rewrite Hnone. vm_compute. reflexivity.
  - exists IndexError.
    split; [| split; [congruence | reflexivity]].
    assert (Hb : (0 <? fst (csr.shape W)) && (4 <? snd (csr.shape W)) = false).
    { destruct Hshape as [-> | Hc]; [reflexivity |].
      destruct (Nat.ltb_spec 4 (snd (csr.shape W))); [lia |].
      apply andb_false_r. }
    unfold dump, for_each, mbind, h5_bind, lift, lookup_global, set_attr,
      csr.getitem.
    rewrite HW, Hb. vm_compute. reflexivity.
Qed.

(** X18. When the global [W] is missing ([KeyError]), or has no row or
    fewer than five columns ([IndexError] at [m[0,4]]), the cell stops
    before any dataset is written; the file it leaves holds the three
    attributes only, and an earlier data/graph.hdf5 is lost all the
    same. *)
Theorem output_data_stopped (K : nat) (dm : pystr) (Csigma : R)
    (globals : gmap string csr.t) (fs : filesystem) :
  globals !! "W" = None
  \/ (exists W, globals !! "W" = Some W
                /\ (fst (csr.shape W) = 0 \/ snd (csr.shape W) <= 4)) ->
  exists e : exn,
    output_data K dm Csigma globals fs
    = (<["data/graph.hdf5" :=
           {| attrs := {[ "K" := h5_int K; "dm" := h5_str (str_value dm);
                          "Csigma" := h5_float Csigma ]};
              datasets := ∅ |}]> fs,
       Raise e)
    /\ (globals !! "W" = None -> e = KeyError)
    /\ (is_Some (globals !! "W") -> e = IndexError).
Proof.
  intros Hstop.
  destruct (dump_stops_at_first_matrix K dm Csigma globals Hstop)
    as (e & Hdump & Hkey & Hindex).
  exists e. split; [| split; assumption].
  unfold output_data, os.remove.
  replace (os.path_join "data" "graph.hdf5") with "data/graph.hdf5"
    by reflexivity.
  destruct (fs !! "data/graph.hdf5") as [old |] eqn:Hold;
    rewrite Hdump; [rewrite insert_delete_eq |]; reflexivity.
Qed.

Lemma output_data_stopped_witness :
  let W := {| csr.data := []; csr.indices := []; csr.indptr := [0; 0; 0];
              csr.shape := (2, 2) |} in
  let globals : gmap string csr.t := {[ "W" := W; "L" := W ]} in
  snd (output_data 1 (hand_set "cosine") 1 globals ∅) = Raise IndexError.
Proof.
  intros W globals.
  assert (HW : globals !! "W" = Some W) by (vm_compute; reflexivity).
  destruct (output_data_stopped 1 (hand_set "cosine") 1 globals ∅)
    as (e & Hout & _ & Hindex).
  - right. exists W. split; [exact HW |]. right. simpl. lia.
  - rewrite Hout. cbn [snd]. f_equal. apply Hindex. exists W. exact HW.
Defined.

(** ** [sparse_code] *)

Lemma filter_none {A : Type} (f : A -> bool) (l : list A) :
  length (List.filter f l) = 0 <-> forall x, In x l -> f x = false.
Proof.
  induction l as [| a l IH]; simpl.
  - split; [contradiction | reflexivity].
  - destruct (f a) eqn:Ha; simpl; split.
    + discriminate.
    + intros H. specialize (H a (or_introl eq_refl)). congruence.
    + intros H x [<- | Hx]; [exact Ha | apply IH; assumption].
    + intros H. apply IH. intros x Hx. apply H. right. exact Hx.
Qed.

Lemma filter_all {A : Type} (f : A -> bool) (l : list A) :
  length (List.filter f l) = length l <-> forall x, In x l -> f x = true.
Proof.
  induction l as [| a l IH]; simpl.
  - split; [contradiction | reflexivity].
  - pose proof (List.filter_length_le f l) as Hle.
    destruct (f a) eqn:Ha; simpl; split.
    + intros H x [<- | Hx]; [exact Ha |]. apply IH; [lia | exact Hx].
    + intros H. f_equal. apply IH. intros x Hx. apply H. right. exact Hx.
    + lia.
    + intros H. specialize (H a (or_introl eq_refl)). congruence.
Qed.

(** X22. [sparse_code] divides by the number of entries: an array without
    entries raises [ZeroDivisionError]. Otherwise the count of non-zero
    entries is at most the number of entries, the percentage lies between
    0 and 100, it is 0 exactly for the zero array and 100 exactly for an
    array without a zero. *)
Theorem sparse_code_percentage (Z : matrix) :
  (np.rows Z * np.cols Z = 0 -> sparse_code Z = inl ZeroDivisionError)
  /\ (np.rows Z * np.cols Z <> 0 ->
      exists (nnz : nat) (percent : R),
        sparse_code Z = inr (nnz, np.rows Z * np.cols Z, percent)
        /\ nnz <= np.rows Z * np.cols Z
        /\ (0 <= percent <= 100)%R
        /\ (percent = 0%R <->
            forall i j, i < np.rows Z -> j < np.cols Z -> np.item Z i j = 0%R)
        /\ (percent = 100%R <->
            forall i j, i < np.rows Z -> j < np.cols Z -> np.item Z i j <> 0%R)).
Proof.
  split.
  - intros Hsize. unfold sparse_code. rewrite Hsize. reflexivity.
  - intros Hsize. unfold sparse_code.
    destruct (Nat.eqb_spec (np.rows Z * np.cols Z) 0) as [| _];
      [contradiction |].
    set (size := np.rows Z * np.cols Z) in *.
    set (nnz := count_nonzero Z).
    assert (Hle : nnz <= size).
    { unfold nnz, count_nonzero, size. rewrite <- flat_length.
      apply List.filter_length_le. }
    assert (Hs : (0 < INR size)%R) by (apply lt_0_INR; lia).
    assert (Hn : (0 <= INR nnz <= INR size)%R)
      by (split; [apply pos_INR | apply le_INR, Hle]).
    assert (Hzero : nnz = 0 <->
      forall i j, i < np.rows Z -> j < np.cols Z -> np.item Z i j = 0%R).
    { unfold nnz, count_nonzero. split.
      - intros H0 i j Hi Hj.
        pose proof (proj1 (filter_none _ _) H0 _ (in_flat Z i j Hi Hj)) as H.
        apply negb_false_iff, Reqb_true in H. exact H.
      - intros H. apply filter_none. intros x Hx.
        apply in_flat_inv in Hx as (i & j & Hi & Hj & ->).
        apply negb_false_iff, Reqb_true, H; assumption. }
    assert (Hfull : nnz = size <->
      forall i j, i < np.rows Z -> j < np.cols Z -> np.item Z i j <> 0%R).
    { unfold nnz, count_nonzero, size. rewrite <- flat_length. split.
      - intros H0 i j Hi Hj Heq.
        pose proof (proj1 (filter_all _ _) H0 _ (in_flat Z i j Hi Hj)) as H.
        apply negb_true_iff in H. apply Reqb_true in Heq. congruence.
      - intros H. apply filter_all. intros x Hx.
        apply in_flat_inv in Hx as (i & j & Hi & Hj & ->).
        apply negb_true_iff. destruct (Reqb _ _) eqn:Heq; [| reflexivity].
        apply Reqb_true in Heq. exfalso. exact (H i j Hi Hj Heq). }
    exists nnz, (100 * INR nnz / INR size)%R.
    split; [reflexivity |]. split; [exact Hle |].
    assert (Hq : (0 <= INR nnz / INR size <= 1)%R).
    { split.
      - apply Rmult_le_pos; [lra |]. left. apply Rinv_0_lt_compat, Hs.
      - apply (Rmult_le_reg_r (INR size)); [exact Hs |].
        unfold Rdiv. rewrite Rmult_assoc, Rinv_l by lra. lra. }
    assert (Hmul : (100 * INR nnz / INR size = 100 * (INR nnz / INR size))%R)
      by (unfold Rdiv; ring).
    assert (Hback : (INR nnz / INR size * INR size = INR nnz)%R).
    { unfold Rdiv. rewrite Rmult_assoc, Rinv_l by lra. ring. }
    rewrite Hmul. split; [lra |]. split.
    + split.
      * intros Hp. apply Hzero, INR_eq. simpl.
        rewrite <- Hback. replace (INR nnz / INR size)%R with 0%R by lra. ring.
      * intros H. apply Hzero in H. rewrite H. simpl. unfold Rdiv. ring.
    + split.
      * intros Hp. apply Hfull, INR_eq.
        rewrite <- Hback. replace (INR nnz / INR size)%R with 1%R by lra. ring.
      * intros H. apply Hfull in H. rewrite H. field. lra.
Qed.

Lemma sparse_code_percentage_witness :
  let Z : matrix := np.mk_ndarray (1, 2) (fun _ j => INR j) in
  exists (nnz : nat) (percent : R),
    sparse_code Z = inr (nnz, 2, percent) /\ (0 <= percent <= 100)%R.
Proof.
  intros Z.
  destruct (proj2 (sparse_code_percentage Z)
              ltac:(unfold np.rows, np.cols; simpl; lia))
    as (nnz & percent & Hcode & _ & Hp & _).
  exists nnz, percent. split; [exact Hcode | exact Hp].
Defined.

(** ** From the weight matrix to the Laplacian *)

(** X23. The graph the notebook builds has no isolated vertex: when the
    weight-matrix cell succeeds on positive weights, the symmetrization
    cell succeeds too, every vertex of the symmetric matrix has a positive
    degree, and the two Laplacian cells succeed and yield the symmetric
    normalized Laplacian. *)
Theorem graph_has_no_isolated_vertex (K N : nat) (X : matrix)
    (idx : np.ndarray nat) (w W : matrix) :
  np.rows X = N -> np.shape idx = (N, K) -> np.shape w = (N, K) ->
  1 <= N -> 1 <= K ->
  (forall r k, r < N -> k < K -> (0 < np.item w r k)%R) ->
  weight_matrix K X idx w = Ok W ->
  exists W' D L : matrix,
    symmetric_weight_matrix W = Ok W'
    /\ degree_matrix W' = Ok D
    /\ laplacian N W' D = Ok L
    /\ (forall i, i < N -> (0 < degree W' i)%R)
    /\ (forall i j, i < N -> j < N ->
          np.item L i j = normalized_laplacian_spec W' i j).
Proof.
  intros HX Hidx Hw HN HK Hpos HW.
  destruct (weight_matrix_run K N X idx w HX Hidx Hw HN HK)
    as (W0 & Hshape0 & Hitem & Hrun).
  rewrite Hrun in HW.
  apply assert_then_Ok in HW as [Hshape HW].
  apply assert_then_Ok in HW as [Hdiag [= ->]].
  apply shape_eqb_eq in Hshape.
  pose proof (diagonal_zero W N Hshape Hdiag) as Hzero.
  assert (Hmax : list_max (np.flat idx) = N - 1).
  { rewrite Hshape0 in Hshape. injection Hshape as Hs. lia. }
  assert (Hnonneg : forall r c, r < N -> (0 <= np.item W r c)%R).
  { intros r c Hr. rewrite Hitem by exact Hr. unfold joined_weight.
    apply total_nonneg. intros k Hk. apply in_seq in Hk.
    destruct (_ =? _); [left; apply Hpos; lia | lra]. }
  assert (Hedge : forall r, r < N ->
            np.item idx r 0 < N /\ (0 < np.item W r (np.item idx r 0))%R).
  { intros r Hr. split.
    - assert (np.item idx r 0 <= list_max (np.flat idx)); [| lia].
      apply list_max_In, in_flat; unfold np.rows, np.cols; rewrite Hidx;
        simpl; lia.
    - rewrite Hitem by exact Hr. unfold joined_weight.
      eapply Rlt_le_trans;
        [| apply (total_term_le
                    (fun k0 => if np.item idx r k0 =? np.item idx r 0
                               then np.item w r k0 else 0%R)
                    (seq 0 K) 0)].
      + simpl. rewrite Nat.eqb_refl. apply Hpos; lia.
      + intros x Hx. apply in_seq in Hx. simpl.
        destruct (_ =? _); [left; apply Hpos; lia | lra].
      + apply in_seq. lia. }
  destruct (symmetric_weight_matrix_passes N W Hshape HN Hzero)
    as (W' & Hcell & Hsym).
  destruct (symmetrize_square N W Hshape) as (W'' & Hsym' & Hshape' & Hmaxitem).
  assert (W'' = W') by congruence. subst W''.
  assert (Hzero' : forall i, i < N -> np.item W' i i = 0%R).
  { intros i Hi. rewrite Hmaxitem, (Hzero i Hi). apply Rmax_left. lra. }
  assert (Hnonneg' : forall r c, r < N -> c < N -> (0 <= np.item W' r c)%R).
  { intros r c Hr Hc. rewrite Hmaxitem.
    eapply Rle_trans; [apply (Hnonneg r c Hr) | apply Rmax_l]. }
  assert (Hdeg : forall i, i < N -> (0 < degree W' i)%R).
  { intros i Hi. destruct (Hedge i Hi) as [Hc Hw_pos].
    set (c := np.item idx i 0) in *.
    assert (Hci : (0 < np.item W' c i)%R).
    { rewrite Hmaxitem. eapply Rlt_le_trans; [exact Hw_pos | apply Rmax_r]. }
    eapply Rlt_le_trans; [exact Hci |].
    unfold degree, np.rows. rewrite Hshape'. simpl.
    apply (total_term_le (fun r => np.item W' r i) (seq 0 N) c).
    - intros x Hx. apply in_seq in Hx. apply Hnonneg'; lia.
    - apply in_seq. lia. }
  destruct (laplacian_cells N W' Hshape' Hzero' Hdeg)
    as (D & L & HD & HL & HLitem).
  exists W', D, L.
  split; [exact Hcell |]. split; [exact HD |]. split; [exact HL |].
  split; [exact Hdeg |].
  intros i j Hi Hj. rewrite (HLitem i j Hi Hj).
  unfold normalized_laplacian_spec.
  rewrite sqrt_mult by (left; apply Hdeg; assumption).
  assert (0 < sqrt (degree W' i))%R by (apply sqrt_lt_R0, Hdeg, Hi).
  assert (0 < sqrt (degree W' j))%R by (apply sqrt_lt_R0, Hdeg, Hj).
  field. split; lra.
Qed.

Lemma graph_has_no_isolated_vertex_witness :
  let X : matrix := np.mk_ndarray (2, 3) (fun _ _ => 0%R) in
  let idx := np.mk_ndarray (2, 1) (fun i _ => 1 - i) in
  let w : matrix := np.mk_ndarray (2, 1) (fun _ _ => 1%R) in
  exists W W' D L : matrix,
    weight_matrix 1 X idx w = Ok W
    /\ symmetric_weight_matrix W = Ok W'
    /\ degree_matrix W' = Ok D
    /\ laplacian 2 W' D = Ok L.
Proof.
  intros X idx w.
  assert (Hrun : exists W : matrix, weight_matrix 1 X idx w = Ok W).
  { unfold weight_matrix.
    replace (np.rows X) with 2 by reflexivity.
    rewrite (py_list_indices 2 1) by lia.
    eexists. apply bind_Ok. eexists. split; [reflexivity |].
    apply assert_then_Ok. split; [reflexivity |].
    apply assert_then_Ok. split; [| reflexivity].
    unfold sparse.diagonal. simpl. unfold sparse.coo_term. simpl.
    rewrite !andb_true_iff, !Reqb_true. repeat split; lra. }
  destruct Hrun as [W HW].
  destruct (graph_has_no_isolated_vertex 1 2 X idx w W eq_refl eq_refl eq_refl
              ltac:(lia) ltac:(lia) (fun r k _ _ => Rlt_0_1) HW)
    as (W' & D & L & H1 & H2 & H3 & _).
  exists W, W', D, L. repeat split; assumption.
Defined.

(** ** The distance cell on few samples *)

(** X24. The distance cell checks the entry [(14, 3)]: with 'euclidean' or
    'cosine', on distances with fewer than 15 rows or fewer than 4 columns
    it raises [IndexError], or [ValueError] when there is no distance at
    all. *)
Theorem distance_metric_small (s : string) (tol : R) (X : matrix)
    (idx : np.ndarray nat) (dist : matrix) :
  String.eqb s "euclidean" || String.eqb s "cosine" = true ->
  np.rows idx <= 14 \/ np.cols idx <= 3 ->
  distance_metric (hand_set s) tol X idx dist
  = if (np.rows dist =? 0) || (np.cols dist =? 0)
    then Raise ValueError else Raise IndexError.
Proof.
  intros Hs Hsmall. unfold distance_metric, convert_distance.
  rewrite !hand_set_is by reflexivity.
  assert (Hget : np.getitem idx 14 3 = Raise IndexError).
  { unfold np.getitem.
    destruct (Nat.ltb_spec 14 (np.rows idx)), (Nat.ltb_spec 3 (np.cols idx));
      try reflexivity. lia. }
  destruct (String.eqb s "euclidean") eqn:He;
    [| destruct (String.eqb s "cosine") eqn:Hc; [| discriminate]];
    cbn [mbind result_bind]; unfold np.min_max;
    match goal with
    | |- context [np.rows (np.elementwise ?f dist)] =>
        change (np.rows (np.elementwise f dist)) with (np.rows dist);
        change (np.cols (np.elementwise f dist)) with (np.cols dist)
    end;
    destruct ((np.rows dist =? 0) || (np.cols dist =? 0));
    cbn [mbind result_bind]; try reflexivity;
    unfold verification; rewrite Hget; reflexivity.
Qed.

Lemma distance_metric_small_witness :
  distance_metric (hand_set "cosine") 1
    (np.mk_ndarray (2, 3) (fun _ _ => 0%R))
    (np.mk_ndarray (2, 1) (fun i _ => 1 - i))
    (np.mk_ndarray (2, 1) (fun _ _ => 1%R))
  = Raise IndexError.
Proof.
  apply (distance_metric_small "cosine" 1
           (np.mk_ndarray (2, 3) (fun _ _ => 0%R))
           (np.mk_ndarray (2, 1) (fun i _ => 1 - i))
           (np.mk_ndarray (2, 1) (fun _ _ => 1%R)));
    [reflexivity | left; unfold np.rows; simpl; lia].
Defined.

(** ** A KNN graph whose last sample is nobody's neighbor *)

(** C2. The weight-matrix cell does not build the graph of every answer of
    the search. Take 16 samples of one feature, at 0, 0.01, ..., 0.14 and
    at 1 (in hundredths: [position]), and for each its 4 nearest neighbors
    after itself ([neighbors], an exact answer of the search, with the
    squared distances FLANN returns). The cells before pass, also the
    verification of the distances. The last sample is far from the others
    and is nobody's neighbor; the sparse matrix, whose shape is inferred
    from the largest indices, then has 15 columns, and the cell stops at
    its own assertion [W.shape == (Nvertices, Nvertices)], whatever the
    weights: no [N] by [N] matrix is produced. *)
Theorem knn_graph_unreached_sample :
  let position := [0; 1; 2; 3; 4; 5; 6; 7; 8; 9; 10; 11; 12; 13; 14; 100] in
  let neighbors :=
    [ [0; 1; 2; 3; 4];      [1; 0; 2; 3; 4];      [2; 1; 3; 0; 4];
      [3; 2; 4; 1; 5];      [4; 3; 5; 2; 6];      [5; 4; 6; 3; 7];
      [6; 5; 7; 4; 8];      [7; 6; 8; 5; 9];      [8; 7; 9; 6; 10];
      [9; 8; 10; 7; 11];    [10; 9; 11; 8; 12];   [11; 10; 12; 9; 13];
      [12; 11; 13; 10; 14]; [13; 12; 14; 11; 10]; [14; 13; 12; 11; 10];
      [15; 14; 13; 12; 11] ] in
  let gap := fun r c : nat =>
    Z.abs (Z.of_nat (nth r position 0) - Z.of_nat (nth c position 0)) in
  let x := fun i : nat => (INR (nth i position 0%nat) / 100)%R in
  let X : matrix := np.mk_ndarray (16, 1) (fun i _ => x i) in
  let knnidx :=
    np.mk_ndarray (16, 5) (fun r k => nth k (nth r neighbors []) 0) in
  let knndist : matrix :=
    np.mk_ndarray (16, 5)
      (fun r k => (x r - x (np.item knnidx r k))
                  * (x r - x (np.item knnidx r k)))%R in
  let idx := np.drop_first_column knnidx in
  let dist := np.drop_first_column knndist in
  let tol := (1 / 100000)%R in
  (* an answer of the search for 4 + 1 neighbors *)
  (forall r, r < 16 -> np.item knnidx r 0 = r)
  /\ (forall r k c, r < 16 -> k < 5 -> c < 16 ->
        (forall k', k' < 5 -> np.item knnidx r k' <> c) ->
        (gap r (np.item knnidx r k) <= gap r c)%Z)
  /\ (forall r k, r < 16 -> k < 4 ->
        np.item idx r k <> r /\ np.item idx r k < 15)
  (* the cells before the weight matrix *)
  /\ asserts 4 2 2 2 knnidx knndist = Ok tt
  /\ exclude_self_reference 4 X knnidx knndist = Ok (idx, dist)
  /\ distance_metric (hand_set "euclidean") tol X idx dist
     = Ok (np.elementwise sqrt dist)
  (* the weight matrix *)
  /\ (forall w : nat -> nat -> R,
        weight_matrix 4 X idx (np.mk_ndarray (16, 4) w) = Raise AssertionError).
Proof.
  intros position neighbors gap x X knnidx knndist idx dist tol.
  assert (Hknn :
    forallb (fun r =>
      (np.item knnidx r 0 =? r)
      && forallb (fun k =>
           forallb (fun c =>
             existsb (fun k' => np.item knnidx r k' =? c) (seq 0 5)
             || (gap r (np.item knnidx r k) <=? gap r c)%Z) (seq 0 16))
           (seq 0 5)
      && forallb (fun k =>
           negb (np.item idx r k =? r) && (np.item idx r k <? 15)) (seq 0 4))
      (seq 0 16) = true) by (vm_compute; reflexivity).
  rewrite forallb_forall in Hknn.
  assert (Hrow : forall r, r < 16 -> In r (seq 0 16))
    by (intros r Hr; apply in_seq; lia).
  split; [| split; [| split]].
  - intros r Hr. specialize (Hknn r (Hrow r Hr)).
    apply andb_true_iff in Hknn as [Hknn _].
    apply andb_true_iff in Hknn as [Hknn _].
    apply Nat.eqb_eq. exact Hknn.
  - intros r k c Hr Hk Hc Hout. specialize (Hknn r (Hrow r Hr)).
    apply andb_true_iff in Hknn as [Hknn _].
    apply andb_true_iff in Hknn as [_ Hknn].
    rewrite forallb_forall in Hknn.
    specialize (Hknn k ltac:(apply in_seq; lia)).
    rewrite forallb_forall in Hknn.
    specialize (Hknn c ltac:(apply in_seq; lia)).
    apply orb_true_iff in Hknn as [Hin | Hle]; [| apply Z.leb_le; exact Hle].
    apply existsb_exists in Hin as (k' & Hk' & Heq).
    apply in_seq in Hk'. apply Nat.eqb_eq in Heq.
    exfalso. exact (Hout k' ltac:(lia) Heq).
  - intros r k Hr Hk. specialize (Hknn r (Hrow r Hr)).
    apply andb_true_iff in Hknn as [_ Hknn].
    rewrite forallb_forall in Hknn.
    specialize (Hknn k ltac:(apply in_seq; lia)).
    apply andb_true_iff in Hknn as [Hne Hlt].
    apply negb_true_iff, Nat.eqb_neq in Hne. apply Nat.ltb_lt in Hlt.
    split; assumption.
  - split; [reflexivity |]. split; [reflexivity |]. split.
    + unfold distance_metric, convert_distance.
      rewrite hand_set_is by reflexivity.
      replace (String.eqb "euclidean" "euclidean") with true by reflexivity.
      set (dist' := np.elementwise sqrt dist).
      change (np.min_max dist'
              ≫= (fun _ => verification (hand_set "euclidean") tol X idx dist'
                           ≫= fun _ => Ok dist') = Ok dist').
      rewrite min_max_Ok by (vm_compute; lia).
      assert (Hv : verification (hand_set "euclidean") tol X idx dist' = Ok tt);
        [| rewrite Hv; reflexivity].
      unfold verification.
      rewrite (getitem_Ok idx 14 3) by (vm_compute; lia).
      replace (np.item idx 14 3) with 10 by reflexivity.
      rewrite hand_set_is by reflexivity.
      replace (String.eqb "euclidean" "euclidean") with true by reflexivity.
      unfold mbind, result_bind. cbv beta iota.
      rewrite (getrow_Ok X 14), (getrow_Ok X 10) by (vm_compute; lia).
      rewrite (getitem_Ok dist' 14 3) by (vm_compute; lia).
      cbv beta iota.
      apply assert_Ok, Rltb_true.
      replace (np.norm _) with (np.item dist' 14 3).
      * rewrite Rminus_diag, Rabs_R0. unfold tol. lra.
      * unfold np.norm. cbn -[sqrt x INR]. f_equal. ring.
    + intros w.
      destruct (weight_matrix_run 4 16 X idx (np.mk_ndarray (16, 4) w)
                  eq_refl eq_refl eq_refl ltac:(lia) ltac:(lia))
        as (W0 & Hshape & _ & Hrun).
      rewrite Hrun, Hshape.
      replace (list_max (np.flat idx)) with 14 by (vm_compute; reflexivity).
      reflexivity.
Qed.

(** ** The dictionary-learning notebook: sums *)

Lemma total_plus {A : Type} (f g : A -> R) (l : list A) :
  total (map (fun x => f x + g x)%R l)
  = (total (map f l) + total (map g l))%R.
Proof. induction l as [| a l IH]; simpl; [lra | rewrite IH; lra]. Qed.

Lemma total_le {A : Type} (f g : A -> R) (l : list A) :
  (forall x, In x l -> (f x <= g x)%R) ->
  (total (map f l) <= total (map g l))%R.
Proof.
  induction l as [| a l IH]; intros H; simpl; [lra |].
  pose proof (H a (or_introl eq_refl)).
  assert (total (map f l) <= total (map g l))%R; [| lra].
  apply IH. intros x Hx. apply H. right. exact Hx.
Qed.

(** The entries of an array, row after row, add up as its rows do. *)
Lemma total_flat {A : Type} (f : A -> R) (a : np.ndarray A) :
  total (map f (np.flat a))
  = total (map (fun i => total (map (fun j => f (np.item a i j))
                                    (seq 0 (np.cols a))))
               (seq 0 (np.rows a))).
Proof.
  unfold np.flat. induction (seq 0 (np.rows a)) as [| i l IH]; [reflexivity |].
  simpl. rewrite map_app, total_app, IH, map_map. reflexivity.
Qed.

(** Sums over two indices can be taken in either order. *)
Lemma total_swap {A B : Type} (f : A -> B -> R) (la : list A) (lb : list B) :
  total (map (fun i => total (map (fun j => f i j) lb)) la)
  = total (map (fun j => total (map (fun i => f i j) la)) lb).
Proof.
  induction la as [| a la IH]; simpl.
  - symmetry. apply total_zero. reflexivity.
  - rewrite IH. symmetry. apply total_plus.
Qed.

Lemma total_product {A B : Type} (r : A -> R) (c : B -> R)
    (la : list A) (lb : list B) :
  total (map (fun i => total (map (fun j => r i * c j)%R lb)) la)
  = (total (map r la) * total (map c lb))%R.
Proof.
  induction la as [| a la IH]; simpl; [lra |].
  rewrite IH, total_scale. lra.
Qed.

Lemma cauchy_schwarz_step (u v S P Q : R) :
  (0 <= P -> 0 <= Q -> S * S <= P * Q ->
   (u * v + S) * (u * v + S) <= (u * u + P) * (v * v + Q))%R.
Proof.
  intros HP HQ HS.
  assert (Hmix : (2 * (u * v) * S <= u * u * Q + v * v * P)%R).
  { assert (Hpos : (0 <= u * u * Q + v * v * P)%R).
    { assert (0 <= u * u)%R by apply Rle_0_sqr.
      assert (0 <= v * v)%R by apply Rle_0_sqr.
      assert (0 <= u * u * Q)%R by (apply Rmult_le_pos; assumption).
      assert (0 <= v * v * P)%R by (apply Rmult_le_pos; assumption). lra. }
    assert (Hsq : ((2 * (u * v) * S) * (2 * (u * v) * S)
                   <= (u * u * Q + v * v * P) * (u * u * Q + v * v * P))%R).
    { assert (H1 : (0 <= (u * u * Q - v * v * P) * (u * u * Q - v * v * P))%R)
        by apply Rle_0_sqr.
      assert (H2 : (0 <= (u * v) * (u * v))%R) by apply Rle_0_sqr.
      assert (H3 : ((u * v) * (u * v) * (S * S)
                    <= (u * v) * (u * v) * (P * Q))%R)
        by (apply Rmult_le_compat_l; assumption).
      lra. }
    destruct (Rle_dec (2 * (u * v) * S) (u * u * Q + v * v * P))%R as [H | H];
      [exact H |].
    exfalso. apply Rnot_le_lt in H.
    assert (Hlt : ((u * u * Q + v * v * P) * (u * u * Q + v * v * P)
                   < (2 * (u * v) * S) * (2 * (u * v) * S))%R).
    { apply Rmult_le_0_lt_compat; assumption. }
    lra. }
  lra.
Qed.

(** The inequality of Cauchy and Schwarz *)
Lemma cauchy_schwarz {A : Type} (a b : A -> R) (l : list A) :
  (total (map (fun x => a x * b x) l) * total (map (fun x => a x * b x) l)
   <= total (map (fun x => a x * a x) l) * total (map (fun x => b x * b x) l))%R.
Proof.
  induction l as [| x l IH]; simpl; [lra |].
  apply cauchy_schwarz_step; [| | exact IH];
    apply total_nonneg; intros; apply Rle_0_sqr.
Qed.

(** ** The dictionary-learning notebook: the functions of the library *)

Lemma dot_Ok (a b : matrix) :
  np.cols a = np.rows b ->
  np.dot a b
  = Ok {| np.shape := (np.rows a, np.cols b);
          np.item := fun i j =>
            total (map (fun l => np.item a i l * np.item b l j)%R
                       (seq 0 (np.cols a))) |}.
Proof. intros H. unfold np.dot. rewrite H, Nat.eqb_refl. reflexivity. Qed.

(** Arrays of one shape subtract entry by entry. *)
Lemma subtract_same_shape (a b : matrix) :
  np.shape a = np.shape b ->
  exists r : matrix,
    np.subtract a b = Ok r
    /\ np.shape r = np.shape a
    /\ forall i j, i < np.rows a -> j < np.cols a ->
         np.item r i j = (np.item a i j - np.item b i j)%R.
Proof.
  intros Hshape. unfold np.subtract, np.broadcast, np.rows, np.cols.
  rewrite <- Hshape, !Nat.eqb_refl. eexists. split; [reflexivity |].
  split; [destruct (np.shape a); reflexivity |].
  intros i j Hi Hj. cbn [np.item]. unfold np.rows, np.cols in Hi, Hj.
  assert (Hi0 : fst (np.shape a) = 1 -> i = 0) by lia.
  assert (Hj0 : snd (np.shape a) = 1 -> j = 0) by lia.
  destruct (Nat.eqb_spec (fst (np.shape a)) 1) as [Hr | _],
    (Nat.eqb_spec (snd (np.shape a)) 1) as [Hc | _];
    try rewrite (Hi0 Hr); try rewrite (Hj0 Hc); reflexivity.
Qed.

(** [lambda_ * ||A x - y||_2^2], entry by entry, when the shapes fit *)
Lemma eval_norm_l2 (lambda_ : R) (A y : dictionary.view) (t : bool)
    (h : dictionary.heap) (x : matrix) :
  let a := dictionary.load h A in
  let b := dictionary.load h y in
  np.cols a = np.rows x ->
  np.shape b = (np.rows a, np.cols x) ->
  dictionary.eval (dictionary.norm_l2 lambda_ A y t) h x
  = Ok (lambda_
        * total (map (fun i =>
            total (map (fun j =>
              let Ax := total (map (fun l => np.item a i l * np.item x l j)
                                   (seq 0 (np.cols a))) in
              (Ax - np.item b i j) * (Ax - np.item b i j))
              (seq 0 (np.cols x))))
            (seq 0 (np.rows a))))%R.
Proof.
  intros a b Hfit Hshape. unfold dictionary.eval. fold a b.
  rewrite (dot_Ok a x Hfit).
  match goal with |- Ok ?m ≫= _ = _ => set (Ax := m) end.
  destruct (subtract_same_shape Ax b) as (r & Hr & Hrshape & Hitem);
    [rewrite Hshape; reflexivity |].
  change (np.subtract Ax b
          ≫= (fun r => Ok (lambda_ * total (map (fun v => v * v) (np.flat r)))%R)
          = Ok (lambda_
        * total (map (fun i =>
            total (map (fun j =>
              let Ax := total (map (fun l => np.item a i l * np.item x l j)
                                   (seq 0 (np.cols a))) in
              (Ax - np.item b i j) * (Ax - np.item b i j))
              (seq 0 (np.cols x))))
            (seq 0 (np.rows a))))%R).
  rewrite Hr. cbn [mbind result_bind]. f_equal. f_equal.
  rewrite total_flat. unfold np.rows, np.cols at 1. rewrite Hrshape.
  cbn [fst snd np.shape Ax].
  apply total_ext_in. intros i Hi. apply total_ext_in. intros j Hj.
  apply in_seq in Hi, Hj.
  rewrite Hitem by (unfold Ax, np.rows, np.cols in *; cbn in *; lia).
  reflexivity.
Qed.

Lemma eval_norm_l1 (h : dictionary.heap) (x : matrix) :
  dictionary.eval dictionary.norm_l1 h x = Ok (dictionary.l1_norm x).
Proof.
  unfold dictionary.eval, dictionary.l1_norm. rewrite total_flat. reflexivity.
Qed.

(** ** The dictionary-learning notebook: arrays in memory *)

Lemma view_T_T (v : dictionary.view) : dictionary.T (dictionary.T v) = v.
Proof. destruct v as [b []]; reflexivity. Qed.

Lemma load_T (h : dictionary.heap) (v : dictionary.view) :
  dictionary.load h (dictionary.T v) = np.T (dictionary.load h v).
Proof.
  unfold dictionary.load, dictionary.T. cbn [dictionary.buffer dictionary.transposed].
  destruct (h !! dictionary.buffer v) as [a |]; [| reflexivity].
  destruct (dictionary.transposed v); cbn [negb];
    [rewrite T_involutive |]; reflexivity.
Qed.

Lemma load_store (h : dictionary.heap) (v : dictionary.view) (a : matrix) :
  dictionary.buffer v < length h ->
  dictionary.load (dictionary.store h v a) v = a.
Proof.
  intros Hv. unfold dictionary.load, dictionary.store.
  rewrite list_lookup_insert_eq by exact Hv.
  destruct (dictionary.transposed v); [apply T_involutive | reflexivity].
Qed.

Lemma load_store_other (h : dictionary.heap) (u v : dictionary.view)
    (a : matrix) :
  dictionary.buffer u <> dictionary.buffer v ->
  dictionary.load (dictionary.store h v a) u = dictionary.load h u.
Proof.
  intros Hne. unfold dictionary.load, dictionary.store.
  rewrite list_lookup_insert_ne by exact (not_eq_sym Hne). reflexivity.
Qed.

Lemma load_allocate (h : dictionary.heap) (a : matrix) :
  dictionary.load (fst (dictionary.allocate h a)) (snd (dictionary.allocate h a))
  = a.
Proof.
  unfold dictionary.load, dictionary.allocate. cbn.
  rewrite list_lookup_middle by reflexivity. reflexivity.
Qed.

Lemma load_allocate_other (h : dictionary.heap) (a : matrix)
    (u : dictionary.view) :
  dictionary.buffer u < length h ->
  dictionary.load (fst (dictionary.allocate h a)) u = dictionary.load h u.
Proof.
  intros Hu. unfold dictionary.load, dictionary.allocate. cbn [fst].
  rewrite lookup_app_l by exact Hu. reflexivity.
Qed.

(** ** The dictionary-learning notebook: the two data terms *)

(** The data term as a function of [Z], with [D] held fixed *)
Lemma eval_data_term_Z (l_d : R) (D : dictionary.view) (t : bool)
    (h : dictionary.heap) (Z' : matrix) :
  np.cols (dictionary.load h D) = np.rows Z' ->
  np.shape (dictionary.load h dictionary.X)
  = (np.rows (dictionary.load h D), np.cols Z') ->
  dictionary.eval (dictionary.norm_l2 (l_d / 2) D dictionary.X t) h Z'
  = Ok (dictionary.data_term l_d (dictionary.load h dictionary.X) Z'
          (dictionary.load h D)).
Proof.
  intros Hfit Hshape. rewrite eval_norm_l2 by assumption.
  assert (Hr : np.rows (dictionary.load h dictionary.X)
               = np.rows (dictionary.load h D))
    by (unfold np.rows at 1; rewrite Hshape; reflexivity).
  assert (Hc : np.cols (dictionary.load h dictionary.X) = np.cols Z')
    by (unfold np.cols at 1; rewrite Hshape; reflexivity).
  unfold dictionary.data_term. rewrite Hr, Hc. f_equal. f_equal.
  apply total_ext_in. intros i _. apply total_ext_in. intros j _.
  cbv zeta. ring.
Qed.

(** The data term as a function of [D^T], with [Z] held fixed *)
Lemma eval_data_term_D (l_d : R) (Z : dictionary.view) (t : bool)
    (h : dictionary.heap) (Dt' : matrix) :
  np.rows (dictionary.load h Z) = np.rows Dt' ->
  np.shape (dictionary.load h dictionary.X)
  = (np.cols Dt', np.cols (dictionary.load h Z)) ->
  dictionary.eval
    (dictionary.norm_l2 (l_d / 2) (dictionary.T Z) (dictionary.T dictionary.X) t)
    h Dt'
  = Ok (dictionary.data_term l_d (dictionary.load h dictionary.X)
          (dictionary.load h Z) (np.T Dt')).
Proof.
  intros Hfit Hshape.
  assert (Hr : np.rows (dictionary.load h dictionary.X) = np.cols Dt')
    by (unfold np.rows at 1; rewrite Hshape; reflexivity).
  assert (Hc : np.cols (dictionary.load h dictionary.X)
               = np.cols (dictionary.load h Z))
    by (unfold np.cols at 1; rewrite Hshape; reflexivity).
  rewrite eval_norm_l2; rewrite !load_T.
  - unfold dictionary.data_term. rewrite Hr, Hc. f_equal. f_equal.
    change (np.rows (np.T (dictionary.load h Z)))
      with (np.cols (dictionary.load h Z)).
    change (np.cols (np.T (dictionary.load h Z)))
      with (np.rows (dictionary.load h Z)).
    change (np.cols (np.T Dt')) with (np.rows Dt').
    rewrite total_swap. rewrite Hfit.
    apply total_ext_in. intros i _. apply total_ext_in. intros j _.
    cbv zeta. cbn [np.item np.T].
    replace (total (map (fun l => np.item Dt' l i * np.item (dictionary.load h Z) l j)%R
                        (seq 0 (np.rows Dt'))))
      with (total (map (fun l => np.item (dictionary.load h Z) l j * np.item Dt' l i)%R
                        (seq 0 (np.rows Dt'))))
      by (apply total_ext_in; intros; ring).
    ring.
  - exact Hfit.
  - unfold np.T at 1. cbn [np.shape]. unfold np.rows, np.cols. rewrite Hshape.
    reflexivity.
Qed.

(** ** The dictionary-learning notebook: the step of the solvers *)

Lemma total_scale_r {A : Type} (c : R) (f : A -> R) (l : list A) :
  total (map (fun x => f x * c)%R l) = (total (map f l) * c)%R.
Proof. induction l as [| a l IH]; simpl; [lra | rewrite IH; lra]. Qed.

Lemma sqrt_le_square (x y : R) :
  (0 <= y)%R -> (x <= y * y)%R -> (sqrt x <= y)%R.
Proof.
  intros Hy Hxy. rewrite <- (sqrt_square y Hy). apply sqrt_le_1_alt. exact Hxy.
Qed.

(** The gradient of the data term, entry by entry, when the shapes fit *)
Lemma norm_l2_grad_Ok (lambda_ : R) (a y x : matrix) (N : nat) :
  np.shape y = (np.rows a, N) ->
  np.shape x = (np.cols a, N) ->
  exists g : matrix,
    dictionary.norm_l2_grad lambda_ a y x = Ok g
    /\ np.shape g = (np.cols a, N)
    /\ forall i j, i < np.cols a -> j < N ->
         np.item g i j
         = (2 * lambda_
            * total (map (fun p =>
                np.item a p i
                * (total (map (fun q => np.item a p q * np.item x q j)
                              (seq 0 (np.cols a)))
                   - np.item y p j))
                (seq 0 (np.rows a))))%R.
Proof.
  intros Hy Hx.
  assert (Hxr : np.rows x = np.cols a) by (unfold np.rows; rewrite Hx; reflexivity).
  assert (Hxc : np.cols x = N) by (unfold np.cols; rewrite Hx; reflexivity).
  unfold dictionary.norm_l2_grad.
  rewrite (dot_Ok a x) by (symmetry; exact Hxr).
  match goal with |- context [Ok ?m ≫= _] => set (Ax := m) end.
  destruct (subtract_same_shape Ax y) as (r & Hr & Hrshape & Hitem).
  { rewrite Hy. unfold Ax. cbn [np.shape]. rewrite Hxc. reflexivity. }
  cbn [mbind result_bind]. rewrite Hr. cbn [mbind result_bind].
  assert (Hrr : np.rows r = np.rows a)
    by (unfold np.rows at 1; rewrite Hrshape; reflexivity).
  assert (Hrc : np.cols r = N)
    by (unfold np.cols at 1; rewrite Hrshape; cbn; exact Hxc).
  rewrite (dot_Ok (np.T a) r) by (symmetry; exact Hrr).
  cbn [mbind result_bind]. eexists. split; [reflexivity |].
  split; [cbn [np.shape np.elementwise]; rewrite Hrc; reflexivity |].
  intros i j Hi Hj. cbn [np.item np.elementwise np.T].
  change (np.cols (np.T a)) with (np.rows a).
  f_equal. apply total_ext_in. intros p Hp. apply in_seq in Hp.
  rewrite Hitem by (unfold Ax, np.rows, np.cols in *; cbn in *; lia).
  reflexivity.
Qed.

(** [l_d ||A^T A||_F] is a Lipschitz constant of the gradient of the data
    term [l_d/2 ||A x - y||_F^2]. *)
Lemma norm_l2_lipschitz (l_d : R) (a y M : matrix) (N : nat) :
  (0 <= l_d)%R ->
  np.shape y = (np.rows a, N) ->
  np.dot (np.T a) a = Ok M ->
  dictionary.lipschitz (l_d * dictionary.la_norm M)
    (dictionary.norm_l2_grad (l_d / 2) a y) (np.cols a, N).
Proof.
  intros Hl Hy HM x x' Hx Hx'.
  destruct (norm_l2_grad_Ok (l_d / 2) a y x N Hy Hx) as (g & Hg & Hgs & Hgi).
  destruct (norm_l2_grad_Ok (l_d / 2) a y x' N Hy Hx') as (g' & Hg' & Hgs' & Hgi').
  exists g, g'. repeat (split; [assumption |]).
  set (m := fun i q =>
         total (map (fun p => np.item a p i * np.item a p q)%R
                    (seq 0 (np.rows a)))).
  set (d := fun q j => (np.item x q j - np.item x' q j)%R).
  (* the difference of the gradients *)
  assert (Hdiff : forall i j, i < np.cols a -> j < N ->
            (np.item g i j - np.item g' i j
             = l_d * total (map (fun q => m i q * d q j) (seq 0 (np.cols a))))%R).
  { intros i j Hi Hj. rewrite Hgi, Hgi' by assumption.
    replace (2 * (l_d / 2))%R with l_d by lra.
    rewrite <- Rmult_minus_distr_l. f_equal.
    rewrite <- total_minus.
    transitivity
      (total (map (fun p =>
         total (map (fun q => np.item a p i * np.item a p q * d q j)%R
                    (seq 0 (np.cols a))))
         (seq 0 (np.rows a)))).
    - apply total_ext_in. intros p _. rewrite <- Rmult_minus_distr_l.
      replace (total (map (fun q => np.item a p q * np.item x q j)%R
                          (seq 0 (np.cols a)))
               - np.item y p j
               - (total (map (fun q => np.item a p q * np.item x' q j)%R
                             (seq 0 (np.cols a)))
                  - np.item y p j))%R
        with (total (map (fun q => np.item a p q * np.item x q j
                                   - np.item a p q * np.item x' q j)%R
                         (seq 0 (np.cols a))))
        by (rewrite total_minus; ring).
      rewrite <- total_scale. apply total_ext_in. intros q _. unfold d. ring.
    - rewrite total_swap. apply total_ext_in. intros q _.
      unfold m. rewrite <- total_scale_r. reflexivity. }
  (* the sums of squares *)
  set (SM := total (map (fun i => total (map (fun q => m i q * m i q)%R
                                             (seq 0 (np.cols a))))
                        (seq 0 (np.cols a)))).
  set (SD := total (map (fun q => total (map (fun j => d q j * d q j)%R
                                             (seq 0 N)))
                        (seq 0 (np.cols a)))).
  assert (HSM : (0 <= SM)%R).
  { apply total_nonneg. intros i _. apply total_nonneg. intros q _.
    apply Rle_0_sqr. }
  assert (HSD : (0 <= SD)%R).
  { apply total_nonneg. intros i _. apply total_nonneg. intros q _.
    apply Rle_0_sqr. }
  assert (Hnorm : dictionary.la_norm M = sqrt SM).
  { rewrite dot_Ok in HM by reflexivity. injection HM as <-.
    unfold dictionary.la_norm, np.norm. rewrite total_flat. reflexivity. }
  assert (Hdist : dictionary.frobenius_distance x x' = sqrt SD).
  { unfold dictionary.frobenius_distance, np.rows, np.cols. rewrite Hx.
    reflexivity. }
  rewrite Hnorm, Hdist.
  unfold dictionary.frobenius_distance, np.rows, np.cols. rewrite Hgs.
  cbn [fst snd]. fold (np.cols a).
  apply sqrt_le_square.
  { apply Rmult_le_pos; [apply Rmult_le_pos; [exact Hl | apply sqrt_pos] |
                         apply sqrt_pos]. }
  replace (l_d * sqrt SM * sqrt SD * (l_d * sqrt SM * sqrt SD))%R
    with (l_d * l_d * ((sqrt SM * sqrt SM) * (sqrt SD * sqrt SD)))%R by ring.
  rewrite !sqrt_sqrt by assumption.
  apply Rle_trans with
    (total (map (fun i =>
       total (map (fun j =>
         l_d * l_d
         * (total (map (fun q => m i q * m i q)%R (seq 0 (np.cols a)))
            * total (map (fun q => d q j * d q j)%R (seq 0 (np.cols a)))))%R
         (seq 0 N)))
       (seq 0 (np.cols a)))).
  - apply total_le. intros i Hi. apply total_le. intros j Hj.
    apply in_seq in Hi, Hj. rewrite Hdiff by lia.
    replace (l_d * total (map (fun q => m i q * d q j) (seq 0 (np.cols a)))
             * (l_d * total (map (fun q => m i q * d q j) (seq 0 (np.cols a)))))%R
      with (l_d * l_d
            * (total (map (fun q => m i q * d q j) (seq 0 (np.cols a)))
               * total (map (fun q => m i q * d q j) (seq 0 (np.cols a)))))%R
      by ring.
    apply Rmult_le_compat_l; [apply Rle_0_sqr |].
    apply (cauchy_schwarz (m i) (fun q => d q j)).
  - right.
    transitivity
      (l_d * l_d
       * total (map (fun i =>
           total (map (fun j =>
             total (map (fun q => m i q * m i q)%R (seq 0 (np.cols a)))
             * total (map (fun q => d q j * d q j)%R (seq 0 (np.cols a))))%R
             (seq 0 N)))
           (seq 0 (np.cols a))))%R.
    + rewrite <- total_scale. apply total_ext_in. intros i _.
      rewrite <- total_scale. reflexivity.
    + f_equal.
      rewrite (total_product
                 (fun i => total (map (fun q => m i q * m i q)%R
                                      (seq 0 (np.cols a))))
                 (fun j => total (map (fun q => d q j * d q j)%R
                                      (seq 0 (np.cols a))))).
      fold SM. f_equal. unfold SD. apply total_swap.
Qed.

(** The projection on the unit ball, column by column: a column within the
    ball is left as it is, a column outside is scaled onto the sphere. *)
Lemma proj_b2_prox_columns (x : matrix) (t : R) (j : nat) :
  let p := dictionary.proj_b2_prox 1 x t in
  np.shape p = np.shape x
  /\ dictionary.column_norm p j = Rmin 1 (dictionary.column_norm x j)
  /\ ((dictionary.column_norm x j <= 1)%R ->
      forall i, np.item p i j = np.item x i j)
  /\ ((1 < dictionary.column_norm x j)%R ->
      forall i, np.item p i j
                = (np.item x i j / dictionary.column_norm x j)%R).
Proof.
  intros p. split; [reflexivity |].
  set (nrm := dictionary.column_norm x j).
  set (s := if Reqb nrm 0 then 1%R else Rmin 1 (1 / nrm)).
  assert (Hnrm : (0 <= nrm)%R) by apply sqrt_pos.
  assert (Hitem : forall i, np.item p i j = (np.item x i j * s)%R)
    by reflexivity.
  assert (Hs : (0 <= s)%R /\ ((nrm <= 1)%R -> s = 1%R)
               /\ ((1 < nrm)%R -> s = (/ nrm)%R)).
  { unfold s, Reqb. destruct (Req_dec_T nrm 0) as [Hz | Hnz].
    - split; [lra |]. split; [reflexivity | lra].
    - assert (Hpos : (0 < nrm)%R) by lra.
      assert (Hinv : (0 < / nrm)%R) by (apply Rinv_0_lt_compat; exact Hpos).
      unfold Rdiv. rewrite Rmult_1_l.
      split; [apply Rmin_glb; lra |]. split; intros Hcmp.
      + apply Rmin_left. rewrite <- Rinv_1.
        apply Rinv_le_contravar; assumption.
      + apply Rmin_right. rewrite <- Rinv_1. left.
        apply Rinv_lt_contravar; lra. }
  destruct Hs as (Hs0 & Hs1 & Hs2).
  split; [| split].
  - unfold dictionary.column_norm at 1.
    replace (total (map (fun i => np.item p i j * np.item p i j)%R
                        (seq 0 (np.rows p))))
      with ((s * s) * total (map (fun i => np.item x i j * np.item x i j)%R
                                 (seq 0 (np.rows x))))%R.
    + rewrite sqrt_mult_alt by apply Rle_0_sqr.
      rewrite sqrt_square by exact Hs0.
      fold (dictionary.column_norm x j). fold nrm.
      destruct (Rle_dec nrm 1) as [Hle | Hgt].
      * rewrite (Hs1 Hle), Rmin_right by exact Hle. lra.
      * rewrite Hs2 by lra. rewrite Rmin_left by lra.
        apply Rinv_l. lra.
    + rewrite <- total_scale. apply total_ext_in. intros i _.
      rewrite Hitem. ring.
  - intros Hle i. rewrite Hitem, (Hs1 Hle). ring.
  - intros Hgt i. rewrite Hitem, (Hs2 Hgt). reflexivity.
Qed.

(** ** The dictionary-learning notebook: the loop *)

Lemma last_item_snoc (l : list R) (x : R) :
  dictionary.last_item (l ++ [x]) = Ok x.
Proof. unfold dictionary.last_item. rewrite rev_unit. reflexivity. Qed.

Lemma zeros_like_rows (n : nat) (o : list (list R)) :
  List.Forall (fun row => length row = n) o ->
  List.Forall (fun row => length row = n) (dictionary.zeros_like o).
Proof.
  intros H. unfold dictionary.zeros_like. apply List.Forall_map.
  eapply List.Forall_impl; [| exact H].
  intros row Hrow. rewrite length_map. exact Hrow.
Qed.

Lemma zeros_like_length (o : list (list R)) :
  length (dictionary.zeros_like o) = length o.
Proof. unfold dictionary.zeros_like. apply length_map. Qed.

Lemma column_rows (o : list (list R)) (c : nat) :
  List.Forall (fun row => length row = 2) o -> o <> [] -> c < 2 ->
  exists v, dictionary.column o c = Ok v.
Proof.
  intros Hrows Hne Hc. destruct o as [| r0 o]; [contradiction |].
  unfold dictionary.column.
  assert (Hr0 : length r0 = 2) by (inversion Hrows; assumption).
  assert (Hall : forallb (fun r => length r =? length r0) (r0 :: o) = true).
  { apply forallb_forall. intros r Hr. rewrite List.Forall_forall in Hrows.
    rewrite (Hrows r Hr), Hr0. reflexivity. }
  rewrite Hall, Hr0. destruct (Nat.ltb_spec c 2); [| lia].
  eexists. reflexivity.
Qed.

Section dictionary_properties.

Import dictionary.

Variable solve :
  list func -> heap -> matrix -> solver -> option R -> R -> nat
  -> result solution.
Variable inplace : bool.
Variable l_d : R.

Let iteration := outer_iteration solve inplace l_d.
Let loop := outer_loop solve inplace l_d.

(** A call of [solvers.solve] that returns: what the library computed, and
    the memory after the call. Every array but the one given as [x0] is as
    it was; [x0] holds the solution when the library works in place. *)
Lemma solvers_solve_Ok (fs : list func) (x0 : view) (sv : solver)
    (rtol : option R) (xt : R) (maxit : nat) (h h' : heap) (v : view)
    (o : list (list R)) :
  solvers_solve solve inplace fs x0 sv rtol xt maxit h = Ok (h', v, o) ->
  buffer x0 < length h ->
  exists ret : solution,
    solve fs h (load h x0) sv rtol xt maxit = Ok ret
    /\ o = objective ret
    /\ load h' v = sol ret
    /\ buffer v < length h'
    /\ (forall u, buffer u < length h -> buffer u <> buffer x0 ->
          load h' u = load h u /\ buffer u <> buffer v /\ buffer u < length h')
    /\ load h' x0 = (if inplace then sol ret else load h x0).
Proof.
  unfold solvers_solve. intros Hrun Hx0.
  apply bind_Ok in Hrun as (ret & Hret & Hrun).
  exists ret. split; [exact Hret |].
  destruct inplace.
  - injection Hrun as <- <- <-. split; [reflexivity |].
    split; [apply load_store; exact Hx0 |].
    split; [unfold store; rewrite length_insert; exact Hx0 |].
    split; [| apply load_store; exact Hx0].
    intros u Hu Hne. split; [apply load_store_other; exact Hne |].
    split; [exact Hne |]. unfold store. rewrite length_insert. exact Hu.
  - cbn in Hrun. injection Hrun as <- <- <-. split; [reflexivity |].
    split; [apply (load_allocate h (sol ret)) |].
    split; [cbn; rewrite length_app; simpl; lia |].
    split; [| apply (load_allocate_other h (sol ret)); exact Hx0].
    intros u Hu Hne.
    split; [apply (load_allocate_other h (sol ret)); exact Hu |].
    split; [cbn; lia |]. rewrite length_app. simpl. lia.
Qed.

(** A turn of the loop that returns: the two calls of the solver it made,
    what they were given and what the turn made of what they returned. *)
Lemma outer_iteration_turn (k : nat) (s s' : vars) :
  well_formed s ->
  iteration k s = Ok s' ->
  exists (DtD ZZt : matrix) (ret_z ret_d : solution) (h1 : heap),
    np.dot (np.T (D_of s)) (D_of s) = Ok DtD
    /\ solve [norm_l2 (l_d / 2) (D s) X false; g_z] (memory s) (Z_of s)
         (forward_backward (l_d * la_norm DtD)) None xtol N_inner
       = Ok ret_z
    /\ Z_of s' = sol ret_z
    /\ (load h1 (Z s') = sol ret_z /\ load h1 (D s) = D_of s
        /\ load h1 X = X_of s)
    /\ np.dot (sol ret_z) (np.T (sol ret_z)) = Ok ZZt
    /\ solve [norm_l2 (l_d / 2) (T (Z s')) (T X) false; g_d] h1
         (np.T (D_of s))
         (forward_backward (l_d * la_norm ZZt)) None xtol N_inner
       = Ok ret_d
    /\ D_of s' = np.T (sol ret_d)
    /\ X_of s' = X_of s
    /\ well_formed s'
    /\ objective_z s'
       = (objective_z s ++ objective ret_z) ++ zeros_like (objective ret_d)
    /\ objective_d s'
       = (objective_d s ++ zeros_like (objective ret_z)) ++ objective ret_d
    /\ (exists v_z v_d : R,
          eval g_z (memory s') (Z_of s') = Ok v_z
          /\ eval (norm_l2 (l_d / 2) (T (Z s')) (T X) false) (memory s')
               (np.T (D_of s')) = Ok v_d
          /\ objective_g s' = objective_g s ++ [(v_z + v_d)%R])
    /\ f_z s' = Some (norm_l2 (l_d / 2) (D s) X false)
    /\ load (memory s') (D s) = (if inplace then D_of s' else D_of s)
    /\ f_d s' = Some (norm_l2 (l_d / 2) (T (Z s')) (T X) false).
Proof.
  intros ((HZ0 & HZ) & (HD0 & HD) & HZD) Hrun.
  unfold iteration, outer_iteration in Hrun.
  apply bind_Ok in Hrun as (DtD & HDtD & Hrun).
  apply bind_Ok in Hrun as ([[h1 vZ] o1] & Hsolve1 & Hrun).
  apply bind_Ok in Hrun as (ZZt & HZZt & Hrun).
  apply bind_Ok in Hrun as ([[h2 vDt] o2] & Hsolve2 & Hrun).
  apply bind_Ok in Hrun as (v_z & Hv_z & Hrun).
  apply bind_Ok in Hrun as (v_d & Hv_d & Hrun).
  injection Hrun as <-.
  rewrite load_T in HDtD.
  apply solvers_solve_Ok in Hsolve1
    as (ret_z & Hret_z & -> & Hsol_z & HvZ & Hframe1 & _); [| exact HZ].
  destruct (Hframe1 (D s) HD (not_eq_sym HZD)) as (HD1 & HDZ1 & HDlen1).
  destruct (Hframe1 X ltac:(cbn; lia) ltac:(cbn; lia))
    as (HX1 & HXZ1 & HXlen1).
  rewrite load_T, Hsol_z in HZZt.
  assert (HTD : buffer (T (D s)) = buffer (D s)) by reflexivity.
  apply solvers_solve_Ok in Hsolve2
    as (ret_d & Hret_d & -> & Hsol_d & HvD & Hframe2 & Hx0);
    [| rewrite HTD; exact HDlen1].
  rewrite load_T, HD1 in Hret_d.
  destruct (Hframe2 vZ HvZ ltac:(rewrite HTD; exact (not_eq_sym HDZ1)))
    as (HZ2 & HZD2 & HZlen2).
  destruct (Hframe2 X HXlen1 ltac:(rewrite HTD; cbn; lia))
    as (HX2 & HXD2 & HXlen2).
  exists DtD, ZZt, ret_z, ret_d, h1.
  unfold Z_of, D_of, X_of. cbn [memory Z D objective_z objective_d objective_g
                                 f_z f_d].
  rewrite !load_T, Hsol_d.
  split; [exact HDtD |]. split; [exact Hret_z |].
  split; [rewrite HZ2; exact Hsol_z |].
  split; [split; [exact Hsol_z | split; [exact HD1 | exact HX1]] |].
  split; [exact HZZt |]. split; [exact Hret_d |].
  split; [reflexivity |].
  split; [rewrite HX2; exact HX1 |].
  split.
  { unfold well_formed. cbn [memory Z D T buffer]. cbn in HXZ1, HXD2. lia. }
  split; [reflexivity |]. split; [reflexivity |].
  split.
  { exists v_z, v_d. rewrite T_involutive.
    rewrite view_T_T, Hsol_d in Hv_d. split; [exact Hv_z |].
    split; [exact Hv_d | reflexivity]. }
  split; [reflexivity |]. split; [| reflexivity].
  rewrite <- (view_T_T (D s)) at 1. rewrite load_T, Hx0, load_T, HD1.
  destruct inplace; [reflexivity | apply T_involutive].
Qed.

Lemma outer_loop_S (turns : nat) (data Zinit Dinit : matrix) :
  loop (S turns) data Zinit Dinit
  = loop turns data Zinit Dinit ≫= iteration turns.
Proof. unfold loop, outer_loop. rewrite seq_S. apply for_range_snoc. Qed.

(** A loop that returns has returned after every smaller number of turns. *)
Lemma outer_loop_before (turns : nat) (data Zinit Dinit : matrix) (s : vars) :
  loop turns data Zinit Dinit = Ok s ->
  forall k, k < turns ->
    exists sk sk' : vars,
      loop k data Zinit Dinit = Ok sk
      /\ iteration k sk = Ok sk'
      /\ loop (S k) data Zinit Dinit = Ok sk'.
Proof.
  revert s. induction turns as [| turns IH]; intros s Hs k Hk; [lia |].
  rewrite outer_loop_S in Hs. apply bind_Ok in Hs as (s0 & Hs0 & Hs).
  destruct (Nat.eq_dec k turns) as [-> | Hne].
  - exists s0, s. split; [exact Hs0 |]. split; [exact Hs |].
    rewrite outer_loop_S, Hs0. exact Hs.
  - apply (IH s0 Hs0). lia.
Qed.

(** The three arrays stay three arrays, and [X] is never written. *)
Lemma outer_loop_state (turns : nat) (data Zinit Dinit : matrix) (s : vars) :
  loop turns data Zinit Dinit = Ok s -> well_formed s /\ X_of s = data.
Proof.
  revert s. induction turns as [| turns IH]; intros s Hs.
  - injection Hs as <-. unfold well_formed. cbn. split; [lia | reflexivity].
  - rewrite outer_loop_S in Hs. apply bind_Ok in Hs as (s0 & Hs0 & Hs).
    destruct (IH s0 Hs0) as [Hwf HX].
    destruct (outer_iteration_turn turns s0 s Hwf Hs)
      as (DtD & ZZt & ret_z & ret_d & h1 & _ & _ & _ & _ & _ & _ & _ & HX'
          & Hwf' & _).
    split; [exact Hwf' | congruence].
Qed.

Lemma shape_T {A : Type} (a b : np.ndarray A) :
  np.shape a = np.shape (np.T b) -> np.shape (np.T a) = np.shape b.
Proof.
  destruct a as [[r c] f], b as [[r' c'] f']. cbn. intros [= -> ->].
  reflexivity.
Qed.

(** With a solver that keeps the shape of its starting point, [Z] and [D]
    keep the shapes of the initial conditions. *)
Lemma outer_loop_shapes (turns : nat) (data Zinit Dinit : matrix) (s : vars) :
  keeps_shape solve ->
  loop turns data Zinit Dinit = Ok s ->
  np.shape (Z_of s) = np.shape Zinit /\ np.shape (D_of s) = np.shape Dinit.
Proof.
  intros Hkeeps. revert s. induction turns as [| turns IH]; intros s Hs.
  - injection Hs as <-. split; reflexivity.
  - rewrite outer_loop_S in Hs. apply bind_Ok in Hs as (s0 & Hs0 & Hs).
    destruct (IH s0 Hs0) as [HZ HD].
    destruct (outer_loop_state turns data Zinit Dinit s0 Hs0) as [Hwf _].
    destruct (outer_iteration_turn turns s0 s Hwf Hs)
      as (DtD & ZZt & ret_z & ret_d & h1 & _ & Hret_z & HZ' & _ & _ & Hret_d
          & HD' & _).
    apply Hkeeps in Hret_z, Hret_d. rewrite HZ', HD'. split.
    + congruence.
    + rewrite <- HD. apply shape_T. exact Hret_d.
Qed.

(** A turn returns when the library does and the shapes fit: [X] of [n]
    rows and [N] columns, [D] of [n] rows, [Z] of [N] columns, and as many
    columns in [D] as rows in [Z]. *)
Lemma outer_iteration_returns (k : nat) (s : vars) :
  (forall fs h x0 sv rtol xt maxit,
     exists ret, solve fs h x0 sv rtol xt maxit = Ok ret) ->
  keeps_shape solve ->
  well_formed s ->
  np.cols (D_of s) = np.rows (Z_of s) ->
  np.shape (X_of s) = (np.rows (D_of s), np.cols (Z_of s)) ->
  exists s' : vars, iteration k s = Ok s'.
Proof.
  intros Htotal Hkeeps Hwf Hfit HX.
  destruct (iteration k s) as [s' | e] eqn:Hrun; [exists s'; reflexivity |].
  exfalso. destruct Hwf as ((HZ0 & HZ) & (HD0 & HD) & HZD).
  unfold iteration, outer_iteration in Hrun.
  rewrite load_T in Hrun.
  destruct (dot_T_l (load (memory s) (D s))) as [DtD HDtD].
  rewrite HDtD in Hrun. cbn [mbind result_bind] in Hrun.
  match type of Hrun with
  | context [solvers_solve solve inplace ?fs ?x0 ?sv ?rtol ?xt ?maxit ?h] =>
      destruct (solvers_solve solve inplace fs x0 sv rtol xt maxit h)
        as [[[h1 vZ] o1] | e1] eqn:Hsolve1
  end.
  2: { unfold solvers_solve in Hsolve1.
       match type of Hsolve1 with
       | context [solve ?fs ?h ?x0 ?sv ?rtol ?xt ?maxit] =>
           destruct (Htotal fs h x0 sv rtol xt maxit) as [ret Hret];
           rewrite Hret in Hsolve1
       end.
       cbn [mbind result_bind] in Hsolve1.
       destruct inplace; cbn in Hsolve1; discriminate. }
  cbn [mbind result_bind] in Hrun.
  pose proof Hsolve1 as Hcall1.
  apply solvers_solve_Ok in Hsolve1
    as (ret_z & Hret_z & -> & Hsol_z & HvZ & Hframe1 & _); [| exact HZ].
  destruct (Hframe1 (D s) HD (not_eq_sym HZD)) as (HD1 & HDZ1 & HDlen1).
  destruct (Hframe1 X ltac:(cbn; lia) ltac:(cbn; lia))
    as (HX1 & HXZ1 & HXlen1).
  rewrite load_T in Hrun.
  destruct (dot_T_r (load h1 vZ)) as [ZZt HZZt].
  rewrite HZZt in Hrun. cbn [mbind result_bind] in Hrun.
  match type of Hrun with
  | context [solvers_solve solve inplace ?fs ?x0 ?sv ?rtol ?xt ?maxit ?h] =>
      destruct (solvers_solve solve inplace fs x0 sv rtol xt maxit h)
        as [[[h2 vDt] o2] | e2] eqn:Hsolve2
  end.
  2: { unfold solvers_solve in Hsolve2.
       match type of Hsolve2 with
       | context [solve ?fs ?h ?x0 ?sv ?rtol ?xt ?maxit] =>
           destruct (Htotal fs h x0 sv rtol xt maxit) as [ret Hret];
           rewrite Hret in Hsolve2
       end.
       cbn [mbind result_bind] in Hsolve2.
       destruct inplace; cbn in Hsolve2; discriminate. }
  cbn [mbind result_bind] in Hrun.
  assert (HTD : buffer (T (D s)) = buffer (D s)) by reflexivity.
  apply solvers_solve_Ok in Hsolve2
    as (ret_d & Hret_d & -> & Hsol_d & HvD & Hframe2 & Hx0);
    [| rewrite HTD; exact HDlen1].
  rewrite load_T, HD1 in Hret_d.
  destruct (Hframe2 vZ HvZ ltac:(rewrite HTD; exact (not_eq_sym HDZ1)))
    as (HZ2 & HZD2 & HZlen2).
  destruct (Hframe2 X HXlen1 ltac:(rewrite HTD; cbn; lia))
    as (HX2 & HXD2 & HXlen2).
  apply Hkeeps in Hret_z, Hret_d.
  rewrite eval_norm_l1 in Hrun. cbn [mbind result_bind] in Hrun.
  rewrite view_T_T, Hsol_d in Hrun.
  rewrite (eval_data_term_D l_d vZ false h2 (sol ret_d)) in Hrun.
  - discriminate.
  - rewrite HZ2, Hsol_z. unfold np.rows. rewrite Hret_z, Hret_d.
    cbn [np.shape np.T fst]. symmetry. exact Hfit.
  - rewrite HX2, HX1, HZ2, Hsol_z. unfold np.cols at 1 2.
    rewrite Hret_z, Hret_d. cbn [np.shape np.T snd].
    exact HX.
Qed.

(** So does the loop. *)
Lemma outer_loop_returns (turns : nat) (data Zinit Dinit : matrix) :
  (forall fs h x0 sv rtol xt maxit,
     exists ret, solve fs h x0 sv rtol xt maxit = Ok ret) ->
  keeps_shape solve ->
  np.cols Dinit = np.rows Zinit ->
  np.shape data = (np.rows Dinit, np.cols Zinit) ->
  exists s : vars, loop turns data Zinit Dinit = Ok s.
Proof.
  intros Htotal Hkeeps Hfit HX.
  induction turns as [| turns [s Hs]]; [eexists; reflexivity |].
  destruct (outer_loop_state turns data Zinit Dinit s Hs) as [Hwf HXs].
  destruct (outer_loop_shapes turns data Zinit Dinit s Hkeeps Hs) as [HZ HD].
  destruct (outer_iteration_returns turns s Htotal Hkeeps Hwf) as [s' Hs'].
  - unfold np.cols, np.rows. rewrite HZ, HD. exact Hfit.
  - rewrite HXs. unfold np.cols, np.rows. rewrite HZ, HD. exact HX.
  - exists s'. rewrite outer_loop_S, Hs. exact Hs'.
Qed.

(** C3. A run of the algorithm cell that returns has made [N_outer = 15]
    turns, and each turn two calls of the solver, a forward-backward solver
    with the method FISTA.
    - The first minimizes over [Z] with [D] held fixed: it starts from [Z]
      and is given the data term [l_d/2 ||X - D Z||_F^2] as a function of
      [Z], on the dictionary [D] of before the turn, and the L1 norm; what
      it returns is the new [Z].
    - The second minimizes over [D], through [D^T], with the new [Z] held
      fixed: it starts from [D^T] and is given the same data term as a
      function of [D^T], on the new [Z], and the function [g_d], which is 0;
      the transpose of what it returns is the new [D].
    - The step of each is [1/L], with [L = l_d ||A^T A||_F] for the
      operator [A] of its data term; when [l_d] is not negative, [L] is a
      Lipschitz constant of the gradient of that data term.
    - The prox of [g_d] projects every column of the dictionary on the unit
      ball: a column within it is left as it is, a column outside is scaled
      onto the sphere. *)
Theorem alternating_minimization (data Zinit Dinit : matrix) (s : vars) :
  (0 <= l_d)%R ->
  algorithm solve inplace l_d data Zinit Dinit = Ok s ->
  N_outer = 15
  /\ length (objective_g s) = 15
  /\ (forall k, k < 15 ->
      exists (sk sk' : vars) (DtD ZZt : matrix) (ret_z ret_d : solution)
             (h1 : heap),
        loop k data Zinit Dinit = Ok sk
        /\ loop (S k) data Zinit Dinit = Ok sk'
        (* over Z, with D held fixed *)
        /\ np.dot (np.T (D_of sk)) (D_of sk) = Ok DtD
        /\ solve [norm_l2 (l_d / 2) (D sk) X false; norm_l1] (memory sk)
             (Z_of sk)
             {| step := float64.div (float64.of_R 1)
                          (float64.of_R (l_d * la_norm DtD));
                method := "FISTA" |}
             None xtol N_inner
           = Ok ret_z
        /\ Z_of sk' = sol ret_z
        /\ (forall Z' : matrix,
              np.cols (D_of sk) = np.rows Z' ->
              np.shape data = (np.rows (D_of sk), np.cols Z') ->
              eval (norm_l2 (l_d / 2) (D sk) X false) (memory sk) Z'
              = Ok (data_term l_d data Z' (D_of sk))
              /\ eval norm_l1 (memory sk) Z' = Ok (l1_norm Z'))
        /\ (forall N : nat,
              np.shape data = (np.rows (D_of sk), N) ->
              lipschitz (l_d * la_norm DtD)
                (norm_l2_grad (l_d / 2) (D_of sk) data)
                (np.cols (D_of sk), N))
        (* over D, through D^T, with the new Z held fixed *)
        /\ np.dot (Z_of sk') (np.T (Z_of sk')) = Ok ZZt
        /\ load h1 (Z sk') = Z_of sk'
        /\ solve [norm_l2 (l_d / 2) (T (Z sk')) (T X) false; g_d] h1
             (np.T (D_of sk))
             {| step := float64.div (float64.of_R 1)
                          (float64.of_R (l_d * la_norm ZZt));
                method := "FISTA" |}
             None xtol N_inner
           = Ok ret_d
        /\ D_of sk' = np.T (sol ret_d)
        /\ (forall Dt' : matrix,
              np.rows (Z_of sk') = np.rows Dt' ->
              np.shape data = (np.cols Dt', np.cols (Z_of sk')) ->
              eval (norm_l2 (l_d / 2) (T (Z sk')) (T X) false) h1 Dt'
              = Ok (data_term l_d data (Z_of sk') (np.T Dt'))
              /\ eval g_d h1 Dt' = Ok 0%R)
        /\ (forall n : nat,
              np.shape data = (n, np.cols (Z_of sk')) ->
              lipschitz (l_d * la_norm ZZt)
                (norm_l2_grad (l_d / 2) (np.T (Z_of sk')) (np.T data))
                (np.rows (Z_of sk'), n)))
  /\ (forall L : R, (0 < L)%R ->
        float64.div (float64.of_R 1) (float64.of_R L)
        = float64.number false (1 / L))
  /\ (exists (_eval : matrix -> R) (_prox : matrix -> R -> matrix),
        g_d = func_with _eval _prox
        /\ forall (Dt : matrix) (t : R) (j : nat),
             let Dict := np.T Dt in
             let Dict' := np.T (_prox Dt t) in
             np.shape Dict' = np.shape Dict
             /\ column_norm Dict' j = Rmin 1 (column_norm Dict j)
             /\ ((column_norm Dict j <= 1)%R ->
                 forall i, np.item Dict' i j = np.item Dict i j)
             /\ ((1 < column_norm Dict j)%R ->
                 forall i, np.item Dict' i j
                           = (np.item Dict i j / column_norm Dict j)%R)).
Proof.
  intros Hl Hs. unfold algorithm in Hs. fold loop in Hs.
  split; [reflexivity |].
  split.
  { (* one value of the objective per turn *)
    assert (Hlen : forall turns st,
              loop turns data Zinit Dinit = Ok st ->
              length (objective_g st) = turns).
    { induction turns as [| turns IH]; intros st Hst.
      - injection Hst as <-. reflexivity.
      - rewrite outer_loop_S in Hst. apply bind_Ok in Hst as (s0 & Hs0 & Hst).
        destruct (outer_loop_state turns data Zinit Dinit s0 Hs0) as [Hwf _].
        destruct (outer_iteration_turn turns s0 st Hwf Hst)
          as (DtD & ZZt & ret_z & ret_d & h1 & _ & _ & _ & _ & _ & _ & _ & _
              & _ & _ & _ & (v_z & v_d & _ & _ & Hg) & _).
        rewrite Hg, length_app, (IH s0 Hs0). simpl. lia. }
    exact (Hlen N_outer s Hs). }
  split; [| split].
  - intros k Hk.
    destruct (outer_loop_before N_outer data Zinit Dinit s Hs k Hk)
      as (sk & sk' & Hsk & Hturn & Hsk').
    destruct (outer_loop_state k data Zinit Dinit sk Hsk) as [Hwf HX].
    destruct (outer_iteration_turn k sk sk' Hwf Hturn)
      as (DtD & ZZt & ret_z & ret_d & h1 & HDtD & Hret_z & HZ'
          & (HZ1 & HD1 & HX1) & HZZt & Hret_d & HD' & _).
    exists sk, sk', DtD, ZZt, ret_z, ret_d, h1.
    split; [exact Hsk |]. split; [exact Hsk' |].
    split; [exact HDtD |]. split; [exact Hret_z |]. split; [exact HZ' |].
    split.
    { intros Z' Hfit Hshape. split; [| apply eval_norm_l1].
      rewrite <- HX. apply eval_data_term_Z.
      - exact Hfit.
      - fold (X_of sk). rewrite HX. exact Hshape. }
    split.
    { intros N Hshape. apply norm_l2_lipschitz; assumption. }
    split; [rewrite HZ'; exact HZZt |].
    split; [rewrite HZ'; exact HZ1 |].
    split; [exact Hret_d |]. split; [exact HD' |].
    split.
    { intros Dt' Hfit Hshape. split; [| reflexivity].
      rewrite HZ', <- HZ1, <- HX, <- HX1. apply eval_data_term_D.
      - rewrite HZ1, <- HZ'. exact Hfit.
      - rewrite HX1, HX, HZ1, <- HZ'. exact Hshape. }
    intros n Hshape. apply norm_l2_lipschitz.
    + exact Hl.
    + cbn [np.shape np.T]. unfold np.rows, np.cols. cbn [np.shape np.T].
      rewrite Hshape. reflexivity.
    + rewrite T_involutive, HZ'. exact HZZt.
  - intros L HL. unfold float64.div, float64.of_R.
    rewrite !Rltb_false by lra. rewrite !Rabs_pos_eq by lra.
    rewrite Reqb_false by lra. reflexivity.
  - eexists _, _. split; [reflexivity |].
    intros Dt t j Dict Dict'. unfold Dict'. rewrite T_involutive.
    apply proj_b2_prox_columns.
Qed.

(** The recorded objectives are lists of rows of two values, and not empty
    after a turn. *)
Lemma outer_loop_objectives (turns : nat) (data Zinit Dinit : matrix)
    (s : vars) :
  records_objective solve ->
  loop turns data Zinit Dinit = Ok s ->
  List.Forall (fun row => length row = 2) (objective_z s)
  /\ List.Forall (fun row => length row = 2) (objective_d s)
  /\ (0 < turns -> objective_z s <> [] /\ objective_d s <> []).
Proof.
  intros Hrecords. revert s. induction turns as [| turns IH]; intros s Hs.
  - injection Hs as <-. split; [constructor |]. split; [constructor | lia].
  - rewrite outer_loop_S in Hs. apply bind_Ok in Hs as (s0 & Hs0 & Hs).
    destruct (IH s0 Hs0) as (Hz & Hd & _).
    destruct (outer_loop_state turns data Zinit Dinit s0 Hs0) as [Hwf _].
    destruct (outer_iteration_turn turns s0 s Hwf Hs)
      as (DtD & ZZt & ret_z & ret_d & h1 & _ & Hret_z & _ & _ & _ & Hret_d
          & _ & _ & _ & Hz' & Hd' & _).
    apply Hrecords in Hret_z as [Hne_z Hrows_z].
    apply Hrecords in Hret_d as [Hne_d Hrows_d].
    rewrite Hz', Hd'. split; [| split].
    + apply List.Forall_app. split; [apply List.Forall_app; split |];
        [exact Hz | exact Hrows_z | apply zeros_like_rows; exact Hrows_d].
    + apply List.Forall_app. split; [apply List.Forall_app; split |];
        [exact Hd | apply zeros_like_rows; exact Hrows_z | exact Hrows_d].
    + intros _. split; intros Hnil; apply app_eq_nil in Hnil as [Hnil Hnil'].
      * apply app_eq_nil in Hnil as [_ Hnil]. contradiction.
      * contradiction.
Qed.

(** What a turn records of the objective: the L1 norm of the new [Z] plus
    the data term at the new [Z] and [D]. *)
Lemma outer_iteration_objective (k : nat) (data : matrix) (s s' : vars) :
  well_formed s ->
  X_of s = data ->
  iteration k s = Ok s' ->
  np.cols (D_of s') = np.rows (Z_of s') ->
  np.shape data = (np.rows (D_of s'), np.cols (Z_of s')) ->
  objective_g s'
  = objective_g s ++ [objective_spec l_d data (Z_of s') (D_of s')]
  /\ eval norm_l1 (memory s') (Z_of s') = Ok (l1_norm (Z_of s'))
  /\ eval (norm_l2 (l_d / 2) (T (Z s')) (T X) false) (memory s')
       (np.T (D_of s'))
     = Ok (data_term l_d data (Z_of s') (D_of s')).
Proof.
  intros Hwf HX Hrun Hfit Hshape.
  destruct (outer_iteration_turn k s s' Hwf Hrun)
    as (DtD & ZZt & ret_z & ret_d & h1 & _ & _ & _ & _ & _ & _ & _ & HX'
        & _ & _ & _ & (v_z & v_d & Hv_z & Hv_d & Hg) & _).
  assert (Hdata : eval (norm_l2 (l_d / 2) (T (Z s')) (T X) false) (memory s')
                    (np.T (D_of s'))
                  = Ok (data_term l_d data (Z_of s') (D_of s'))).
  { rewrite <- (T_involutive (D_of s')) at 2. rewrite <- HX, <- HX'.
    apply eval_data_term_D.
    - symmetry. exact Hfit.
    - fold (X_of s') (Z_of s'). rewrite HX', HX. exact Hshape. }
  rewrite eval_norm_l1 in Hv_z. rewrite Hdata in Hv_d.
  injection Hv_z as <-. injection Hv_d as <-.
  split; [exact Hg |]. split; [apply eval_norm_l1 | exact Hdata].
Qed.

(** What the convergence cell prints of the notebook's own solution and
    what the cell of the reference solution prints of the reference: the L1
    norm of [Z], the L2 data term weighted by [lambda_ = l_d/2], twice, and
    their sum. The second line, the data term as a function of [Z], comes
    for the notebook's solution from a function made before the last update
    of the dictionary: it is on the final dictionary when the library
    updates its starting point in place, and on the dictionary of before
    the last update when it copies. *)
Lemma printed_terms (files : gmap string (gmap string matrix))
    (mat : gmap string matrix)
    (data Zinit Dinit Zxavier Dxavier exectime : matrix) (s : vars) :
  records_objective solve ->
  keeps_shape solve ->
  files !! "data/xavier_ZD.mat" = Some mat ->
  mat !! "Z" = Some Zxavier ->
  mat !! "D" = Some Dxavier ->
  mat !! "exectime" = Some exectime ->
  np.shape exectime = (1, 1) ->
  np.cols Dinit = np.rows Zinit ->
  np.shape data = (np.rows Dinit, np.cols Zinit) ->
  np.cols Dxavier = np.rows Zxavier ->
  np.shape data = (np.rows Dxavier, np.cols Zxavier) ->
  algorithm solve inplace l_d data Zinit Dinit = Ok s ->
  exists s14 : vars,
    loop 14 data Zinit Dinit = Ok s14
    /\ convergence s
       = Ok [l1_norm (Z_of s);
             data_term l_d data (Z_of s)
               (if inplace then D_of s else D_of s14);
             data_term l_d data (Z_of s) (D_of s);
             objective_spec l_d data (Z_of s) (D_of s)]
    /\ solution_from_xavier l_d files (memory s)
       = Ok (Zxavier, Dxavier,
             [l1_norm Zxavier;
              data_term l_d data Zxavier Dxavier;
              data_term l_d data Zxavier Dxavier;
              objective_spec l_d data Zxavier Dxavier]).
Proof.
  intros Hrecords Hkeeps Hfile HZx HDx Ht Hscalar Hfit Hshape Hfitx Hshapex Hs.
  unfold algorithm in Hs. fold loop in Hs.
  destruct (outer_loop_before N_outer data Zinit Dinit s Hs 14
              ltac:(unfold N_outer; lia))
    as (s14 & s' & Hs14 & Hturn & Hs').
  replace (loop 15 data Zinit Dinit) with (loop N_outer data Zinit Dinit)
    in Hs' by reflexivity.
  rewrite Hs in Hs'. injection Hs' as <-.
  destruct (outer_loop_state 14 data Zinit Dinit s14 Hs14) as [Hwf14 HX14].
  destruct (outer_loop_state N_outer data Zinit Dinit s Hs) as [Hwf HX].
  destruct (outer_loop_shapes 14 data Zinit Dinit s14 Hkeeps Hs14)
    as [HZ14 HD14].
  destruct (outer_loop_shapes N_outer data Zinit Dinit s Hkeeps Hs) as [HZ HD].
  destruct (outer_loop_objectives N_outer data Zinit Dinit s Hrecords Hs)
    as (Hz & Hd & Hne).
  destruct (Hne ltac:(unfold N_outer; lia)) as [Hzne Hdne].
  assert (Hfits : np.cols (D_of s) = np.rows (Z_of s))
    by (unfold np.cols, np.rows; rewrite HZ, HD; exact Hfit).
  assert (Hshapes : np.shape data = (np.rows (D_of s), np.cols (Z_of s)))
    by (unfold np.cols, np.rows; rewrite HZ, HD; exact Hshape).
  destruct (outer_iteration_objective 14 data s14 s Hwf14 HX14 Hturn Hfits
              Hshapes) as (Hg & Hl1 & Hdata).
  destruct (outer_iteration_turn 14 s14 s Hwf14 Hturn)
    as (DtD & ZZt & ret_z & ret_d & h1 & _ & _ & _ & _ & _ & _ & _ & _ & _
        & _ & _ & _ & Hfz & Hstale & Hfd).
  exists s14. split; [exact Hs14 |]. split.
  - unfold convergence.
    destruct (column_rows (objective_z s) 0 Hz Hzne) as [c0 ->]; [lia |].
    destruct (column_rows (objective_z s) 1 Hz Hzne) as [c1 ->]; [lia |].
    destruct (column_rows (objective_d s) 0 Hd Hdne) as [c2 ->]; [lia |].
    cbn [mbind result_bind]. fold (Z_of s).
    unfold g_z. rewrite Hl1. cbn [mbind result_bind].
    rewrite Hfz. cbn [bound mbind result_bind].
    rewrite (eval_data_term_Z l_d (D s14) false (memory s) (Z_of s)).
    + cbn [mbind result_bind]. rewrite Hfd. cbn [bound mbind result_bind].
      rewrite load_T. fold (D_of s). rewrite Hdata.
      cbn [mbind result_bind]. rewrite Hg, last_item_snoc.
      cbn [mbind result_bind]. fold (X_of s). rewrite HX, Hstale. reflexivity.
    + rewrite Hstale. destruct inplace; [exact Hfits |].
      unfold np.cols, np.rows. rewrite HZ, HD14. exact Hfit.
    + fold (X_of s). rewrite HX, Hstale. destruct inplace; [exact Hshapes |].
      unfold np.cols, np.rows. rewrite HZ, HD14. exact Hshape.
  - unfold solution_from_xavier, loadmat, getkey.
    rewrite Hfile. cbn [mbind result_bind]. rewrite HZx.
    cbn [mbind result_bind allocate]. rewrite HDx.
    cbn [mbind result_bind allocate]. rewrite Ht. cbn [mbind result_bind].
    unfold assert_scalar, np.rows at 1, np.cols at 1. rewrite Hscalar.
    cbn [fst snd Nat.mul Nat.add Nat.eqb mbind result_bind].
    set (h := (memory s ++ [Zxavier]) ++ [Dxavier]).
    set (vZ := {| buffer := length (memory s); transposed := false |}).
    set (vD := {| buffer := length (memory s ++ [Zxavier]);
                  transposed := false |}).
    assert (HlZ : load h vZ = Zxavier).
    { unfold h. rewrite <- (load_allocate (memory s) Zxavier) at 2.
      apply (load_allocate_other (memory s ++ [Zxavier]) Dxavier vZ).
      cbn. rewrite length_app. simpl. lia. }
    assert (HlD : load h vD = Dxavier)
      by apply (load_allocate (memory s ++ [Zxavier]) Dxavier).
    assert (HlX : load h X = data).
    { destruct Hwf as ((_ & Hlen) & _). unfold h. rewrite <- HX.
      unfold X_of.
      rewrite <- (load_allocate_other (memory s) Zxavier X) by (cbn; lia).
      apply (load_allocate_other (memory s ++ [Zxavier]) Dxavier X).
      cbn. rewrite length_app. simpl. lia. }
    rewrite load_T, HlZ, HlD, eval_norm_l1. cbn [mbind result_bind].
    rewrite (eval_data_term_Z l_d vD false h Zxavier)
      by (rewrite ?HlX, HlD; assumption).
    cbn [mbind result_bind].
    rewrite (eval_data_term_D l_d vZ false h (np.T Dxavier)).
    + cbn [mbind result_bind]. rewrite !HlX, !HlZ, !HlD, T_involutive.
      reflexivity.
    + rewrite HlZ. symmetry. exact Hfitx.
    + rewrite HlX, HlZ. exact Hshapex.
Qed.

(** C5. The reference solution is read from the entries [Z] and [D] of
    data/xavier_ZD.mat, and the same terms are evaluated on it and on the
    notebook's own solution: the L1 norm of [Z], the L2 data term weighted
    by [lambda_ = l_d/2] at [(Z, D)], as a function of [Z] and as a function
    of [D^T], and their sum. The library is taken as the notebook calls it:
    it updates its starting point in place, records its objective and keeps
    the shape of its starting point; the shapes of the initial conditions
    and of the reference solution fit the data. *)
Theorem reference_comparison (files : gmap string (gmap string matrix))
    (mat : gmap string matrix)
    (data Zinit Dinit Zxavier Dxavier exectime : matrix) (s : vars) :
  inplace = true ->
  records_objective solve ->
  keeps_shape solve ->
  files !! "data/xavier_ZD.mat" = Some mat ->
  mat !! "Z" = Some Zxavier ->
  mat !! "D" = Some Dxavier ->
  mat !! "exectime" = Some exectime ->
  np.shape exectime = (1, 1) ->
  np.cols Dinit = np.rows Zinit ->
  np.shape data = (np.rows Dinit, np.cols Zinit) ->
  np.cols Dxavier = np.rows Zxavier ->
  np.shape data = (np.rows Dxavier, np.cols Zxavier) ->
  algorithm solve inplace l_d data Zinit Dinit = Ok s ->
  let terms := fun Z D : matrix =>
    [l1_norm Z; data_term l_d data Z D; data_term l_d data Z D;
     (l1_norm Z + data_term l_d data Z D)%R] in
  convergence s = Ok (terms (Z_of s) (D_of s))
  /\ solution_from_xavier l_d files (memory s)
     = Ok (Zxavier, Dxavier, terms Zxavier Dxavier).
Proof.
  intros Hinplace Hrecords Hkeeps Hfile HZx HDx Ht Hscalar Hfit Hshape Hfitx
    Hshapex Hs terms.
  destruct (printed_terms files mat data Zinit Dinit Zxavier Dxavier exectime s
              Hrecords Hkeeps Hfile HZx HDx Ht Hscalar Hfit Hshape Hfitx
              Hshapex Hs) as (s14 & _ & Hown & Href).
  rewrite Hinplace in Hown. split; [exact Hown | exact Href].
Qed.

(** X27. With a library that leaves the solution in a new array, the line
    [f_z(Z,D)] of the convergence cell is not at the notebook's solution:
    it is the data term at the final [Z] and the dictionary of before the
    last update, the one the function [f_z] was made on. The other lines
    are as with a library that works in place. *)
Theorem stale_data_term (data Zinit Dinit : matrix) (s : vars) :
  inplace = false ->
  records_objective solve ->
  keeps_shape solve ->
  np.cols Dinit = np.rows Zinit ->
  np.shape data = (np.rows Dinit, np.cols Zinit) ->
  algorithm solve inplace l_d data Zinit Dinit = Ok s ->
  exists s14 : vars,
    loop 14 data Zinit Dinit = Ok s14
    /\ f_z s = Some (norm_l2 (l_d / 2) (D s14) X false)
    /\ load (memory s) (D s14) = D_of s14
    /\ convergence s
       = Ok [l1_norm (Z_of s);
             data_term l_d data (Z_of s) (D_of s14);
             data_term l_d data (Z_of s) (D_of s);
             objective_spec l_d data (Z_of s) (D_of s)].
Proof.
  intros Hinplace Hrecords Hkeeps Hfit Hshape Hs.
  pose proof Hs as Hrun. unfold algorithm in Hrun. fold loop in Hrun.
  destruct (outer_loop_before N_outer data Zinit Dinit s Hrun 14
              ltac:(unfold N_outer; lia))
    as (s14 & s' & Hs14 & Hturn & Hs').
  replace (loop 15 data Zinit Dinit) with (loop N_outer data Zinit Dinit)
    in Hs' by reflexivity.
  rewrite Hrun in Hs'. injection Hs' as <-.
  destruct (outer_loop_state 14 data Zinit Dinit s14 Hs14) as [Hwf14 _].
  destruct (outer_iteration_turn 14 s14 s Hwf14 Hturn)
    as (DtD & ZZt & ret_z & ret_d & h1 & _ & _ & _ & _ & _ & _ & _ & _ & _
        & _ & _ & _ & Hfz & Hstale & _).
  rewrite Hinplace in Hstale.
  exists s14. split; [exact Hs14 |].
  split; [exact Hfz |]. split; [exact Hstale |].
  (* the printed lines, with no reference solution to read *)
  pose proof (outer_loop_shapes 14 data Zinit Dinit s14 Hkeeps Hs14)
    as [HZ14 HD14].
  pose proof (outer_loop_state N_outer data Zinit Dinit s Hrun) as [Hwf HX].
  pose proof (outer_loop_shapes N_outer data Zinit Dinit s Hkeeps Hrun)
    as [HZ HD].
  destruct (outer_loop_objectives N_outer data Zinit Dinit s Hrecords Hrun)
    as (Hz & Hd & Hne).
  destruct (Hne ltac:(unfold N_outer; lia)) as [Hzne Hdne].
  assert (Hfits : np.cols (D_of s) = np.rows (Z_of s))
    by (unfold np.cols, np.rows; rewrite HZ, HD; exact Hfit).
  assert (Hshapes : np.shape data = (np.rows (D_of s), np.cols (Z_of s)))
    by (unfold np.cols, np.rows; rewrite HZ, HD; exact Hshape).
  destruct (outer_iteration_objective 14 data s14 s Hwf14
              (proj2 (outer_loop_state 14 data Zinit Dinit s14 Hs14))
              Hturn Hfits Hshapes) as (Hg & Hl1 & Hdata).
  destruct (outer_iteration_turn 14 s14 s Hwf14 Hturn)
    as (_ & _ & _ & _ & _ & _ & _ & _ & _ & _ & _ & _ & _ & _
        & _ & _ & _ & _ & _ & Hfd).
  unfold convergence.
  destruct (column_rows (objective_z s) 0 Hz Hzne) as [c0 ->]; [lia |].
  destruct (column_rows (objective_z s) 1 Hz Hzne) as [c1 ->]; [lia |].
  destruct (column_rows (objective_d s) 0 Hd Hdne) as [c2 ->]; [lia |].
  cbn [mbind result_bind]. fold (Z_of s).
  unfold g_z. rewrite Hl1. cbn [mbind result_bind].
  rewrite Hfz. cbn [bound mbind result_bind].
  rewrite (eval_data_term_Z l_d (D s14) false (memory s) (Z_of s)).
  - cbn [mbind result_bind]. rewrite Hfd. cbn [bound mbind result_bind].
    rewrite load_T. fold (D_of s). rewrite Hdata.
    cbn [mbind result_bind]. rewrite Hg, last_item_snoc.
    cbn [mbind result_bind]. fold (X_of s). rewrite HX, Hstale. reflexivity.
  - rewrite Hstale. unfold np.cols, np.rows. rewrite HZ, HD14. exact Hfit.
  - fold (X_of s). rewrite HX, Hstale.
    unfold np.cols, np.rows. rewrite HZ, HD14. exact Hshape.
Qed.

(** X19. After any number of turns that return, [objective_g] holds one
    value per turn, and [objective_z] and [objective_d] have the same
    length: each is padded with zeros where the other records a solve. *)
Theorem objective_traces_aligned (turns : nat) (data Zinit Dinit : matrix)
    (s : vars) :
  loop turns data Zinit Dinit = Ok s ->
  length (objective_g s) = turns
  /\ length (objective_z s) = length (objective_d s).
Proof.
  revert s. induction turns as [| turns IH]; intros s Hs.
  - injection Hs as <-. split; reflexivity.
  - rewrite outer_loop_S in Hs. apply bind_Ok in Hs as (s0 & Hs0 & Hs).
    destruct (IH s0 Hs0) as [Hg Hzd].
    destruct (outer_loop_state turns data Zinit Dinit s0 Hs0) as [Hwf _].
    destruct (outer_iteration_turn turns s0 s Hwf Hs)
      as (DtD & ZZt & ret_z & ret_d & h1 & _ & _ & _ & _ & _ & _ & _ & _
          & _ & Hz' & Hd' & (v_z & v_d & _ & _ & Hg') & _).
    rewrite Hg', Hz', Hd', !length_app, !zeros_like_length. simpl. lia.
Qed.

(** X20. With a solver that records its objective as [pyunlocbox] does,
    the two traces of a loop that returns never overlap: at every position
    the row of [objective_z] or the row of [objective_d] is a row of zeros,
    and both rows have two values. *)
Theorem objective_traces_disjoint (turns : nat) (data Zinit Dinit : matrix)
    (s : vars) :
  records_objective solve ->
  loop turns data Zinit Dinit = Ok s ->
  List.Forall2
    (fun rz rd =>
       length rz = 2 /\ length rd = 2
       /\ (List.Forall (fun x => x = 0%R) rz
           \/ List.Forall (fun x => x = 0%R) rd))
    (objective_z s) (objective_d s).
Proof.
  intros Hrecords.
  assert (Hzeros : forall o : list (list R),
    List.Forall (fun row => length row = 2) o ->
    List.Forall2
      (fun rz rd => length rz = 2 /\ length rd = 2
                    /\ (List.Forall (fun x => x = 0%R) rz
                        \/ List.Forall (fun x => x = 0%R) rd))
      o (zeros_like o)
    /\ List.Forall2
      (fun rz rd => length rz = 2 /\ length rd = 2
                    /\ (List.Forall (fun x => x = 0%R) rz
                        \/ List.Forall (fun x => x = 0%R) rd))
      (zeros_like o) o).
  { induction o as [| row o IH]; intros Ho; [split; constructor |].
    inversion Ho as [| ? ? Hrow Ho']; subst.
    assert (Hz : List.Forall (fun x => x = 0%R) (map (fun _ : R => 0%R) row)).
    { apply List.Forall_map, List.Forall_forall. reflexivity. }
    destruct (IH Ho') as [IH1 IH2].
    split; (constructor;
      [rewrite length_map; repeat split; auto | assumption]). }
  revert s. induction turns as [| turns IH]; intros s Hs.
  - injection Hs as <-. constructor.
  - rewrite outer_loop_S in Hs. apply bind_Ok in Hs as (s0 & Hs0 & Hs).
    destruct (outer_loop_state turns data Zinit Dinit s0 Hs0) as [Hwf _].
    destruct (outer_iteration_turn turns s0 s Hwf Hs)
      as (DtD & ZZt & ret_z & ret_d & h1 & _ & Hret_z & _ & _ & _ & Hret_d
          & _ & _ & _ & Hz' & Hd' & _).
    apply Hrecords in Hret_z as [_ Hrows_z].
    apply Hrecords in Hret_d as [_ Hrows_d].
    rewrite Hz', Hd'.
    apply List.Forall2_app; [apply List.Forall2_app; [exact (IH s0 Hs0) |] |].
    + apply Hzeros. exact Hrows_z.
    + apply Hzeros. exact Hrows_d.
Qed.

(** X21. With a solver that keeps the shape of its starting point and
    initial conditions that fit the data, entry [k] of [objective_g] is the
    objective of the problem, [||Z||_1 + l_d/2 ||X - D Z||_F^2], at the
    code and the dictionary reached after turn [k+1]. *)
Theorem objective_g_values (turns : nat) (data Zinit Dinit : matrix)
    (s : vars) :
  keeps_shape solve ->
  np.cols Dinit = np.rows Zinit ->
  np.shape data = (np.rows Dinit, np.cols Zinit) ->
  loop turns data Zinit Dinit = Ok s ->
  List.Forall2
    (fun k v =>
       exists sk : vars,
         loop (S k) data Zinit Dinit = Ok sk
         /\ v = objective_spec l_d data (Z_of sk) (D_of sk))
    (seq 0 turns) (objective_g s).
Proof.
  intros Hkeeps Hfit Hshape.
  revert s. induction turns as [| turns IH]; intros s Hs.
  - injection Hs as <-. constructor.
  - pose proof Hs as Hloop.
    rewrite outer_loop_S in Hs. apply bind_Ok in Hs as (s0 & Hs0 & Hs).
    destruct (outer_loop_state turns data Zinit Dinit s0 Hs0) as [Hwf HX].
    destruct (outer_loop_shapes (S turns) data Zinit Dinit s Hkeeps Hloop)
      as [HZ HD].
    destruct (outer_iteration_objective turns data s0 s Hwf HX Hs)
      as (Hg & _).
    + unfold np.cols, np.rows. rewrite HZ, HD. exact Hfit.
    + unfold np.cols, np.rows. rewrite HZ, HD. exact Hshape.
    + rewrite seq_S, Hg. apply List.Forall2_app; [exact (IH s0 Hs0) |].
      constructor; [| constructor]. exists s. split; [exact Hloop | reflexivity].
Qed.

End dictionary_properties.

(** A solver that returns its starting point, to run the loop on *)
Lemma stand_in_solver :
  let solve := fun (fs : list dictionary.func) (_ : dictionary.heap)
                   (x0 : matrix) (_ : dictionary.solver) (_ : option R)
                   (_ : R) (_ : nat) =>
    Ok {| dictionary.sol := x0;
          dictionary.objective := [map (fun _ => 0%R) fs] |} in
  (forall fs h x0 sv rtol xt maxit,
     exists ret, solve fs h x0 sv rtol xt maxit = Ok ret)
  /\ dictionary.keeps_shape solve
  /\ dictionary.records_objective solve.
Proof.
  intros solve. split; [| split].
  - intros. eexists. reflexivity.
  - intros fs h x0 sv rtol xt maxit ret [= <-]. reflexivity.
  - intros fs h x0 sv rtol xt maxit ret [= <-]. cbn.
    split; [discriminate |]. constructor; [apply length_map | constructor].
Qed.

Lemma alternating_minimization_witness :
  let solve := fun (fs : list dictionary.func) (_ : dictionary.heap)
                   (x0 : matrix) (_ : dictionary.solver) (_ : option R)
                   (_ : R) (_ : nat) =>
    Ok {| dictionary.sol := x0;
          dictionary.objective := [map (fun _ => 0%R) fs] |} in
  let m : matrix := np.mk_ndarray (1, 1) (fun _ _ => 1%R) in
  exists s : dictionary.vars,
    dictionary.algorithm solve true 10 m m m = Ok s
    /\ length (dictionary.objective_g s) = 15.
Proof.
  intros solve m.
  destruct stand_in_solver as (Htotal & Hkeeps & _).
  destruct (outer_loop_returns solve true 10 dictionary.N_outer m m m
              Htotal Hkeeps eq_refl eq_refl) as [s Hs].
  exists s. split; [exact Hs |].
  exact (proj1 (proj2 (alternating_minimization solve true 10 m m m s
                         ltac:(lra) Hs))).
Defined.

Lemma reference_comparison_witness :
  let solve := fun (fs : list dictionary.func) (_ : dictionary.heap)
                   (x0 : matrix) (_ : dictionary.solver) (_ : option R)
                   (_ : R) (_ : nat) =>
    Ok {| dictionary.sol := x0;
          dictionary.objective := [map (fun _ => 0%R) fs] |} in
  let m : matrix := np.mk_ndarray (1, 1) (fun _ _ => 1%R) in
  let mat : gmap string matrix := {[ "Z" := m; "D" := m; "exectime" := m ]} in
  let files : gmap string (gmap string matrix) :=
    {[ "data/xavier_ZD.mat" := mat ]} in
  exists s : dictionary.vars,
    dictionary.algorithm solve true 10 m m m = Ok s
    /\ dictionary.convergence s
       = Ok [dictionary.l1_norm (dictionary.Z_of s);
             dictionary.data_term 10 m (dictionary.Z_of s) (dictionary.D_of s);
             dictionary.data_term 10 m (dictionary.Z_of s) (dictionary.D_of s);
             (dictionary.l1_norm (dictionary.Z_of s)
              + dictionary.data_term 10 m (dictionary.Z_of s)
                  (dictionary.D_of s))%R]
    /\ dictionary.solution_from_xavier 10 files (dictionary.memory s)
       = Ok (m, m,
             [dictionary.l1_norm m; dictionary.data_term 10 m m m;
              dictionary.data_term 10 m m m;
              (dictionary.l1_norm m + dictionary.data_term 10 m m m)%R]).
Proof.
  intros solve m mat files.
  destruct stand_in_solver as (Htotal & Hkeeps & Hrecords).
  destruct (outer_loop_returns solve true 10 dictionary.N_outer m m m
              Htotal Hkeeps eq_refl eq_refl) as [s Hs].
  assert (Hfile : files !! "data/xavier_ZD.mat" = Some mat)
    by (vm_compute; reflexivity).
  assert (HZ : mat !! "Z" = Some m) by (vm_compute; reflexivity).
  assert (HD : mat !! "D" = Some m) by (vm_compute; reflexivity).
  assert (Ht : mat !! "exectime" = Some m) by (vm_compute; reflexivity).
  destruct (reference_comparison solve true 10 files mat m m m m m m s
              eq_refl Hrecords Hkeeps Hfile HZ HD Ht eq_refl eq_refl eq_refl
              eq_refl eq_refl Hs)
    as (Hown & Href).
  exists s. split; [exact Hs |]. split; [exact Hown | exact Href].
Defined.

Lemma stale_data_term_witness :
  let solve := fun (fs : list dictionary.func) (_ : dictionary.heap)
                   (x0 : matrix) (_ : dictionary.solver) (_ : option R)
                   (_ : R) (_ : nat) =>
    Ok {| dictionary.sol := x0;
          dictionary.objective := [map (fun _ => 0%R) fs] |} in
  let m : matrix := np.mk_ndarray (1, 1) (fun _ _ => 1%R) in
  exists s14 s : dictionary.vars,
    dictionary.outer_loop solve false 10 14 m m m = Ok s14
    /\ dictionary.algorithm solve false 10 m m m = Ok s
    /\ dictionary.load (dictionary.memory s) (dictionary.D s14)
       = dictionary.D_of s14.
Proof.
  intros solve m.
  destruct stand_in_solver as (Htotal & Hkeeps & Hrecords).
  destruct (outer_loop_returns solve false 10 dictionary.N_outer m m m
              Htotal Hkeeps eq_refl eq_refl) as [s Hs].
  destruct (stale_data_term solve false 10 m m m s eq_refl Hrecords Hkeeps
              eq_refl eq_refl Hs)
    as (s14 & Hs14 & _ & Hstale & _).
  exists s14, s. split; [exact Hs14 |]. split; [exact Hs | exact Hstale].
Defined.

Lemma objective_traces_aligned_witness :
  let solve := fun (fs : list dictionary.func) (_ : dictionary.heap)
                   (x0 : matrix) (_ : dictionary.solver) (_ : option R)
                   (_ : R) (_ : nat) =>
    Ok {| dictionary.sol := x0;
          dictionary.objective := [map (fun _ => 0%R) fs] |} in
  let m : matrix := np.mk_ndarray (1, 1) (fun _ _ => 1%R) in
  exists s : dictionary.vars,
    dictionary.outer_loop solve true 10 3 m m m = Ok s
    /\ length (dictionary.objective_g s) = 3.
Proof.
  intros solve m.
  destruct stand_in_solver as (Htotal & Hkeeps & _).
  destruct (outer_loop_returns solve true 10 3 m m m
              Htotal Hkeeps eq_refl eq_refl) as [s Hs].
  exists s. split; [exact Hs |].
  exact (proj1 (objective_traces_aligned solve true 10 3 m m m s Hs)).
Defined.

Lemma objective_traces_disjoint_witness :
  let solve := fun (fs : list dictionary.func) (_ : dictionary.heap)
                   (x0 : matrix) (_ : dictionary.solver) (_ : option R)
                   (_ : R) (_ : nat) =>
    Ok {| dictionary.sol := x0;
          dictionary.objective := [map (fun _ => 0%R) fs] |} in
  let m : matrix := np.mk_ndarray (1, 1) (fun _ _ => 1%R) in
  exists s : dictionary.vars,
    dictionary.outer_loop solve false 10 2 m m m = Ok s
    /\ length (dictionary.objective_z s) = length (dictionary.objective_d s).
Proof.
  intros solve m.
  destruct stand_in_solver as (Htotal & Hkeeps & Hrecords).
  destruct (outer_loop_returns solve false 10 2 m m m
              Htotal Hkeeps eq_refl eq_refl) as [s Hs].
  exists s. split; [exact Hs |].
  exact (List.Forall2_length
           (objective_traces_disjoint solve false 10 2 m m m s Hrecords Hs)).
Defined.

Lemma objective_g_values_witness :
  let solve := fun (fs : list dictionary.func) (_ : dictionary.heap)
                   (x0 : matrix) (_ : dictionary.solver) (_ : option R)
                   (_ : R) (_ : nat) =>
    Ok {| dictionary.sol := x0;
          dictionary.objective := [map (fun _ => 0%R) fs] |} in
  let m : matrix := np.mk_ndarray (1, 1) (fun _ _ => 1%R) in
  exists s : dictionary.vars,
    dictionary.outer_loop solve true 10 1 m m m = Ok s
    /\ dictionary.objective_g s
       = [dictionary.objective_spec 10 m (dictionary.Z_of s)
            (dictionary.D_of s)].
Proof.
  intros solve m.
  destruct stand_in_solver as (Htotal & Hkeeps & _).
  destruct (outer_loop_returns solve true 10 1 m m m
              Htotal Hkeeps eq_refl eq_refl) as [s Hs].
  exists s. split; [exact Hs |].
  pose proof (objective_g_values solve true 10 1 m m m s Hkeeps eq_refl
                eq_refl Hs) as Hall.
  inversion Hall as [| k v ks vs (sk & Hsk & Hv) Hrest Hk Hvs]; subst.
  inversion Hrest; subst.
  replace (dictionary.outer_loop solve true 10 1 m m m) with (Ok s) in Hsk.
  injection Hsk as <-. reflexivity.
Defined.
